(** * Wikitext serializer (mediawiki.WikitextSerializer.js): a shallow embedding

    The serializer of [src/js/api/ParserService.js] is embedded function by
    function.  JavaScript strings are [string]s whose characters stand for
    code units below 256; mutable serializer state is threaded explicitly;
    a thrown exception is the [None] of an [option]; the DOM is a store of
    nodes addressed by index, so that aliasing and in-place mutation of the
    tree are visible.  The DOM-based functions are computations on the
    store and the state whose outcome is a result, an exception, or the
    end of the fuel that bounds their recursion.  Code of other modules of the repository that is not
    part of the source tree (Util, DOMUtils, the PEG tokenizer, the token
    classes) enters through the class [Lib]. *)

From stdpp Require Import base option list gmap strings.
From Stdlib Require Import ZArith Ascii Lia.

Open Scope Z_scope.

(** ** JavaScript strings and the regular expressions of the source *)

Module JS.

Definition chr (n : nat) : ascii := ascii_of_nat n.

Definition LF : ascii := chr 10.
Definition CR : ascii := chr 13.
Definition TAB : ascii := chr 9.
Definition SP : ascii := chr 32.
Definition DQUOTE : ascii := chr 34.

Definition NL : string := String LF "".
Definition QUOT : string := String DQUOTE "".

Definition ch (a b : ascii) : bool := bool_decide (a = b).

(** [\s] on code units below 256. *)
Definition is_space (c : ascii) : bool :=
  ch c TAB || ch c LF || ch c (chr 11) || ch c (chr 12) || ch c CR
  || ch c SP || ch c (chr 160).

(** Line terminators: what [.] does not match. *)
Definition is_lt (c : ascii) : bool := ch c LF || ch c CR.

(** [\w] *)
Definition is_word (c : ascii) : bool :=
  let n := nat_of_ascii c in
  ((48 <=? n) && (n <=? 57) || (65 <=? n) && (n <=? 90)
   || (97 <=? n) && (n <=? 122) || (n =? 95))%nat.

Definition is_lower (c : ascii) : bool :=
  let n := nat_of_ascii c in ((97 <=? n) && (n <=? 122))%nat.

Definition truthy (s : option string) : bool :=
  match s with Some (String _ _) => true | _ => false end.

(** [a || b] on possibly-undefined strings. *)
Definition or_else (a : option string) (b : string) : string :=
  match a with Some (String c s) => String c s | _ => b end.

Definition or_opt (a b : option string) : option string :=
  if truthy a then a else b.

Fixpoint startsWith (p s : string) : bool :=
  match p, s with
  | EmptyString, _ => true
  | String a p', String b s' => ch a b && startsWith p' s'
  | String _ _, EmptyString => false
  end.

(** [s] contains [p] as a substring. *)
Fixpoint includes (p s : string) : bool :=
  startsWith p s ||
  match s with
  | EmptyString => false
  | String _ s' => includes p s'
  end.

Fixpoint exists_char (f : ascii -> bool) (s : string) : bool :=
  match s with
  | EmptyString => false
  | String c s' => f c || exists_char f s'
  end.

Fixpoint forall_char (f : ascii -> bool) (s : string) : bool :=
  match s with
  | EmptyString => true
  | String c s' => f c && forall_char f s'
  end.

(** Membership in a character class written as the string of its members. *)
Definition in_set (set : string) (c : ascii) : bool := exists_char (ch c) set.

Definition first_char (s : string) : option ascii :=
  match s with EmptyString => None | String c _ => Some c end.

Fixpoint last_char (s : string) : option ascii :=
  match s with
  | EmptyString => None
  | String c EmptyString => Some c
  | String _ s' => last_char s'
  end.

Definition first_is (f : ascii -> bool) (s : string) : bool :=
  match s with String c _ => f c | EmptyString => false end.

Definition last_is (f : ascii -> bool) (s : string) : bool :=
  match last_char s with Some c => f c | None => false end.

Fixpoint endsWith (p s : string) : bool :=
  bool_decide (s = p) ||
  match s with
  | EmptyString => false
  | String _ s' => endsWith p s'
  end.

Fixpoint drop (n : nat) (s : string) : string :=
  match n, s with
  | O, _ => s
  | S n', String _ s' => drop n' s'
  | S _, EmptyString => EmptyString
  end.

Fixpoint take (n : nat) (s : string) : string :=
  match n, s with
  | S n', String c s' => String c (take n' s')
  | _, _ => EmptyString
  end.

Definition clamp (len : nat) (i : Z) : nat :=
  if i <? 0 then O else Nat.min (Z.to_nat i) len.

(** [s.substring(i1, i2)]: both indices are clamped to [0, length] and
    swapped when out of order. *)
Definition substring (s : string) (i1 i2 : Z) : string :=
  let a := clamp (String.length s) i1 in
  let b := clamp (String.length s) i2 in
  let lo := Nat.min a b in
  let hi := Nat.max a b in
  take (hi - lo) (drop lo s).

(** [s.substr(-n)]: the last [n] code units. *)
Definition substr_last (n : nat) (s : string) : string :=
  drop (String.length s - n) s.

(** [s.substr(0, n)] and [s.substr(n)]. *)
Definition substr_head (n : nat) (s : string) : string := take n s.
Definition substr_from (n : nat) (s : string) : string := drop n s.

(** [s.replace(/c/g, r)] for a one-character pattern. *)
Fixpoint replace_char (c : ascii) (r : string) (s : string) : string :=
  match s with
  | EmptyString => EmptyString
  | String a s' =>
      if ch a c then r +:+ replace_char c r s'
      else String a (replace_char c r s')
  end.

(** [/\n/g -> ''] *)
Definition strip_newlines (s : string) : string := replace_char LF "" s.

(** [/\n$/], [/\n/], [/[\r\n]$/] *)
Definition ends_nl (s : string) : bool := last_is (fun c => ch c LF) s.
Definition has_nl (s : string) : bool := exists_char (fun c => ch c LF) s.
Definition ends_crlf (s : string) : bool := last_is is_lt s.

(** [/^[ \t]*\n/] *)
Fixpoint blank_then_nl (s : string) : bool :=
  match s with
  | EmptyString => false
  | String c s' =>
      if ch c LF then true
      else if ch c SP || ch c TAB then blank_then_nl s'
      else false
  end.

(** [/^\s*$/] and [/^\s+$/] *)
Definition all_space (s : string) : bool := forall_char is_space s.
Definition all_space1 (s : string) : bool :=
  match s with EmptyString => false | _ => forall_char is_space s end.

(** [/^(\s|<!--([^\-]|-(?!->))*-->)*$/]: a run of white space and
    comments.  A comment body ends at the first [-->] after its opener,
    so one left-to-right pass decides the match; [skip] counts the
    characters of a delimiter still to be passed. *)
Fixpoint sep_scan (in_comment : bool) (skip : nat) (s : string) : bool :=
  match s with
  | EmptyString => negb in_comment
  | String c s' =>
      match skip with
      | S k => sep_scan in_comment k s'
      | O =>
          if in_comment then
            if startsWith "-->" s then sep_scan false 2 s'
            else sep_scan true 0 s'
          else if is_space c then sep_scan false 0 s'
          else if startsWith "<!--" s then sep_scan true 3 s'
          else false
      end
  end.

Definition is_separator (s : string) : bool := sep_scan false 0 s.

(** [(?:\r?\n)*] anchored at both ends. *)
Fixpoint crlf_run (s : string) : bool :=
  match s with
  | EmptyString => true
  | String c s' =>
      if ch c LF then crlf_run s'
      else if ch c CR then
        match s' with
        | String d s'' => ch d LF && crlf_run s''
        | EmptyString => false
        end
      else false
  end.

(** The text without its trailing run of [\r] and [\n], and that run. *)
Fixpoint split_trailing (s : string) : string * string :=
  match s with
  | EmptyString => (EmptyString, EmptyString)
  | String c s' =>
      let (b, t) := split_trailing s' in
      match b with
      | EmptyString =>
          if is_lt c then (EmptyString, String c t)
          else (String c EmptyString, t)
      | _ => (String c b, t)
      end
  end.

(** [text.replace(/<(\/?nowiki)>/g, '&lt;$1&gt;')] *)
Fixpoint replace_nowiki_from (skip : nat) (s : string) : string :=
  match s with
  | EmptyString => EmptyString
  | String c s' =>
      match skip with
      | S k => replace_nowiki_from k s'
      | O =>
          if startsWith "<nowiki>" s then
            "&lt;nowiki&gt;" +:+ replace_nowiki_from 7 s'
          else if startsWith "</nowiki>" s then
            "&lt;/nowiki&gt;" +:+ replace_nowiki_from 8 s'
          else String c (replace_nowiki_from 0 s')
      end
  end.

Definition replace_nowiki (s : string) : string := replace_nowiki_from 0 s.

(** [t.replace(/\n(?!$)/g, '\n ')] *)
Fixpoint indent_nls (s : string) : string :=
  match s with
  | EmptyString => EmptyString
  | String c s' =>
      if ch c LF then
        match s' with
        | EmptyString => NL
        | _ => NL +:+ " " +:+ indent_nls s'
        end
      else String c (indent_nls s')
  end.

(** [/\b(RFC|ISBN|PMID)\b/] *)
Definition word_end (s : string) : bool := negb (first_is is_word s).

Definition trigger_at (s : string) : bool :=
  startsWith "RFC" s && word_end (drop 3 s)
  || startsWith "ISBN" s && word_end (drop 4 s)
  || startsWith "PMID" s && word_end (drop 4 s).

Fixpoint urlTriggers_from (prev_word : bool) (s : string) : bool :=
  negb prev_word && trigger_at s ||
  match s with
  | EmptyString => false
  | String c s' => urlTriggers_from (is_word c) s'
  end.

Definition urlTriggers (s : string) : bool := urlTriggers_from false s.

(** [/^[ \t][^\s]+|[<>\[\]\-\+\|'!=#\*:;~{}]/] *)
Definition wt_special (s : string) : bool :=
  match s with
  | String c (String d _) => (ch c SP || ch c TAB) && negb (is_space d)
  | _ => false
  end
  || exists_char (in_set "<>[]-+|'!=#*:;~{}") s.

(** [/\{\{\{|\{\{|\}\}\}|\}\}/] *)
Definition has_braces (s : string) : bool :=
  includes "{{{" s || includes "{{" s || includes "}}}" s || includes "}}" s.

(** [/\n./] *)
Fixpoint nl_dot (s : string) : bool :=
  match s with
  | EmptyString => false
  | String c s' =>
      ch c LF && first_is (fun d => negb (is_lt d)) s' || nl_dot s'
  end.

(** [/~{3,5}/] *)
Definition has_tildes (s : string) : bool := includes "~~~" s.

(** [.*\]] read from the current position. *)
Fixpoint dot_star_rbracket (s : string) : bool :=
  match s with
  | EmptyString => false
  | String c s' => ch c "]" || negb (is_lt c) && dot_star_rbracket s'
  end.

(** [/\[.*\]/] (and the lazy [/\[.*?\]/], the same test). *)
Fixpoint bracket_pair (s : string) : bool :=
  match s with
  | EmptyString => false
  | String c s' => ch c "[" && dot_star_rbracket s' || bracket_pair s'
  end.

(** [/''|[<>]|\[.*\]|\]/] *)
Definition nonsol_special (s : string) : bool :=
  includes "''" s || exists_char (in_set "<>") s || bracket_pair s
  || exists_char (ch "]") s.

(** [/^[ \t#*:;=]|[<\[\]>\|'!]|\-\-\-\-/] *)
Definition sol_special (s : string) : bool :=
  first_is (fun c => ch c SP || ch c TAB || in_set "#*:;=" c) s
  || exists_char (in_set "<[]>|'!") s
  || includes "----" s.

(** [/(^ |\n )[^\s]+/] *)
Definition sp_nonspace (s : string) : bool :=
  match s with
  | String c (String d _) => ch c SP && negb (is_space d)
  | _ => false
  end.

Fixpoint nl_sp_nonspace (s : string) : bool :=
  match s with
  | EmptyString => false
  | String c s' => ch c LF && sp_nonspace s' || nl_sp_nonspace s'
  end.

Definition sol_space (s : string) : bool := sp_nonspace s || nl_sp_nonspace s.

(** [/^=.*=\n*$/] *)
Fixpoint dot_star_eq_nls (s : string) : bool :=
  match s with
  | EmptyString => false
  | String c s' =>
      ch c "=" && forall_char (fun d => ch d LF) s'
      || negb (is_lt c) && dot_star_eq_nls s'
  end.

Definition heading_pair (s : string) : bool :=
  match s with
  | String c s' => ch c "=" && dot_star_eq_nls s'
  | EmptyString => false
  end.

(** [/(\]\]?)([^\]]|$)/] *)
Definition not_rbracket (s : string) : bool :=
  match s with
  | EmptyString => true
  | String c _ => negb (ch c "]")
  end.

Fixpoint close_bracket (s : string) : bool :=
  match s with
  | EmptyString => false
  | String c s' =>
      ch c "]" &&
        (not_rbracket s' ||
         match s' with
         | String d s'' => ch d "]" && not_rbracket s''
         | EmptyString => false
         end)
      || close_bracket s'
  end.

(** The pattern [^mw\:PageProp\/] followed by a captured run of [.] up to
    the end of the string: the captured group. *)
Definition match_PageProp (s : string) : option string :=
  if startsWith "mw:PageProp/" s then
    let r := drop 12 s in
    if forall_char (fun c => negb (is_lt c)) r then Some r else None
  else None.

(** A pattern that opens with [\b] followed by a literal starting with a
    word character: [at_b] is tried wherever the previous character is
    not a word character. *)
Fixpoint at_word_start (at_b : string -> bool) (prev_word : bool)
    (s : string) : bool :=
  negb prev_word && at_b s ||
  match s with
  | EmptyString => false
  | String c s' => at_word_start at_b (is_word c) s'
  end.

(** [/\bmw:ExpandedAttrs\/[^\s]+/] *)
Definition expanded_attrs (s : string) : bool :=
  at_word_start
    (fun t => startsWith "mw:ExpandedAttrs/" t
              && first_is (fun c => negb (is_space c)) (drop 17 t))
    false s.

(** [/\bmw:Object(\/[^\s]+|\b)/] *)
Definition object_typeof (s : string) : bool :=
  at_word_start
    (fun t => startsWith "mw:Object" t &&
              let r := drop 9 t in
              (match r with
               | String c r' => ch c "/" && first_is (fun d => negb (is_space d)) r'
               | EmptyString => false
               end
               || word_end r))
    false s.

(** [s.substr(start)]: a negative [start] counts from the end. *)
Definition substr (s : string) (start : Z) : string :=
  let len := Z.of_nat (String.length s) in
  drop (Z.to_nat (if start <? 0 then Z.max (len + start) 0 else start)) s.

(** [s.replace(/pat/g, rep)] for a literal, non-empty [pat]. *)
Fixpoint replace_all_from (pat rep : string) (skip : nat) (s : string)
    : string :=
  match s with
  | EmptyString => EmptyString
  | String c s' =>
      match skip with
      | S k => replace_all_from pat rep k s'
      | O =>
          if startsWith pat s
          then rep +:+ replace_all_from pat rep (String.length pat - 1) s'
          else String c (replace_all_from pat rep 0 s')
      end
  end.

Definition replace_all (pat rep s : string) : string :=
  replace_all_from pat rep 0 s.

(** [s.replace(/^(\.\.?\/)+/, '')]; with a star for the plus the
    result is the same. *)
Fixpoint strip_dot_slash (s : string) : string :=
  match s with
  | String a (String b r) =>
      if ch a "." && ch b "/" then strip_dot_slash r
      else
        match r with
        | String c r' =>
            if ch a "." && ch b "." && ch c "/" then strip_dot_slash r'
            else s
        | EmptyString => s
        end
  | _ => s
  end.

(** The text up to the first character satisfying [f], and what follows
    that character. *)
Fixpoint break_at (f : ascii -> bool) (s : string)
    : string * option string :=
  match s with
  | EmptyString => (EmptyString, None)
  | String c s' =>
      if f c then (EmptyString, Some s')
      else let (a, b) := break_at f s' in (String c a, b)
  end.

Fixpoint take_while (f : ascii -> bool) (s : string) : string :=
  match s with
  | EmptyString => EmptyString
  | String c s' => if f c then String c (take_while f s') else EmptyString
  end.

(** [prop.split("#")]: the first piece and the second, if any. *)
Definition split_hash (s : string) : string * option string :=
  let (p0, rest) := break_at (fun c => ch c "#") s in
  (p0, (fun r => (break_at (fun c => ch c "#") r).1) <$> rest).

(** The sort-key pattern of category targets: a captured run without
    [#], a [#], and a captured run of [.]; the two captured groups. *)
Definition match_sortkey (s : string) : option (string * string) :=
  let (p0, rest) := break_at (fun c => ch c "#") s in
  (fun r => (p0, take_while (fun c => negb (is_lt c)) r)) <$> rest.

(** [/\bmw:[^\b]+/]: the matched text.  Inside a character class [\b]
    is the backspace. *)
Definition rel_type_at (s : string) : option string :=
  if startsWith "mw:" s
     && first_is (fun c => negb (ch c (chr 8))) (drop 3 s)
  then Some ("mw:" +:+ take_while (fun c => negb (ch c (chr 8))) (drop 3 s))
  else None.

Fixpoint rel_type_from (prev_word : bool) (s : string) : option string :=
  match (if prev_word then None else rel_type_at s) with
  | Some m => Some m
  | None =>
      match s with
      | EmptyString => None
      | String c s' => rel_type_from (is_word c) s'
      end
  end.

Definition rel_type (s : string) : option string := rel_type_from false s.

(** [/mw:ExtLink\/(?:ISBN|RFC|PMID)/] *)
Definition magic_extlink (s : string) : bool :=
  includes "mw:ExtLink/ISBN" s || includes "mw:ExtLink/RFC" s
  || includes "mw:ExtLink/PMID" s.

Fixpoint drop_last (s : string) : string :=
  match s with
  | EmptyString => EmptyString
  | String c EmptyString => EmptyString
  | String c s' => String c (drop_last s')
  end.

(** [s.replace(/(^\[:)|(\]$)/g, '')] *)
Definition strip_resource (s : string) : string :=
  let s := if startsWith "[:" s then drop 2 s else s in
  if last_is (fun c => ch c "]") s then drop_last s else s.

(** [s.replace(/^img_/, '')] *)
Definition strip_img (s : string) : string :=
  if startsWith "img_" s then drop 4 s else s.

(** [/^(\r\n|\r|\n)/]: the captured group. *)
Definition leading_newline (s : string) : option string :=
  match s with
  | String a r =>
      if ch a CR then
        if first_is (fun c => ch c LF) r
        then Some (String CR (String LF EmptyString))
        else Some (String CR EmptyString)
      else if ch a LF then Some NL
      else None
  | EmptyString => None
  end.

(** [s.replace(/^\n+/, '')] and [s.replace(/\n+$/, '')] *)
Fixpoint strip_leading_nls (s : string) : string :=
  match s with
  | String c s' => if ch c LF then strip_leading_nls s' else s
  | EmptyString => s
  end.

Fixpoint strip_trailing_nls (s : string) : string :=
  match s with
  | EmptyString => EmptyString
  | String c s' =>
      let r := strip_trailing_nls s' in
      match r with
      | EmptyString => if ch c LF then EmptyString else String c EmptyString
      | _ => String c r
      end
  end.

End JS.

(** ** Tokens, round-trip data and the serializer state *)

(** An attribute [{k, v}] of a token. *)
Record KV := mkKV { kv_k : string; kv_v : string }.

#[global] Instance KV_eq_dec : EqDecision KV.
Proof. solve_decision. Defined.

(** [dsr]: start offset, end offset, width of the opening and of the
    closing tag; an entry is a number or [null]. *)
Record DSR := mkDSR {
  dsr0 : option Z; dsr1 : option Z; dsr2 : option Z; dsr3 : option Z
}.

#[global] Instance DSR_eq_dec : EqDecision DSR.
Proof. solve_decision. Defined.

(** The [data-parsoid] record ([dataAttribs] of a token, [data.parsoid]
    of a node).  An absent string field is [None]; a flag is its
    truthiness. *)
Record DataAttribs := mkDA {
  da_src : option string;
  da_dsr : option DSR;
  da_stx : option string;
  da_stx_v : option string;
  da_startTagSrc : option string;
  da_endTagSrc : option string;
  da_attrSepSrc : option string;
  da_autoInsertedStart : bool;
  da_autoInsertedEnd : bool;
  da_selfClose : bool;
  da_noClose : bool;
  da_strippedNL : option string;
  da_extra_dashes : option Z;
  da_lineContent : bool;
  da_magicSrc : option string;
  da_srcTagName : option string;
  da_a : option (list (string * string));
  da_sa : option (list (string * string));
  da_tail : option string;
  da_prefix : option string;
  da_pipetrick : bool;
  da_optionList : option (list (string * option string));
  da_optNames : option (list (string * string));
  da_srcContent : option string
}.

#[global] Instance DataAttribs_eq_dec : EqDecision DataAttribs.
Proof. solve_decision. Defined.

(** [{}] *)
Definition emptyDA : DataAttribs :=
  mkDA None None None None None None None false false false false None None
       false None None None None None None false None None None.

Inductive Token :=
| TagTk (name : string) (attribs : list KV) (dataAttribs : DataAttribs)
| EndTagTk (name : string) (attribs : list KV) (dataAttribs : DataAttribs)
| SelfclosingTagTk (name : string) (attribs : list KV)
    (dataAttribs : DataAttribs)
| Str (text : string)
| CommentTk (value : string)
| NlTk
| EOFTk.

#[global] Instance Token_eq_dec : EqDecision Token.
Proof. solve_decision. Defined.

Inductive Ctor := CTagTk | CEndTagTk | CSelfclosingTagTk | CString
  | CCommentTk | CNlTk | CEOFTk.

#[global] Instance Ctor_eq_dec : EqDecision Ctor.
Proof. solve_decision. Defined.

Definition constructor (t : Token) : Ctor :=
  match t with
  | TagTk _ _ _ => CTagTk
  | EndTagTk _ _ _ => CEndTagTk
  | SelfclosingTagTk _ _ _ => CSelfclosingTagTk
  | Str _ => CString
  | CommentTk _ => CCommentTk
  | NlTk => CNlTk
  | EOFTk => CEOFTk
  end.

(** [t.name]; [None] is [undefined]. *)
Definition name (t : Token) : option string :=
  match t with
  | TagTk n _ _ | EndTagTk n _ _ | SelfclosingTagTk n _ _ => Some n
  | _ => None
  end.

Definition attribs (t : Token) : list KV :=
  match t with
  | TagTk _ a _ | EndTagTk _ a _ | SelfclosingTagTk _ a _ => a
  | _ => []
  end.

Definition dataAttribs (t : Token) : DataAttribs :=
  match t with
  | TagTk _ _ d | EndTagTk _ _ d | SelfclosingTagTk _ _ d => d
  | _ => emptyDA
  end.

(** The escape handlers that can sit on [wteHandlerStack]. *)
Inductive WteHandler :=
| WteHeading | WteLi | WteLink | WteQuote | WteTh | WteWikilink | WteA
| WteTd.

#[global] Instance WteHandler_eq_dec : EqDecision WteHandler.
Proof. solve_decision. Defined.

(** A frame of [listStack]. *)
Record ListCtx := mkListCtx {
  itemCount : Z;
  bullets : string;
  itemBullet : string
}.

(** A frame of [tableStack], as [table.start] pushes it. *)
Record TableCtx := mkTableCtx {
  tc_listStack : list ListCtx;
  tc_singleLine : option Z
}.

Record CurrLine := mkCurrLine {
  cl_text : option string;
  cl_numPieces : option Z;
  cl_processed : bool;
  cl_hasBracketPair : bool;
  cl_hasHeadingPair : bool
}.

(** [state.tplAttrs[about]] *)
Record TplAttrState := mkTplAttrState {
  kvs : gmap string string;
  ks : gmap string string;
  vs : gmap string string
}.

(** What [state.chunkCB] is bound to: the callback installed by
    [serializeDOM] and [serializeTokens], the collector of
    [serializeChildrenToString], or the wrapper that [_serializeDOM]
    puts around the current callback for a DOM-based handler. *)
Inductive ChunkCB :=
| TopCB
| CollectCB
| WrapCB (stateCB : ChunkCB).

(** A chunk handed to the caller with its serializeInfo. *)
Definition Chunk : Type := string * option string.

(** The serializer state.  [singleLineMode] is a number, or [None] once
    it has become [undefined] or [NaN]; [textHandler] tells whether the
    text transform of [pre] is installed; [meta_solTransparent] is the
    [solTransparent] slot of the shared [meta] start handler, which its
    [handle] writes in some branches only; [out] lists the chunks
    delivered so far and [bits] the chunks of the innermost collector. *)
Record State := mkState {
  tableStack : list TableCtx;
  listStack : list ListCtx;
  lastRes : string;
  onNewline : bool;
  onStartOfLine : bool;
  singleLineMode : option Z;
  wteHandlerStack : list (option WteHandler);
  tplAttrs : gmap string TplAttrState;
  bufferedSeparator : option string;
  separatorEmittedFromSrc : bool;
  currLine : CurrLine;
  selser_serializeInfo : option string;
  env_page_src : option string;
  prevToken : option Token;
  curToken : option Token;
  prevTagToken : option Token;
  currTagToken : option Token;
  textHandler : bool;
  inNoWiki : bool;
  inHTMLPre : bool;
  inIndentPre : bool;
  ignorePTag : bool;
  emitNewlineOnNextToken : bool;
  parentSTX : option string;
  activeTemplateId : option string;
  meta_solTransparent : bool;
  chunkCB : ChunkCB;
  bits : list string;
  out : list Chunk
}.

Definition set_tableStack (x : list TableCtx) (st : State) : State :=
  mkState x (listStack st) (lastRes st) (onNewline st) (onStartOfLine st) (singleLineMode st) (wteHandlerStack st) (tplAttrs st) (bufferedSeparator st) (separatorEmittedFromSrc st) (currLine st) (selser_serializeInfo st) (env_page_src st) (prevToken st) (curToken st) (prevTagToken st) (currTagToken st) (textHandler st) (inNoWiki st) (inHTMLPre st) (inIndentPre st) (ignorePTag st) (emitNewlineOnNextToken st) (parentSTX st) (activeTemplateId st) (meta_solTransparent st) (chunkCB st) (bits st) (out st).

Definition set_listStack (x : list ListCtx) (st : State) : State :=
  mkState (tableStack st) x (lastRes st) (onNewline st) (onStartOfLine st) (singleLineMode st) (wteHandlerStack st) (tplAttrs st) (bufferedSeparator st) (separatorEmittedFromSrc st) (currLine st) (selser_serializeInfo st) (env_page_src st) (prevToken st) (curToken st) (prevTagToken st) (currTagToken st) (textHandler st) (inNoWiki st) (inHTMLPre st) (inIndentPre st) (ignorePTag st) (emitNewlineOnNextToken st) (parentSTX st) (activeTemplateId st) (meta_solTransparent st) (chunkCB st) (bits st) (out st).

Definition set_lastRes (x : string) (st : State) : State :=
  mkState (tableStack st) (listStack st) x (onNewline st) (onStartOfLine st) (singleLineMode st) (wteHandlerStack st) (tplAttrs st) (bufferedSeparator st) (separatorEmittedFromSrc st) (currLine st) (selser_serializeInfo st) (env_page_src st) (prevToken st) (curToken st) (prevTagToken st) (currTagToken st) (textHandler st) (inNoWiki st) (inHTMLPre st) (inIndentPre st) (ignorePTag st) (emitNewlineOnNextToken st) (parentSTX st) (activeTemplateId st) (meta_solTransparent st) (chunkCB st) (bits st) (out st).

Definition set_onNewline (x : bool) (st : State) : State :=
  mkState (tableStack st) (listStack st) (lastRes st) x (onStartOfLine st) (singleLineMode st) (wteHandlerStack st) (tplAttrs st) (bufferedSeparator st) (separatorEmittedFromSrc st) (currLine st) (selser_serializeInfo st) (env_page_src st) (prevToken st) (curToken st) (prevTagToken st) (currTagToken st) (textHandler st) (inNoWiki st) (inHTMLPre st) (inIndentPre st) (ignorePTag st) (emitNewlineOnNextToken st) (parentSTX st) (activeTemplateId st) (meta_solTransparent st) (chunkCB st) (bits st) (out st).

Definition set_onStartOfLine (x : bool) (st : State) : State :=
  mkState (tableStack st) (listStack st) (lastRes st) (onNewline st) x (singleLineMode st) (wteHandlerStack st) (tplAttrs st) (bufferedSeparator st) (separatorEmittedFromSrc st) (currLine st) (selser_serializeInfo st) (env_page_src st) (prevToken st) (curToken st) (prevTagToken st) (currTagToken st) (textHandler st) (inNoWiki st) (inHTMLPre st) (inIndentPre st) (ignorePTag st) (emitNewlineOnNextToken st) (parentSTX st) (activeTemplateId st) (meta_solTransparent st) (chunkCB st) (bits st) (out st).

Definition set_singleLineMode (x : option Z) (st : State) : State :=
  mkState (tableStack st) (listStack st) (lastRes st) (onNewline st) (onStartOfLine st) x (wteHandlerStack st) (tplAttrs st) (bufferedSeparator st) (separatorEmittedFromSrc st) (currLine st) (selser_serializeInfo st) (env_page_src st) (prevToken st) (curToken st) (prevTagToken st) (currTagToken st) (textHandler st) (inNoWiki st) (inHTMLPre st) (inIndentPre st) (ignorePTag st) (emitNewlineOnNextToken st) (parentSTX st) (activeTemplateId st) (meta_solTransparent st) (chunkCB st) (bits st) (out st).

Definition set_wteHandlerStack (x : list (option WteHandler)) (st : State) : State :=
  mkState (tableStack st) (listStack st) (lastRes st) (onNewline st) (onStartOfLine st) (singleLineMode st) x (tplAttrs st) (bufferedSeparator st) (separatorEmittedFromSrc st) (currLine st) (selser_serializeInfo st) (env_page_src st) (prevToken st) (curToken st) (prevTagToken st) (currTagToken st) (textHandler st) (inNoWiki st) (inHTMLPre st) (inIndentPre st) (ignorePTag st) (emitNewlineOnNextToken st) (parentSTX st) (activeTemplateId st) (meta_solTransparent st) (chunkCB st) (bits st) (out st).

Definition set_tplAttrs (x : gmap string TplAttrState) (st : State) : State :=
  mkState (tableStack st) (listStack st) (lastRes st) (onNewline st) (onStartOfLine st) (singleLineMode st) (wteHandlerStack st) x (bufferedSeparator st) (separatorEmittedFromSrc st) (currLine st) (selser_serializeInfo st) (env_page_src st) (prevToken st) (curToken st) (prevTagToken st) (currTagToken st) (textHandler st) (inNoWiki st) (inHTMLPre st) (inIndentPre st) (ignorePTag st) (emitNewlineOnNextToken st) (parentSTX st) (activeTemplateId st) (meta_solTransparent st) (chunkCB st) (bits st) (out st).

Definition set_bufferedSeparator (x : option string) (st : State) : State :=
  mkState (tableStack st) (listStack st) (lastRes st) (onNewline st) (onStartOfLine st) (singleLineMode st) (wteHandlerStack st) (tplAttrs st) x (separatorEmittedFromSrc st) (currLine st) (selser_serializeInfo st) (env_page_src st) (prevToken st) (curToken st) (prevTagToken st) (currTagToken st) (textHandler st) (inNoWiki st) (inHTMLPre st) (inIndentPre st) (ignorePTag st) (emitNewlineOnNextToken st) (parentSTX st) (activeTemplateId st) (meta_solTransparent st) (chunkCB st) (bits st) (out st).

Definition set_separatorEmittedFromSrc (x : bool) (st : State) : State :=
  mkState (tableStack st) (listStack st) (lastRes st) (onNewline st) (onStartOfLine st) (singleLineMode st) (wteHandlerStack st) (tplAttrs st) (bufferedSeparator st) x (currLine st) (selser_serializeInfo st) (env_page_src st) (prevToken st) (curToken st) (prevTagToken st) (currTagToken st) (textHandler st) (inNoWiki st) (inHTMLPre st) (inIndentPre st) (ignorePTag st) (emitNewlineOnNextToken st) (parentSTX st) (activeTemplateId st) (meta_solTransparent st) (chunkCB st) (bits st) (out st).

Definition set_currLine (x : CurrLine) (st : State) : State :=
  mkState (tableStack st) (listStack st) (lastRes st) (onNewline st) (onStartOfLine st) (singleLineMode st) (wteHandlerStack st) (tplAttrs st) (bufferedSeparator st) (separatorEmittedFromSrc st) x (selser_serializeInfo st) (env_page_src st) (prevToken st) (curToken st) (prevTagToken st) (currTagToken st) (textHandler st) (inNoWiki st) (inHTMLPre st) (inIndentPre st) (ignorePTag st) (emitNewlineOnNextToken st) (parentSTX st) (activeTemplateId st) (meta_solTransparent st) (chunkCB st) (bits st) (out st).

Definition set_selser_serializeInfo (x : option string) (st : State) : State :=
  mkState (tableStack st) (listStack st) (lastRes st) (onNewline st) (onStartOfLine st) (singleLineMode st) (wteHandlerStack st) (tplAttrs st) (bufferedSeparator st) (separatorEmittedFromSrc st) (currLine st) x (env_page_src st) (prevToken st) (curToken st) (prevTagToken st) (currTagToken st) (textHandler st) (inNoWiki st) (inHTMLPre st) (inIndentPre st) (ignorePTag st) (emitNewlineOnNextToken st) (parentSTX st) (activeTemplateId st) (meta_solTransparent st) (chunkCB st) (bits st) (out st).

Definition set_env_page_src (x : option string) (st : State) : State :=
  mkState (tableStack st) (listStack st) (lastRes st) (onNewline st) (onStartOfLine st) (singleLineMode st) (wteHandlerStack st) (tplAttrs st) (bufferedSeparator st) (separatorEmittedFromSrc st) (currLine st) (selser_serializeInfo st) x (prevToken st) (curToken st) (prevTagToken st) (currTagToken st) (textHandler st) (inNoWiki st) (inHTMLPre st) (inIndentPre st) (ignorePTag st) (emitNewlineOnNextToken st) (parentSTX st) (activeTemplateId st) (meta_solTransparent st) (chunkCB st) (bits st) (out st).

Definition set_prevToken (x : option Token) (st : State) : State :=
  mkState (tableStack st) (listStack st) (lastRes st) (onNewline st) (onStartOfLine st) (singleLineMode st) (wteHandlerStack st) (tplAttrs st) (bufferedSeparator st) (separatorEmittedFromSrc st) (currLine st) (selser_serializeInfo st) (env_page_src st) x (curToken st) (prevTagToken st) (currTagToken st) (textHandler st) (inNoWiki st) (inHTMLPre st) (inIndentPre st) (ignorePTag st) (emitNewlineOnNextToken st) (parentSTX st) (activeTemplateId st) (meta_solTransparent st) (chunkCB st) (bits st) (out st).

Definition set_curToken (x : option Token) (st : State) : State :=
  mkState (tableStack st) (listStack st) (lastRes st) (onNewline st) (onStartOfLine st) (singleLineMode st) (wteHandlerStack st) (tplAttrs st) (bufferedSeparator st) (separatorEmittedFromSrc st) (currLine st) (selser_serializeInfo st) (env_page_src st) (prevToken st) x (prevTagToken st) (currTagToken st) (textHandler st) (inNoWiki st) (inHTMLPre st) (inIndentPre st) (ignorePTag st) (emitNewlineOnNextToken st) (parentSTX st) (activeTemplateId st) (meta_solTransparent st) (chunkCB st) (bits st) (out st).

Definition set_prevTagToken (x : option Token) (st : State) : State :=
  mkState (tableStack st) (listStack st) (lastRes st) (onNewline st) (onStartOfLine st) (singleLineMode st) (wteHandlerStack st) (tplAttrs st) (bufferedSeparator st) (separatorEmittedFromSrc st) (currLine st) (selser_serializeInfo st) (env_page_src st) (prevToken st) (curToken st) x (currTagToken st) (textHandler st) (inNoWiki st) (inHTMLPre st) (inIndentPre st) (ignorePTag st) (emitNewlineOnNextToken st) (parentSTX st) (activeTemplateId st) (meta_solTransparent st) (chunkCB st) (bits st) (out st).

Definition set_currTagToken (x : option Token) (st : State) : State :=
  mkState (tableStack st) (listStack st) (lastRes st) (onNewline st) (onStartOfLine st) (singleLineMode st) (wteHandlerStack st) (tplAttrs st) (bufferedSeparator st) (separatorEmittedFromSrc st) (currLine st) (selser_serializeInfo st) (env_page_src st) (prevToken st) (curToken st) (prevTagToken st) x (textHandler st) (inNoWiki st) (inHTMLPre st) (inIndentPre st) (ignorePTag st) (emitNewlineOnNextToken st) (parentSTX st) (activeTemplateId st) (meta_solTransparent st) (chunkCB st) (bits st) (out st).

Definition set_textHandler (x : bool) (st : State) : State :=
  mkState (tableStack st) (listStack st) (lastRes st) (onNewline st) (onStartOfLine st) (singleLineMode st) (wteHandlerStack st) (tplAttrs st) (bufferedSeparator st) (separatorEmittedFromSrc st) (currLine st) (selser_serializeInfo st) (env_page_src st) (prevToken st) (curToken st) (prevTagToken st) (currTagToken st) x (inNoWiki st) (inHTMLPre st) (inIndentPre st) (ignorePTag st) (emitNewlineOnNextToken st) (parentSTX st) (activeTemplateId st) (meta_solTransparent st) (chunkCB st) (bits st) (out st).

Definition set_inNoWiki (x : bool) (st : State) : State :=
  mkState (tableStack st) (listStack st) (lastRes st) (onNewline st) (onStartOfLine st) (singleLineMode st) (wteHandlerStack st) (tplAttrs st) (bufferedSeparator st) (separatorEmittedFromSrc st) (currLine st) (selser_serializeInfo st) (env_page_src st) (prevToken st) (curToken st) (prevTagToken st) (currTagToken st) (textHandler st) x (inHTMLPre st) (inIndentPre st) (ignorePTag st) (emitNewlineOnNextToken st) (parentSTX st) (activeTemplateId st) (meta_solTransparent st) (chunkCB st) (bits st) (out st).

Definition set_inHTMLPre (x : bool) (st : State) : State :=
  mkState (tableStack st) (listStack st) (lastRes st) (onNewline st) (onStartOfLine st) (singleLineMode st) (wteHandlerStack st) (tplAttrs st) (bufferedSeparator st) (separatorEmittedFromSrc st) (currLine st) (selser_serializeInfo st) (env_page_src st) (prevToken st) (curToken st) (prevTagToken st) (currTagToken st) (textHandler st) (inNoWiki st) x (inIndentPre st) (ignorePTag st) (emitNewlineOnNextToken st) (parentSTX st) (activeTemplateId st) (meta_solTransparent st) (chunkCB st) (bits st) (out st).

Definition set_inIndentPre (x : bool) (st : State) : State :=
  mkState (tableStack st) (listStack st) (lastRes st) (onNewline st) (onStartOfLine st) (singleLineMode st) (wteHandlerStack st) (tplAttrs st) (bufferedSeparator st) (separatorEmittedFromSrc st) (currLine st) (selser_serializeInfo st) (env_page_src st) (prevToken st) (curToken st) (prevTagToken st) (currTagToken st) (textHandler st) (inNoWiki st) (inHTMLPre st) x (ignorePTag st) (emitNewlineOnNextToken st) (parentSTX st) (activeTemplateId st) (meta_solTransparent st) (chunkCB st) (bits st) (out st).

Definition set_ignorePTag (x : bool) (st : State) : State :=
  mkState (tableStack st) (listStack st) (lastRes st) (onNewline st) (onStartOfLine st) (singleLineMode st) (wteHandlerStack st) (tplAttrs st) (bufferedSeparator st) (separatorEmittedFromSrc st) (currLine st) (selser_serializeInfo st) (env_page_src st) (prevToken st) (curToken st) (prevTagToken st) (currTagToken st) (textHandler st) (inNoWiki st) (inHTMLPre st) (inIndentPre st) x (emitNewlineOnNextToken st) (parentSTX st) (activeTemplateId st) (meta_solTransparent st) (chunkCB st) (bits st) (out st).

Definition set_emitNewlineOnNextToken (x : bool) (st : State) : State :=
  mkState (tableStack st) (listStack st) (lastRes st) (onNewline st) (onStartOfLine st) (singleLineMode st) (wteHandlerStack st) (tplAttrs st) (bufferedSeparator st) (separatorEmittedFromSrc st) (currLine st) (selser_serializeInfo st) (env_page_src st) (prevToken st) (curToken st) (prevTagToken st) (currTagToken st) (textHandler st) (inNoWiki st) (inHTMLPre st) (inIndentPre st) (ignorePTag st) x (parentSTX st) (activeTemplateId st) (meta_solTransparent st) (chunkCB st) (bits st) (out st).

Definition set_parentSTX (x : option string) (st : State) : State :=
  mkState (tableStack st) (listStack st) (lastRes st) (onNewline st) (onStartOfLine st) (singleLineMode st) (wteHandlerStack st) (tplAttrs st) (bufferedSeparator st) (separatorEmittedFromSrc st) (currLine st) (selser_serializeInfo st) (env_page_src st) (prevToken st) (curToken st) (prevTagToken st) (currTagToken st) (textHandler st) (inNoWiki st) (inHTMLPre st) (inIndentPre st) (ignorePTag st) (emitNewlineOnNextToken st) x (activeTemplateId st) (meta_solTransparent st) (chunkCB st) (bits st) (out st).

Definition set_activeTemplateId (x : option string) (st : State) : State :=
  mkState (tableStack st) (listStack st) (lastRes st) (onNewline st) (onStartOfLine st) (singleLineMode st) (wteHandlerStack st) (tplAttrs st) (bufferedSeparator st) (separatorEmittedFromSrc st) (currLine st) (selser_serializeInfo st) (env_page_src st) (prevToken st) (curToken st) (prevTagToken st) (currTagToken st) (textHandler st) (inNoWiki st) (inHTMLPre st) (inIndentPre st) (ignorePTag st) (emitNewlineOnNextToken st) (parentSTX st) x (meta_solTransparent st) (chunkCB st) (bits st) (out st).

Definition set_meta_solTransparent (x : bool) (st : State) : State :=
  mkState (tableStack st) (listStack st) (lastRes st) (onNewline st) (onStartOfLine st) (singleLineMode st) (wteHandlerStack st) (tplAttrs st) (bufferedSeparator st) (separatorEmittedFromSrc st) (currLine st) (selser_serializeInfo st) (env_page_src st) (prevToken st) (curToken st) (prevTagToken st) (currTagToken st) (textHandler st) (inNoWiki st) (inHTMLPre st) (inIndentPre st) (ignorePTag st) (emitNewlineOnNextToken st) (parentSTX st) (activeTemplateId st) x (chunkCB st) (bits st) (out st).

Definition set_chunkCB (x : ChunkCB) (st : State) : State :=
  mkState (tableStack st) (listStack st) (lastRes st) (onNewline st) (onStartOfLine st) (singleLineMode st) (wteHandlerStack st) (tplAttrs st) (bufferedSeparator st) (separatorEmittedFromSrc st) (currLine st) (selser_serializeInfo st) (env_page_src st) (prevToken st) (curToken st) (prevTagToken st) (currTagToken st) (textHandler st) (inNoWiki st) (inHTMLPre st) (inIndentPre st) (ignorePTag st) (emitNewlineOnNextToken st) (parentSTX st) (activeTemplateId st) (meta_solTransparent st) x (bits st) (out st).

Definition set_bits (x : list string) (st : State) : State :=
  mkState (tableStack st) (listStack st) (lastRes st) (onNewline st) (onStartOfLine st) (singleLineMode st) (wteHandlerStack st) (tplAttrs st) (bufferedSeparator st) (separatorEmittedFromSrc st) (currLine st) (selser_serializeInfo st) (env_page_src st) (prevToken st) (curToken st) (prevTagToken st) (currTagToken st) (textHandler st) (inNoWiki st) (inHTMLPre st) (inIndentPre st) (ignorePTag st) (emitNewlineOnNextToken st) (parentSTX st) (activeTemplateId st) (meta_solTransparent st) (chunkCB st) x (out st).

Definition set_out (x : list Chunk) (st : State) : State :=
  mkState (tableStack st) (listStack st) (lastRes st) (onNewline st) (onStartOfLine st) (singleLineMode st) (wteHandlerStack st) (tplAttrs st) (bufferedSeparator st) (separatorEmittedFromSrc st) (currLine st) (selser_serializeInfo st) (env_page_src st) (prevToken st) (curToken st) (prevTagToken st) (currTagToken st) (textHandler st) (inNoWiki st) (inHTMLPre st) (inIndentPre st) (ignorePTag st) (emitNewlineOnNextToken st) (parentSTX st) (activeTemplateId st) (meta_solTransparent st) (chunkCB st) (bits st) x.

(** ** The DOM

    Nodes live in a store and are referred to by their index in it, so
    that two references to one node see each other's writes.  A node is
    never removed from the store: [removeChild] only unlinks it. *)

Inductive NodeType := ELEMENT_NODE | TEXT_NODE | COMMENT_NODE.

#[global] Instance NodeType_eq_dec : EqDecision NodeType.
Proof. solve_decision. Defined.

(** A DOM node.  [rt_attr] is the [data-parsoid] attribute, JSON-decoded
    ([None] when the node has none); [attributes] are the other
    attributes in order; [data] is the character data of a text or
    comment node; [data_parsoid] is the object [node.data.parsoid],
    [None] until it is loaded. *)
Record Node := mkNode {
  nodeType : NodeType;
  nodeName : string;
  attributes : list (string * string);
  rt_attr : option DataAttribs;
  data : string;
  parentNode : option nat;
  childNodes : list nat;
  data_parsoid : option DataAttribs
}.

Definition Store : Type := list Node.

Definition set_attributes (x : list (string * string)) (n : Node) : Node :=
  mkNode (nodeType n) (nodeName n) x (rt_attr n) (data n) (parentNode n)
         (childNodes n) (data_parsoid n).
Definition set_data (x : string) (n : Node) : Node :=
  mkNode (nodeType n) (nodeName n) (attributes n) (rt_attr n) x (parentNode n)
         (childNodes n) (data_parsoid n).
Definition set_parentNode (x : option nat) (n : Node) : Node :=
  mkNode (nodeType n) (nodeName n) (attributes n) (rt_attr n) (data n) x
         (childNodes n) (data_parsoid n).
Definition set_childNodes (x : list nat) (n : Node) : Node :=
  mkNode (nodeType n) (nodeName n) (attributes n) (rt_attr n) (data n)
         (parentNode n) x (data_parsoid n).
Definition set_data_parsoid (x : option DataAttribs) (n : Node) : Node :=
  mkNode (nodeType n) (nodeName n) (attributes n) (rt_attr n) (data n)
         (parentNode n) (childNodes n) x.

(** The outcome of a computation that may throw, and whose model may
    run out of fuel. *)
Inductive Res (A : Type) : Type :=
| Ok (a : A)
| Throw
| NoFuel.

Arguments Ok {A} a.
Arguments Throw {A}.
Arguments NoFuel {A}.

Module DOM.

(** [store[n] = f(store[n])] *)
Definition update (n : nat) (f : Node -> Node) (s : Store) : Store :=
  match s !! n with
  | Some node => <[n := f node]> s
  | None => s
  end.

Definition firstChild (s : Store) (n : nat) : option nat :=
  node ← s !! n; head (childNodes node).

Definition lastChild (s : Store) (n : nat) : option nat :=
  node ← s !! n; last (childNodes node).

(** The element after [c] in a list of children. *)
Fixpoint after (c : nat) (l : list nat) : option nat :=
  match l with
  | [] => None
  | x :: r => if bool_decide (x = c) then head r else after c r
  end.

(** The element before [c] in a list of children. *)
Fixpoint before (c : nat) (l : list nat) : option nat :=
  match l with
  | x :: ((y :: _) as r) => if bool_decide (y = c) then Some x else before c r
  | _ => None
  end.

Definition nextSibling (s : Store) (n : nat) : option nat :=
  node ← s !! n; p ← parentNode node; pn ← s !! p; after n (childNodes pn).

Definition previousSibling (s : Store) (n : nat) : option nat :=
  node ← s !! n; p ← parentNode node; pn ← s !! p; before n (childNodes pn).

Definition getAttribute (s : Store) (n : nat) (key : string)
    : option string :=
  node ← s !! n;
  snd <$> List.find (fun a => bool_decide (a.1 = key)) (attributes node).

Fixpoint put_attr (key value : string) (l : list (string * string))
    : list (string * string) :=
  match l with
  | [] => [(key, value)]
  | a :: r =>
      if bool_decide (a.1 = key) then (key, value) :: r
      else a :: put_attr key value r
  end.

Definition setAttribute (n : nat) (key value : string) (s : Store) : Store :=
  update n (fun node => set_attributes (put_attr key value (attributes node)) node) s.

(** [parent.removeChild(child)]; [None] is the NotFoundError raised
    when [child] is not a child of [parent]. *)
Definition removeChild (parent child : nat) (s : Store) : option Store :=
  c ← s !! child;
  if bool_decide (parentNode c = Some parent) then
    let s :=
      update parent
        (fun p => set_childNodes
                    (filter (fun x => x ≠ child) (childNodes p)) p) s in
    Some (update child (set_parentNode None) s)
  else None.

(** [l] with [x] put before [ref], or at the end. *)
Fixpoint insert_before (x : nat) (ref : option nat) (l : list nat)
    : list nat :=
  match l with
  | [] => [x]
  | y :: r =>
      if bool_decide (ref = Some y) then x :: y :: r
      else y :: insert_before x ref r
  end.

(** [parent.insertBefore(node, ref)]: a [ref] that is not a child of
    [parent] raises; a [ref] that is [node] itself stands for its next
    sibling; [node] leaves its old parent first. *)
Definition insertBefore (parent node : nat) (ref : option nat) (s : Store)
    : option Store :=
  p ← s !! parent;
  nd ← s !! node;
  if match ref with
     | Some r => bool_decide (r ∈ childNodes p)
     | None => true
     end
  then
    let ref := if bool_decide (ref = Some node) then nextSibling s node
               else ref in
    let s :=
      match parentNode nd with
      | Some old =>
          update old
            (fun o => set_childNodes
                        (filter (fun x => x ≠ node) (childNodes o)) o) s
      | None => s
      end in
    let s :=
      update parent
        (fun p => set_childNodes (insert_before node ref (childNodes p)) p) s in
    Some (update node (set_parentNode (Some parent)) s)
  else None.

(** [document.createElement(name)], [document.createTextNode(text)]:
    the new node is the last of the store. *)
Definition createElement (name : string) (s : Store) : Store * nat :=
  (s ++ [mkNode ELEMENT_NODE name [] None "" None [] None], length s).

Definition createTextNode (text : string) (s : Store) : Store * nat :=
  (s ++ [mkNode TEXT_NODE "#text" [] None text None [] None], length s).

(** [node.cloneNode(true)]: the copy and the copies of its descendants
    are new nodes; attributes and character data are copied, the
    [node.data] object is not.  The recursion follows the store; it
    stops when [fuel] runs out. *)
Fixpoint cloneNode (fuel : nat) (n : nat) (s : Store) : Res (Store * nat) :=
  match fuel with
  | O => NoFuel
  | S fuel =>
      match s !! n with
      | None => Throw
      | Some node =>
          let id := length s in
          let s :=
            s ++ [mkNode (nodeType node) (nodeName node) (attributes node)
                         (rt_attr node) (data node) None [] None] in
          match
            (fix go (cs : list nat) (s : Store) (acc : list nat)
               : Res (Store * list nat) :=
               match cs with
               | [] => Ok (s, acc)
               | c :: cs =>
                   match cloneNode fuel c s with
                   | Ok (s, c') =>
                       go cs (update c' (set_parentNode (Some id)) s)
                          (acc ++ [c'])
                   | Throw => Throw
                   | NoFuel => NoFuel
                   end
               end) (childNodes node) s []
          with
          | Ok (s, kids) => Ok (update id (set_childNodes kids) s, id)
          | Throw => Throw
          | NoFuel => NoFuel
          end
      end
  end.

End DOM.

(** What [getAttributeShadowInfo] returns. *)
Record ShadowInfo := mkShadowInfo {
  si_value : option string;
  si_modified : bool;
  si_fromsrc : bool;
  si_string : option string
}.

(** ** Collaborators outside the source tree

    [Util], [DOMUtils], the token classes of [mediawiki.parser.defines.js],
    the PEG tokenizer and the constant tables are required by the
    serializer but are not part of the source tree.  What the serializer
    calls from them is collected here; every definition and theorem
    below holds for any implementation. *)
Class Lib := {
  (** [Util.escapeEntities] *)
  escapeEntities : string -> string;
  (** [Util.isVoidElement], [Util.isBlockTag] *)
  isVoidElement : string -> bool;
  isBlockTag : string -> bool;
  (** [Util.KVtoHash(attribs)[key]] *)
  KVtoHash : list KV -> string -> option string;
  (** [Util.lookup(attribs, key)], also behind [token.getAttribute] *)
  Util_lookup : list KV -> string -> option string;
  (** [Util.lookupKV(attribs, key)] finds an entry *)
  lookupKV : list KV -> string -> bool;
  (** [token.getAttributeShadowInfo(k).value] *)
  getAttributeShadowInfo : Token -> string -> string;
  (** [new PegTokenizer(env)] run by [processSync] on a text: the tokens
      of its chunks *)
  processSync : string -> list Token;
  (** [urlParser.tokenizeURL(href)] returned a truthy value *)
  tokenizeURL : option string -> bool;
  (** [WikitextConstants.Sanitizer.TagWhiteList] as a hash,
      [SanitizerConstants.noEndTagHash] *)
  tagWhiteList : string -> bool;
  noEndTagHash : string -> bool;
  (** [String.prototype.toLowerCase] *)
  toLowerCase : string -> string;
  (** [DOMUtils]: the tests [isElt], [hasNodeName], [isNodeOfType],
      [hasElementChild], [isBlockNode], [isMarkerMeta] on a node of a
      store *)
  isElt : Store -> nat -> bool;
  hasNodeName : Store -> nat -> string -> bool;
  isNodeOfType : Store -> nat -> string -> string -> bool;
  hasElementChild : Store -> nat -> bool;
  isBlockNode : Store -> nat -> bool;
  isMarkerMeta : Store -> nat -> string -> bool;
  (** [DU.loadDataParsoid(node)] followed by
      [DU.loadDataAttrib(node, 'parsoid-serialize', null)]: they write
      [node.data] only; this is [node.data.parsoid] once they are done *)
  loadDataParsoid : Node -> option DataAttribs;
  (** [node.data['parsoid-serialize']] of a loaded node *)
  parsoidSerialize : Node -> option string;
  (** [DU.dataParsoid(node)] *)
  dataParsoid : Node -> DataAttribs;
  (** [DU.getAttributeKVArray(node)] *)
  getAttributeKVArray : Node -> list KV;
  (** [DU.getAttributeShadowInfo(node, name, tplAttrs)] *)
  nodeShadowInfo : Node -> string -> gmap string TplAttrState -> ShadowInfo;
  (** [env.normalizeTitle(s, noUnderscores)] *)
  normalizeTitle : string -> bool -> string;
  (** [Util.decodeURI], [encodeURI], [Util.stripPipeTrickChars],
      [Util.stripSuffix], [Util.tokensToString] *)
  decodeURI : string -> string;
  encodeURI : string -> string;
  stripPipeTrickChars : string -> string;
  stripSuffix : string -> string -> string;
  tokensToString : string -> string;
  (** [WikitextConstants.Image.SimpleOptions[key]],
      [WikitextConstants.Image.PrefixOptionsReverseMap[key]],
      [env.conf.wiki.replaceInterpolatedMagicWord(word, value)] *)
  simpleImgOptions : string -> option string;
  prefixImgOptionsRM : string -> option string;
  replaceInterpolatedMagicWord : option string -> option string -> string
}.

(** Modelled from the spec: [token.isHTMLTag()] of the token classes,
    which are not in the source tree.  The spec (4.8) has
    [dataAttribs.stx === "html"] force the default HTML handler. *)
Definition isHTMLTag (t : Token) : bool :=
  bool_decide (da_stx (dataAttribs t) = Some "html").

Definition getAttribute `{Lib} (t : Token) (key : string) : option string :=
  Util_lookup (attribs t) key.

Definition str_eq (a : option string) (b : string) : bool :=
  bool_decide (a = Some b).

Definition name_is (t : Token) (n : string) : bool := str_eq (name t) n.

Definition is_ctor (t : Token) (c : Ctor) : bool :=
  bool_decide (constructor t = c).

(** [a.last()], [a.pop()], [a.push(x)] on arrays used as stacks. *)
Definition pop {A} (l : list A) : list A := removelast l.
Definition push {A} (x : A) (l : list A) : list A := l ++ [x].

Inductive SepType := START_SEP | IE_SEP | END_SEP.

#[global] Instance SepType_eq_dec : EqDecision SepType.
Proof. solve_decision. Defined.

Definition isHtmlBlockTag `{Lib} (n : string) : bool :=
  bool_decide (n = "body") || isBlockTag n.

Definition isTd (token : option Token) : bool :=
  match token with
  | Some t => is_ctor t CTagTk && name_is t "td"
  | None => false
  end.

Definition isListItem (token : option Token) : bool :=
  match token with
  | Some t =>
      is_ctor t CTagTk &&
      (name_is t "li" || name_is t "dt" || name_is t "dd")
  | None => false
  end.

(** ** The escape handlers ([WikitextEscapeHandlers.prototype]) *)

Module WEHP.
Section WEHP.
Context `{Lib}.

Definition headingHandler (state : State) (text : string) : bool * State :=
  let state := set_wteHandlerStack (push None (pop (wteHandlerStack state))) state in
  let line := cl_text (currLine state) in
  (match line with
   | Some l =>
       JS.truthy line && (2 <? Z.of_nat (String.length l))
       && JS.first_is (fun c => JS.ch c "=") l
       && JS.last_is (fun c => JS.ch c "=") l
   | None => false
   end, state).

Definition liHandler (state : State) (text : string) : bool * State :=
  let state := set_wteHandlerStack (push None (pop (wteHandlerStack state))) state in
  (isListItem (currTagToken state) && JS.first_is (JS.in_set "#*:;") text,
   state).

Definition linkHandler (state : State) (text : string) : bool :=
  JS.exists_char (fun c => JS.ch c "]") text || JS.bracket_pair text.

Definition quoteHandler (state : State) (text : string) : bool :=
  JS.first_is (fun c => JS.ch c "'") text
  || JS.last_is (fun c => JS.ch c "'") text.

Definition thHandler (state : State) (text : string) : bool :=
  JS.includes "!!" text.

Definition wikilinkHandler (state : State) (text : string) : bool :=
  JS.first_is (fun c => JS.ch c "|") text
  || JS.last_is (fun c => JS.ch c "]") text.

Definition aHandler (state : State) (text : string) : bool :=
  JS.last_is (fun c => JS.ch c "]") text.

Definition tdHandler (state : State) (text : string) : bool :=
  let tok := currTagToken state in
  JS.exists_char (fun c => JS.ch c "|") text
  || JS.first_is (JS.in_set "-+") text
     && isTd tok
     && match tok with
        | Some t =>
            match da_dsr (dataAttribs t) with
            | None => true
            | Some d => bool_decide (dsr2 d = Some 1)
            end
            && negb (str_eq (da_stx_v (dataAttribs t)) "row")
            && bool_decide (attribs t = [])
        | None => false
        end.

(** Calling the handler found on [wteHandlerStack]. *)
Definition call (h : WteHandler) (state : State) (text : string)
    : bool * State :=
  match h with
  | WteHeading => headingHandler state text
  | WteLi => liHandler state text
  | WteLink => (linkHandler state text, state)
  | WteQuote => (quoteHandler state text, state)
  | WteTh => (thHandler state text, state)
  | WteWikilink => (wikilinkHandler state text, state)
  | WteA => (aHandler state text, state)
  | WteTd => (tdHandler state text, state)
  end.

(** The scan of the token stream in [hasWikitextTokens]. *)
Fixpoint scanTokens (linksOnly : bool) (numEntities : Z)
    (tokens : list Token) : bool :=
  match tokens with
  | [] => false
  | t :: rest =>
      if isHTMLTag t && negb (tagWhiteList (toLowerCase (default "" (name t))))
      then scanTokens linksOnly numEntities rest
      else
        match constructor t with
        | CSelfclosingTagTk =>
            if name_is t "extlink" && negb (tokenizeURL (getAttribute t "href"))
            then scanTokens linksOnly numEntities rest
            else if name_is t "urllink"
            then scanTokens linksOnly numEntities rest
            else if negb linksOnly || name_is t "wikilink" then true
            else scanTokens linksOnly numEntities rest
        | CTagTk =>
            if linksOnly then scanTokens linksOnly numEntities rest
            else if name_is t "span"
                    && str_eq (getAttribute t "typeof") "mw:Entity"
            then scanTokens linksOnly (numEntities + 1) rest
            else true
        | CEndTagTk =>
            if linksOnly then scanTokens linksOnly numEntities rest
            else if (0 <? numEntities) && name_is t "span"
            then scanTokens linksOnly (numEntities - 1) rest
            else if noEndTagHash (toLowerCase (default "" (name t)))
            then scanTokens linksOnly numEntities rest
            else true
        | _ => scanTokens linksOnly numEntities rest
        end
  end.

Definition hasWikitextTokens (state : State) (onNewline : bool)
    (text : string) (linksOnly : bool) : bool :=
  let prefixedText := if onNewline then text else "_" +:+ text in
  let prefixedText :=
    if inIndentPre state
    then JS.replace_char JS.LF (JS.NL +:+ "_") prefixedText
    else prefixedText in
  scanTokens linksOnly 0 (processSync prefixedText).

End WEHP.
End WEHP.

(** ** The serializer ([WikitextSerializer.prototype]) *)

(** The properties of a start or end handler that [_serializeToken]
    reads. *)
Record Flags := mkFlags {
  ignore : bool;
  startsLine : bool;
  endsLine : bool;
  emitsNL : bool;
  solTransparent : bool;
  isTemplateSrc : bool;
  singleLine : Z
}.

(** [{}] *)
Definition noFlags : Flags := mkFlags false false false false false false 0.

Definition set_startsLine (b : bool) (f : Flags) : Flags :=
  mkFlags (ignore f) b (endsLine f) (emitsNL f) (solTransparent f)
          (isTemplateSrc f) (singleLine f).
Definition set_endsLine (b : bool) (f : Flags) : Flags :=
  mkFlags (ignore f) (startsLine f) b (emitsNL f) (solTransparent f)
          (isTemplateSrc f) (singleLine f).
Definition set_emitsNL (b : bool) (f : Flags) : Flags :=
  mkFlags (ignore f) (startsLine f) (endsLine f) b (solTransparent f)
          (isTemplateSrc f) (singleLine f).
Definition set_solTransparent (b : bool) (f : Flags) : Flags :=
  mkFlags (ignore f) (startsLine f) (endsLine f) (emitsNL f) b
          (isTemplateSrc f) (singleLine f).

(** What a call of [handle] leaves behind: the returned value (a string,
    or [None] for [undefined]), the state, and the handler object, whose
    properties the call may have rewritten through [this]. *)
Definition Handled : Type := option string * State * Flags.

(** A start or end handler: its properties and its [handle], if any.
    A [handle] that throws yields [None]. *)
Record Part := mkPart {
  flags : Flags;
  handle : option (Flags -> State -> Token -> option Handled)
}.

(** An entry of [tagHandlers]: [start], [end], [wtEscapeHandler], and
    [make], which returns the handler to use, [None] standing for the
    entry itself ([this]). *)
#[warnings="-register-all"]
Inductive TagHandler :=
  mkTagHandler (start end_ : option Part) (wtEscapeHandler : option WteHandler)
    (make : option (State -> Token -> option (option TagHandler * State))).

Definition start (h : TagHandler) : option Part :=
  match h with mkTagHandler s _ _ _ => s end.
Definition end_ (h : TagHandler) : option Part :=
  match h with mkTagHandler _ e _ _ => e end.
Definition wtEscapeHandler (h : TagHandler) : option WteHandler :=
  match h with mkTagHandler _ _ w _ => w end.
Definition make (h : TagHandler)
    : option (State -> Token -> option (option TagHandler * State)) :=
  match h with mkTagHandler _ _ _ m => m end.

(** ** Computations on the DOM and the serializer state

    The DOM-based part of the serializer reads and writes the store and
    the state, may throw, and recurses along the tree: the recursion of
    the model is bounded by a fuel. *)

Record World := mkWorld { dom : Store; ser : State }.

Definition M (A : Type) : Type := World -> Res A * World.

Definition ret {A} (a : A) : M A := fun w => (Ok a, w).

Definition bind {A B} (m : M A) (k : A -> M B) : M B :=
  fun w =>
    match m w with
    | (Ok a, w') => k a w'
    | (Throw, w') => (Throw, w')
    | (NoFuel, w') => (NoFuel, w')
    end.

#[global] Instance M_ret : MRet M := @ret.
#[global] Instance M_bind : MBind M := fun A B k m => bind m k.

Definition throw {A} : M A := fun w => (Throw, w).
Definition nofuel {A} : M A := fun w => (NoFuel, w).

Definition getDom : M Store := fun w => (Ok (dom w), w).
Definition getSer : M State := fun w => (Ok (ser w), w).
Definition modifyDom (f : Store -> Store) : M unit :=
  fun w => (Ok tt, mkWorld (f (dom w)) (ser w)).
Definition modifySer (f : State -> State) : M unit :=
  fun w => (Ok tt, mkWorld (dom w) (f (ser w))).

(** A value that may be missing: reading a property off it throws. *)
Definition liftO {A} (o : option A) : M A :=
  match o with Some a => ret a | None => throw end.

(** A step of the token serializer. *)
Definition liftS (f : State -> option State) : M unit :=
  fun w =>
    match f (ser w) with
    | Some st => (Ok tt, mkWorld (dom w) st)
    | None => (Throw, w)
    end.

(** A DOM operation that may raise. *)
Definition liftD (f : Store -> option Store) : M unit :=
  fun w =>
    match f (dom w) with
    | Some s => (Ok tt, mkWorld s (ser w))
    | None => (Throw, w)
    end.

Definition node_of (n : nat) : M Node := s ← getDom; liftO (s !! n).

(** [for (i = from; i < from + count; i++) body(i)] *)
Fixpoint for_range (from count : nat) (body : nat -> M unit) : M unit :=
  match count with
  | O => ret tt
  | S count => _ ← body from; for_range (S from) count body
  end.

Module WSP.
Section WSP.
Context `{Lib}.

Definition initialState : State :=
  mkState [] [] "" true true (Some 0) [] ∅ None false
          (mkCurrLine None None false false false)
          None None None None None None false false false false false false
          None None false TopCB [] [].

Definition truthyZ (z : option Z) : bool :=
  match z with Some n => negb (n =? 0) | None => false end.

Definition join (sep : string) (l : list string) : string :=
  match l with
  | [] => ""
  | x :: r => fold_left (fun acc y => acc +:+ sep +:+ y) r x
  end.

(** Calling a chunk callback. *)
Fixpoint callCB (cb : ChunkCB) (chunk : string) (serializeInfo : option string)
    (state : State) : State :=
  match cb with
  | TopCB =>
      let state :=
        set_lastRes (JS.substr_last 100 (lastRes state +:+ chunk)) state in
      set_out (out state ++
                 [(chunk, if JS.truthy serializeInfo then serializeInfo
                          else selser_serializeInfo state)]) state
  | CollectCB => set_bits (bits state ++ [chunk]) state
  | WrapCB stateCB =>
      let state :=
        if JS.truthy (Some chunk)
        then set_onStartOfLine (JS.ends_nl chunk) state
        else state in
      callCB stateCB chunk serializeInfo state
  end.

(** [state.chunkCB(chunk, serializeInfo)] *)
Definition call_chunkCB (chunk : string) (serializeInfo : option string)
    (state : State) : State :=
  callCB (chunkCB state) chunk serializeInfo state.

Definition emitSepChunk (separator : string) (state : State) : State :=
  let state :=
    if JS.ends_nl separator then set_onNewline true state else state in
  let state :=
    if JS.has_nl separator then set_onStartOfLine true state else state in
  let state := call_chunkCB separator (Some "separator") state in
  set_bufferedSeparator None state.

Definition dsr_at (d : DSR) (i : nat) : option Z :=
  match i with
  | 0%nat => dsr0 d
  | 1%nat => dsr1 d
  | 2%nat => dsr2 d
  | _ => dsr3 d
  end.

(** A [dsr] entry in arithmetic: [null] counts as 0. *)
Definition num (z : option Z) : Z := default 0 z.

(** [emitSeparator(n1, n2, sepType)]; [dp1] and [dp2] are
    [DU.dataParsoid(n1)] and [DU.dataParsoid(n2)]. *)
Definition emitSeparator (dp1 dp2 : DataAttribs) (sepType : SepType)
    (state : State) : State :=
  match env_page_src state with
  | Some (String _ _ as src) =>
      let '(dsrIndex1, dsrIndex2) :=
        match sepType with
        | START_SEP => (0%nat, 0%nat)
        | IE_SEP => (1%nat, 0%nat)
        | END_SEP => (1%nat, 1%nat)
        end in
      match da_dsr dp1 with
      | None => state
      | Some d1 =>
          match dsr_at d1 dsrIndex1 with
          | None => state
          | Some a =>
              match da_dsr dp2 with
              | None => state
              | Some d2 =>
                  match dsr_at d2 dsrIndex2 with
                  | None => state
                  | Some b =>
                      let i1 :=
                        a + (if bool_decide (sepType = START_SEP)
                             then num (dsr2 d1) else 0) in
                      let i2 :=
                        b - (if bool_decide (sepType = END_SEP)
                             then num (dsr3 d2) else 0) in
                      let separator := JS.substring src i1 i2 in
                      if JS.is_separator separator
                      then set_separatorEmittedFromSrc true
                             (emitSepChunk separator state)
                      else state
                  end
              end
          end
      end
  | _ => state
  end.

Definition openHeading (v : string)
    : Flags -> State -> Token -> option Handled :=
  fun this state token => Some (Some v, state, this).

Definition closeHeading (v : string)
    : Flags -> State -> Token -> option Handled :=
  fun this state token =>
    prevToken ← prevToken state;
    if is_ctor prevToken CTagTk
       && bool_decide (name prevToken = name token)
    then Some (Some ("<nowiki></nowiki>" +:+ v), state, this)
    else Some (Some v, state, this).

Definition isMultilineListItem (token : option Token) : bool :=
  isListItem token
  && match token with
     | Some t => negb (str_eq (da_stx (dataAttribs t)) "row")
     | None => false
     end.

(** [escapedText]: [None] when the pattern does not match, where the
    source dereferences [null]. *)
Definition escapedText (text : string) : option string :=
  let (body, nls) := JS.split_trailing text in
  if JS.crlf_run nls
  then Some ("<nowiki>" +:+ body +:+ "</nowiki>" +:+ nls)
  else None.

Definition escapeWikiText (state : State) (text : string)
    : option (string * State) :=
  let fullCheckNeeded := JS.urlTriggers text in
  if negb fullCheckNeeded && negb (JS.wt_special text) then Some (text, state)
  else
    let '(hit, state) :=
      match last (wteHandlerStack state) with
      | Some (Some wteHandler) => WEHP.call wteHandler state text
      | _ => (false, state)
      end in
    if hit then r ← escapedText text; Some (r, state)
    else if JS.has_braces text then r ← escapedText text; Some (r, state)
    else
      let sol := onStartOfLine state || emitNewlineOnNextToken state in
      let hasNewlines := JS.nl_dot text in
      let hasTildes := JS.has_tildes text in
      if negb fullCheckNeeded && negb hasNewlines && negb hasTildes
         && (negb sol && negb (JS.nonsol_special text)
             || sol && negb (JS.sol_special text))
      then Some (text, state)
      else if sol && JS.sol_space text
      then r ← escapedText text; Some (r, state)
      else
        let text := JS.replace_nowiki text in
        if WEHP.hasWikitextTokens state sol text false || hasTildes
        then r ← escapedText text; Some (r, state)
        else if match cl_numPieces (currLine state) with
                | Some n => 1 <? n
                | None => false
                end
        then
          let cl := currLine state in
          cl ← (if cl_processed cl then Some cl
                else
                  t ← cl_text cl;
                  Some (mkCurrLine (cl_text cl) (cl_numPieces cl) true
                          (if WEHP.hasWikitextTokens state sol t true
                           then true else cl_hasBracketPair cl)
                          (JS.heading_pair t)));
          let state := set_currLine cl state in
          if cl_hasHeadingPair cl && JS.first_is (fun c => JS.ch c "=") text
             || cl_hasBracketPair cl && JS.close_bracket text
          then r ← escapedText text; Some (r, state)
          else Some (text, state)
        else Some (text, state).

(** The top frame of [listStack] rewritten in place. *)
Definition set_last {A} (x : A) (l : list A) : list A := push x (pop l).

Definition _listHandler (bullet : string)
    : Flags -> State -> Token -> option Handled :=
  fun handler state token =>
    let state :=
      if truthyZ (singleLineMode state)
      then set_singleLineMode (Z.pred <$> singleLineMode state) state
      else state in
    let stack := listStack state in
    let '(bullets, res, handler, stack) :=
      match last stack with
      | None => (bullet, bullet, set_startsLine true handler, stack)
      | Some curList =>
          let cumulative :=
            bullets curList +:+ itemBullet curList +:+ bullet in
          let curList :=
            mkListCtx (itemCount curList + 1) (bullets curList)
                      (itemBullet curList) in
          let stack := set_last curList stack in
          if (1 <? itemCount curList)
             && negb (isMultilineListItem (prevToken state))
          then (cumulative, cumulative, set_startsLine true handler, stack)
          else (cumulative, bullet, set_startsLine false handler, stack)
      end in
    let stack := push (mkListCtx 0 bullets "") stack in
    Some (Some res, set_listStack stack state, handler).

Definition _listEndHandler
    : Flags -> State -> Token -> option Handled :=
  fun this state token =>
    Some (Some "", set_listStack (pop (listStack state)) state, this).

(** [isRepeatToken] and [isMultiLineDtDdPair] of [_listItemHandler];
    [None] where [constructor] is read off a missing token. *)
Definition isRepeatToken (state : State) (token : Token) : option bool :=
  prevToken ← prevToken state;
  Some (is_ctor prevToken CEndTagTk
        && bool_decide (name prevToken = name token)).

Definition isMultiLineDtDdPair (state : State) (token : Token)
    : option bool :=
  if name_is token "dd" && negb (str_eq (da_stx (dataAttribs token)) "row")
  then
    prevTagToken ← prevTagToken state;
    Some (is_ctor prevTagToken CEndTagTk && name_is prevTagToken "dt")
  else Some false.

Definition _listItemHandler (bullet : string)
    : Flags -> State -> Token -> option Handled :=
  fun handler state token =>
    let stack := listStack state in
    let stack :=
      match stack with
      | [] => push (mkListCtx 0 bullet bullet) stack
      | _ => stack
      end in
    curList ← last stack;
    let curList := mkListCtx (itemCount curList + 1) (bullets curList) bullet in
    let state := set_listStack (set_last curList stack) state in
    full ←
      (if 1 <? itemCount curList then
         if onStartOfLine state then Some true
         else
           r ← isRepeatToken state token;
           if r : bool then Some true else isMultiLineDtDdPair state token
       else Some false);
    if full : bool
    then Some (Some (bullets curList +:+ bullet), state,
               set_startsLine true handler)
    else Some (Some bullet, state, set_startsLine false handler).

Definition hasExpandedAttrs (tokType : option string) : bool :=
  match tokType with
  | Some t => JS.truthy tokType && JS.expanded_attrs t
  | None => false
  end.

Definition ignoreKeys (k : string) : bool :=
  bool_decide (k ∈ ["about"; "typeof"; "data-parsoid"; "data-ve-changed";
                    "data-parsoid-changed"; "data-parsoid-diff";
                    "data-parsoid-serialize"]).

Definition emptyTplAttrState : TplAttrState := mkTplAttrState ∅ ∅ ∅.

(** A property of an object used as a map, when it is truthy. *)
Definition prop (m : gmap string string) (k : string) : option string :=
  match m !! k with
  | Some (String c r) => Some (String c r)
  | _ => None
  end.

Definition assoc (l : list (string * string)) (k : string) : option string :=
  snd <$> List.find (fun p => bool_decide (fst p = k)) l.

Definition quoted (v : string) : string :=
  JS.QUOT +:+ JS.replace_char JS.DQUOTE "&quot;" v +:+ JS.QUOT.

(** The first loop of [_serializeAttributes], over [token.attribs]. *)
Fixpoint serializeAttribs_loop (tokType : option string)
    (tplAttrState : option TplAttrState) (token : Token)
    (attribs : list KV) (out : list string) : option (list string) :=
  match attribs with
  | [] => Some out
  | kv :: rest =>
      let k := kv_k kv in
      if JS.truthy tokType && ignoreKeys k
      then serializeAttribs_loop tokType tplAttrState token rest out
      else if JS.truthy (Some k) then
        tpl ← tplAttrState;
        match prop (kvs tpl) k with
        | Some tplKV =>
            serializeAttribs_loop tokType tplAttrState token rest
              (push tplKV out)
        | None =>
            let v := getAttributeShadowInfo token k in
            let k := default k (prop (ks tpl) k) in
            let v := default v (prop (vs tpl) (kv_k kv)) in
            if JS.truthy (Some v)
            then serializeAttribs_loop tokType tplAttrState token rest
                   (push (k +:+ "=" +:+ quoted (escapeEntities v)) out)
            else serializeAttribs_loop tokType tplAttrState token rest
                   (push k out)
        end
      else if JS.truthy (Some (kv_v kv))
      then serializeAttribs_loop tokType tplAttrState token rest
             (push (kv_v kv) out)
      else serializeAttribs_loop tokType tplAttrState token rest out
  end.

(** The second loop, over the keys of [dataAttribs.a]: attributes that
    sanitization removed. *)
Fixpoint sanitizedAttribs_loop (tplAttrState : option TplAttrState)
    (attribs : list KV) (sa : list (string * string)) (aKeys : list string)
    (out : list string) : option (list string) :=
  match aKeys with
  | [] => Some out
  | k :: rest =>
      if negb (lookupKV attribs k) then
        tpl ← tplAttrState;
        let k := default k (prop (ks tpl) k) in
        match assoc sa k with
        | Some (String c r) =>
            let v := default (String c r) (prop (vs tpl) k) in
            sanitizedAttribs_loop tplAttrState attribs sa rest
              (push (k +:+ "=" +:+ quoted v) out)
        | _ =>
            sanitizedAttribs_loop tplAttrState attribs sa rest (push k out)
        end
      else sanitizedAttribs_loop tplAttrState attribs sa rest out
  end.

Definition _serializeAttributes (state : State) (token : Token)
    : option string :=
  let tokType := getAttribute token "typeof" in
  let tplAttrState :=
    if hasExpandedAttrs tokType
    then tplAttrs state !! default "undefined" (getAttribute token "about")
    else Some emptyTplAttrState in
  out ← serializeAttribs_loop tokType tplAttrState token (attribs token) [];
  out ←
    match da_a (dataAttribs token), da_sa (dataAttribs token) with
    | Some a, Some sa =>
        sanitizedAttribs_loop tplAttrState (attribs token) sa (fst <$> a) out
    | _, _ => Some out
    end;
  Some (join " " out).

(** [_serializeTableTag(symbol, endSymbol, state, token)]; a [null]
    [endSymbol] is [None]. *)
Definition _serializeTableTag (symbol : string) (endSymbol : option string)
    (state : State) (token : Token) : option string :=
  sAttribs ← _serializeAttributes state token;
  if JS.truthy (Some sAttribs)
  then Some (symbol +:+ " " +:+ sAttribs +:+ default " |" endSymbol)
  else Some (symbol +:+ JS.or_else endSymbol "").

Definition _serializeHTMLTag (state : State) (token : Token)
    : option (string * State) :=
  let da := dataAttribs token in
  let state :=
    if name_is token "pre" then set_inHTMLPre true state else state in
  if da_autoInsertedStart da then Some ("", state)
  else
    let tname := default "" (name token) in
    let close :=
      if isVoidElement tname && negb (da_noClose da) || da_selfClose da
      then "/" else "" in
    sAttribs ← _serializeAttributes state token;
    let tokenName := JS.or_else (da_srcTagName da) tname in
    if JS.truthy (Some sAttribs)
    then Some ("<" +:+ tokenName +:+ " " +:+ sAttribs +:+ close +:+ ">", state)
    else Some ("<" +:+ tokenName +:+ close +:+ ">", state).

Definition _serializeHTMLEndTag (state : State) (token : Token)
    : string * State :=
  let da := dataAttribs token in
  let tname := default "" (name token) in
  let state :=
    if name_is token "pre" then set_inHTMLPre false state else state in
  if negb (da_autoInsertedEnd da) && negb (isVoidElement tname)
     && negb (da_selfClose da)
  then ("</" +:+ JS.or_else (da_srcTagName da) tname +:+ ">", state)
  else ("", state).

(** A handler part with the given properties and [handle]. *)
Definition part (f : Flags) (h : Flags -> State -> Token -> option Handled)
    : option Part := Some (mkPart f (Some h)).

Definition startsLineF : Flags := set_startsLine true noFlags.
Definition endsLineF : Flags := set_endsLine true noFlags.
Definition ignoreF : Flags := mkFlags true false false false false false 0.
Definition singleLineF (n : Z) (endsLine : bool) : Flags :=
  mkFlags false false endsLine false false false n.

Definition id (v : string) : Flags -> State -> Token -> option Handled :=
  fun this state token => Some (Some v, state, this).

Definition buildHeadingHandler (headingWT : string) : TagHandler :=
  mkTagHandler (part startsLineF (openHeading headingWT))
               (part endsLineF (closeHeading headingWT))
               (Some WteHeading) None.

Definition buildListHandler (listBullet : string) : TagHandler :=
  mkTagHandler (part noFlags (_listHandler listBullet))
               (part endsLineF _listEndHandler)
               None None.

Definition buildListItemHandler (itemBullet : string) (endTagEndsLine : bool)
    : TagHandler :=
  mkTagHandler (part (singleLineF 1 false) (_listItemHandler itemBullet))
               (Some (mkPart (singleLineF (-1) endTagEndsLine) None))
               (Some WteLi) None.

Fixpoint repeat_str (c : string) (n : nat) : string :=
  match n with O => "" | S n' => c +:+ repeat_str c n' end.

Definition charSequence (prefix c : string) (numChars : option Z) : string :=
  match numChars with
  | Some n => if 0 <? n then prefix +:+ repeat_str c (Z.to_nat n) else prefix
  | None => prefix
  end.

Definition defaultHTMLTagHandler : TagHandler :=
  mkTagHandler
    (part noFlags (fun this state token =>
       r ← _serializeHTMLTag state token;
       Some (Some r.1, r.2, this)))
    (part noFlags (fun this state token =>
       let r := _serializeHTMLEndTag state token in
       Some (Some r.1, r.2, this)))
    None None.

Definition table : TagHandler :=
  mkTagHandler
    (part noFlags (fun this state token =>
       let this := set_startsLine (bool_decide (listStack state = [])) this in
       let state :=
         set_tableStack
           (push (mkTableCtx (listStack state) (singleLineMode state))
                 (tableStack state)) state in
       let state := set_singleLineMode (Some 0) state in
       let state := set_listStack [] state in
       let wt := JS.or_else (da_startTagSrc (dataAttribs token)) "{|" in
       r ← _serializeTableTag wt (Some "") state token;
       Some (Some r, state, this)))
    (part (set_endsLine true startsLineF) (fun this state token =>
       listState ← last (tableStack state);
       let state := set_tableStack (pop (tableStack state)) state in
       let state := set_listStack (tc_listStack listState) state in
       (* the frame has no property [singleLineMode] *)
       let state := set_singleLineMode None state in
       let this :=
         set_startsLine
           (match prevTagToken state with
            | Some t => name_is t "tr"
            | None => false
            end) this in
       Some (Some (JS.or_else (da_endTagSrc (dataAttribs token)) "|}"),
             state, this)))
    None None.

Definition tbody : TagHandler :=
  mkTagHandler (Some (mkPart ignoreF None)) (Some (mkPart ignoreF None))
               None None.

(** [th] and [td] differ in their delimiters only. *)
Definition cell (rowSym lineSym : string)
    : Flags -> State -> Token -> option Handled :=
  fun this state token =>
    let da := dataAttribs token in
    let sep := JS.or_opt (da_attrSepSrc da) None in
    if str_eq (da_stx_v da) "row" then
      r ← _serializeTableTag (JS.or_else (da_startTagSrc da) rowSym) sep
            state token;
      Some (Some r, state, set_startsLine false this)
    else
      r ← _serializeTableTag (JS.or_else (da_startTagSrc da) lineSym) sep
            state token;
      Some (Some r, state, set_startsLine true this).

Definition th : TagHandler :=
  mkTagHandler (part noFlags (cell "!!" "!")) None (Some WteTh) None.

Definition td : TagHandler :=
  mkTagHandler (part noFlags (cell "||" "|")) None (Some WteTd) None.

Definition tr : TagHandler :=
  mkTagHandler
    (part startsLineF (fun this state token =>
       let da := dataAttribs token in
       prevToken ← prevToken state;
       if is_ctor prevToken CTagTk && name_is prevToken "tbody"
          && negb (JS.truthy (da_startTagSrc da))
       then Some (Some "", state, this)
       else
         r ← _serializeTableTag (JS.or_else (da_startTagSrc da) "|-")
               (Some "") state token;
         Some (Some r, state, this)))
    (part endsLineF (fun this state token => Some (Some "", state, this)))
    None None.

Definition caption : TagHandler :=
  mkTagHandler
    (part startsLineF (fun this state token =>
       r ← _serializeTableTag "|+" None state token;
       Some (Some r, state, this)))
    (Some (mkPart endsLineF None))
    None None.

Definition p_make (state : State) (token : Token)
    : option (option TagHandler * State) :=
  let prevToken := prevToken state in
  suppressed ←
    (if bool_decide (attribs token = []) then
       if negb (bool_decide (listStack state = [])) && isListItem prevToken
       then Some true
       else
         pt ← prevToken;
         Some (is_ctor pt CTagTk && name_is pt "td"
               || ignorePTag state && is_ctor token CEndTagTk)
     else Some false);
  if suppressed : bool then
    Some (Some (mkTagHandler (Some (mkPart ignoreF None))
                             (Some (mkPart ignoreF None)) None None),
          set_ignorePTag (negb (ignorePTag state)) state)
  else if truthyZ (singleLineMode state)
  then Some (Some defaultHTMLTagHandler, state)
  else Some (None, state).

Definition p : TagHandler :=
  mkTagHandler
    (part startsLineF (fun this state token =>
       let prevTag := prevTagToken state in
       if JS.truthy (env_page_src state)
          || match prevTag with
             | Some t => is_ctor t CTagTk && name_is t "body"
             | None => false
             end
       then Some (Some "", state, set_emitsNL false this)
       else Some (Some "", state, set_emitsNL true this)))
    (part noFlags (fun this state token =>
       let prevTag := prevToken state in
       if match prevTag with
          | Some t => is_ctor t CTagTk && name_is t "p"
                      || is_ctor t CEndTagTk && name_is t "br"
          | None => false
          end
       then Some (Some "", state, set_emitsNL false (set_endsLine true this))
       else if JS.truthy (env_page_src state)
       then Some (Some "", state, set_emitsNL false (set_endsLine false this))
       else Some (Some "", state, set_emitsNL true (set_endsLine true this))))
    None (Some p_make).

(** The text transform that [pre] installs as [state.textHandler]. *)
Definition pre_textHandler (currState : State) (t : string) : string :=
  let res := JS.indent_nls t in
  if onStartOfLine currState then " " +:+ res else res.

Definition pre : TagHandler :=
  mkTagHandler
    (part startsLineF (fun this state token =>
       let state := set_inIndentPre true state in
       let state := set_textHandler true state in
       if negb (JS.truthy (env_page_src state))
          && match prevTagToken state with
             | Some t => is_ctor t CEndTagTk && name_is t "pre"
                         && negb (str_eq (da_stx (dataAttribs t)) "html")
             | None => false
             end
       then Some (Some (JS.NL +:+ " "), state, this)
       else Some (Some " ", state, this)))
    (part noFlags (fun this state token =>
       let state := set_inIndentPre false state in
       let state := set_textHandler false state in
       Some (Some "", state, this)))
    None None.

(** [this.solTransparent = b] on the shared [meta] start handler. *)
Definition meta_set (b : bool) (state : State) (this : Flags)
    : State * Flags :=
  (set_meta_solTransparent b state, set_solTransparent b this).

Definition meta_handle : Flags -> State -> Token -> option Handled :=
  fun this state token =>
    let argDict := KVtoHash (attribs token) in
    let src := da_src (dataAttribs token) in
    match argDict "typeof" with
    | Some (String _ _ as ty) =>
        if bool_decide (ty = "mw:tag") then
          let '(state, this) := meta_set true state this in
          let state :=
            if str_eq (argDict "content") "nowiki"
            then set_inNoWiki true state
            else if str_eq (argDict "content") "/nowiki"
            then set_inNoWiki false state
            else state in
          Some (Some ("<" +:+ default "undefined" (argDict "content") +:+ ">"),
                state, this)
        else if bool_decide (ty = "mw:IncludeOnly") then
          let '(state, this) := meta_set true state this in
          Some (src, state, this)
        else if bool_decide (ty = "mw:NoInclude") then
          let '(state, this) := meta_set true state this in
          Some (Some (JS.or_else src "<noinclude>"), state, this)
        else if bool_decide (ty = "mw:NoInclude/End") then
          Some (Some (JS.or_else src "</noinclude>"), state, this)
        else if bool_decide (ty = "mw:OnlyInclude") then
          let '(state, this) := meta_set true state this in
          Some (Some (JS.or_else src "<onlyinclude>"), state, this)
        else if bool_decide (ty = "mw:OnlyInclude/End") then
          Some (Some (JS.or_else src "</onlyinclude>"), state, this)
        else if bool_decide (ty = "mw:DiffMarker")
                || bool_decide (ty = "mw:Separator") then
          Some (Some "", state, this)
        else
          let '(state, this) := meta_set false state this in
          r ← _serializeHTMLTag state token;
          Some (Some r.1, r.2, this)
    | _ =>
        match argDict "property" with
        | Some (String _ _ as property) =>
            match JS.match_PageProp property with
            | Some switchType =>
                if JS.truthy (da_magicSrc (dataAttribs token))
                then Some (da_magicSrc (dataAttribs token), state, this)
                else Some (Some switchType, state, this)
            | None => Some (Some "", state, this)
            end
        | _ =>
            r ← _serializeHTMLTag state token;
            Some (Some r.1, r.2, this)
        end
    end.

Definition meta (state : State) : TagHandler :=
  mkTagHandler
    (part (set_solTransparent (meta_solTransparent state) noFlags) meta_handle)
    None None None.

Definition genContentSpanTypes (ty : option string) : bool :=
  match ty with
  | Some t => bool_decide (t ∈ ["mw:Nowiki"; "mw:Entity"; "mw:DiffMarker"])
  | None => false
  end.

Definition span : TagHandler :=
  mkTagHandler
    (part noFlags (fun this state token =>
       let argDict := KVtoHash (attribs token) in
       if genContentSpanTypes (argDict "typeof") then
         if str_eq (argDict "typeof") "mw:Nowiki"
         then Some (Some "<nowiki>", set_inNoWiki true state, this)
         else Some (Some "", state, this)
       else
         r ← _serializeHTMLTag state token;
         Some (Some r.1, r.2, this)))
    (part noFlags (fun this state token =>
       let argDict := KVtoHash (attribs token) in
       if genContentSpanTypes (argDict "typeof") then
         if str_eq (argDict "typeof") "mw:Nowiki"
         then Some (Some "</nowiki>", set_inNoWiki false state, this)
         else Some (Some "", state, this)
       else
         let r := _serializeHTMLEndTag state token in
         Some (Some r.1, r.2, this)))
    None None.

Definition img : TagHandler :=
  mkTagHandler
    (part noFlags (fun this state token =>
       if str_eq (getAttribute token "rel") "mw:externalImage"
       then Some (Some (JS.or_else (getAttribute token "src") ""), state, this)
       else Some (Some "", state, this)))
    None None None.

Definition hr : TagHandler :=
  mkTagHandler
    (part startsLineF (fun this state token =>
       Some (Some (charSequence "----" "-"
                     (da_extra_dashes (dataAttribs token))),
             state, this)))
    (part noFlags (fun this state token =>
       Some (Some "", state,
             set_endsLine (negb (da_lineContent (dataAttribs token))) this)))
    None None.

(** [b] and [i] differ in their delimiter only. *)
Definition quote (q : string) : TagHandler :=
  mkTagHandler
    (part noFlags (fun this state token =>
       Some (Some (if JS.endsWith "'''''" (lastRes state)
                   then "<nowiki/>" +:+ q else q),
             state, this)))
    (part noFlags (id q))
    (Some WteQuote) None.

(** An entry with a [node] handler only: [figure], [a], [link]. *)
Definition nodeOnly : TagHandler := mkTagHandler None None None None.

(** [tagHandlers[tname]]; the state is read for the [solTransparent]
    slot of [meta] only. *)
Definition tagHandlers (state : State) (tname : string)
    : option TagHandler :=
  if bool_decide (tname = "body")
  then Some (mkTagHandler None (part noFlags (id "")) None None)
  else if bool_decide (tname = "ul") then Some (buildListHandler "*")
  else if bool_decide (tname = "ol") then Some (buildListHandler "#")
  else if bool_decide (tname = "dl") then Some (buildListHandler "")
  else if bool_decide (tname = "li") then Some (buildListItemHandler "" true)
  else if bool_decide (tname = "dt") then Some (buildListItemHandler ";" false)
  else if bool_decide (tname = "dd") then Some (buildListItemHandler ":" true)
  else if bool_decide (tname = "table") then Some table
  else if bool_decide (tname = "tbody") then Some tbody
  else if bool_decide (tname = "th") then Some th
  else if bool_decide (tname = "tr") then Some tr
  else if bool_decide (tname = "td") then Some td
  else if bool_decide (tname = "caption") then Some caption
  else if bool_decide (tname = "p") then Some p
  else if bool_decide (tname = "pre") then Some pre
  else if bool_decide (tname = "meta") then Some (meta state)
  else if bool_decide (tname = "span") then Some span
  else if bool_decide (tname = "figure") then Some nodeOnly
  else if bool_decide (tname = "img") then Some img
  else if bool_decide (tname = "hr") then Some hr
  else if bool_decide (tname = "h1") then Some (buildHeadingHandler "=")
  else if bool_decide (tname = "h2") then Some (buildHeadingHandler "==")
  else if bool_decide (tname = "h3") then Some (buildHeadingHandler "===")
  else if bool_decide (tname = "h4") then Some (buildHeadingHandler "====")
  else if bool_decide (tname = "h5") then Some (buildHeadingHandler "=====")
  else if bool_decide (tname = "h6") then Some (buildHeadingHandler "======")
  else if bool_decide (tname = "br")
  then Some (mkTagHandler (part noFlags (id JS.NL)) None None None)
  else if bool_decide (tname = "b") then Some (quote "'''")
  else if bool_decide (tname = "i") then Some (quote "''")
  else if bool_decide (tname = "a") then Some nodeOnly
  else if bool_decide (tname = "link") then Some nodeOnly
  else None.

(** [handler.start || {}] *)
Definition emptyPart : Part := mkPart noFlags None.

Definition _getTokenHandler (state : State) (token : Token)
    : option (Part * State) :=
  if bool_decide (da_src (dataAttribs token) ≠ None)
     && str_eq (Util_lookup (attribs token) "typeof") "mw:TemplateSource"
  then
    Some (mkPart (mkFlags false false false false false true 0)
            (Some (fun this state tok =>
                     Some (da_src (dataAttribs token), state, this))),
          state)
  else
    '(handler, state) ←
      (if isHTMLTag token
          || (is_ctor token CTagTk || is_ctor token CEndTagTk)
             && bool_decide (dataAttribs token = emptyDA)
             && negb (name_is token "meta")
             && str_eq (parentSTX state) "html"
       then Some (Some defaultHTMLTagHandler, state)
       else
         match tagHandlers state (default "" (name token)) with
         | Some handler =>
             match make handler with
             | Some mk =>
                 '(made, state) ← mk state token;
                 Some (Some (default handler made), state)
             | None => Some (Some handler, state)
             end
         | None => Some (None, state)
         end);
    let handler := default defaultHTMLTagHandler handler in
    if is_ctor token CTagTk || is_ctor token CSelfclosingTagTk
    then Some (default emptyPart (start handler),
               set_wteHandlerStack
                 (push (wtEscapeHandler handler) (wteHandlerStack state))
                 state)
    else Some (default emptyPart (end_ handler), state).

(** [emitNLs] of [_serializeToken] *)
Definition emitNLs (nls : string) (dontBuffer : bool) (state : State)
    : State :=
  if separatorEmittedFromSrc state then state
  else
    let sep := JS.or_else (bufferedSeparator state) "" +:+ nls in
    if JS.truthy (env_page_src state) && negb dontBuffer
    then set_bufferedSeparator (Some sep) state
    else emitSepChunk sep state.

(** [handler.handle ? handler.handle(state, token) : ''] *)
Definition run_handle (handler : Part) (state : State) (token : Token)
    : option Handled :=
  match handle handler with
  | Some h => h (flags handler) state token
  | None => Some (Some "", state, flags handler)
  end.

(** [textHandler(state, res)] for the handler captured on entry;
    [None] where the transform is applied to [undefined]. *)
Definition apply_textHandler (textHandler : bool) (state : State)
    (res : option string) : option (option string) :=
  if textHandler then r ← res; Some (Some (pre_textHandler state r))
  else Some res.

(** The first part of [_serializeToken]: the [switch] on the token's
    constructor.  It yields the text, the handler's properties after
    its [handle] ran, [suppressOutput] and the state. *)
Definition dispatch (state : State) (token : Token)
    : option (option string * Flags * bool * State) :=
  let textHandler := textHandler state in
  match token with
  | TagTk _ _ da | SelfclosingTagTk _ _ da =>
      '(handler, state) ← _getTokenHandler state token;
      '(res, fl, suppressOutput, state) ←
        (if negb (ignore (flags handler)) then
           let state := set_prevTagToken (currTagToken state) state in
           let state := set_currTagToken (Some token) state in
           '(res, state, fl) ← run_handle handler state token;
           res ← apply_textHandler textHandler state res;
           Some (res, fl, da_autoInsertedStart da, state)
         else Some (Some "", flags handler, false, state));
      let state :=
        if is_ctor token CSelfclosingTagTk
        then set_wteHandlerStack (pop (wteHandlerStack state)) state
        else state in
      Some (res, fl, suppressOutput, state)
  | EndTagTk _ _ da =>
      '(handler, state) ← _getTokenHandler state token;
      let state := set_wteHandlerStack (pop (wteHandlerStack state)) state in
      if negb (ignore (flags handler)) then
        let state := set_prevTagToken (currTagToken state) state in
        let state := set_currTagToken (Some token) state in
        let state :=
          if (singleLine (flags handler) <? 0)
             && truthyZ (singleLineMode state)
          then set_singleLineMode (Z.pred <$> singleLineMode state) state
          else state in
        '(res, state, fl) ← run_handle handler state token;
        Some (res, fl, da_autoInsertedEnd da, state)
      else Some (Some "", flags handler, false, state)
  | Str text =>
      let res := escapeEntities text in
      '(res, state) ←
        (if inNoWiki state || inHTMLPre state then Some (res, state)
         else escapeWikiText state res);
      let res := if textHandler then pre_textHandler state res else res in
      let state :=
        if JS.blank_then_nl res then set_bufferedSeparator None state
        else state in
      Some (Some res, noFlags, false, state)
  | CommentTk value =>
      Some (Some ("<!--" +:+ value +:+ "-->"),
            set_solTransparent true noFlags, false, state)
  | NlTk =>
      Some (Some (if textHandler then pre_textHandler state JS.NL else JS.NL),
            noFlags, false, state)
  | EOFTk =>
      Some (Some "", noFlags, false, call_chunkCB "" None state)
  end.

(** The second part of [_serializeToken], step by step. *)

(** start-of-line processing *)
Definition startOfLine (handler : Flags) (suppressOutput : bool)
    (state : State) : State :=
  if startsLine handler && negb (onStartOfLine state)
     && negb suppressOutput && negb (truthyZ (singleLineMode state))
  then emitNLs JS.NL false state
  else state.

(** content processing: no newline leaves in single-line mode when
    there is no original source *)
Definition contentProcessing (handler : Flags) (state : State)
    (res : string) : string :=
  if negb (JS.truthy (env_page_src state))
     && truthyZ (singleLineMode state) && negb (isTemplateSrc handler)
  then JS.strip_newlines res
  else res.

(** [onNewline] and [onStartOfLine] after the chunk *)
Definition updateLineState (handler : Flags) (res : string) (state : State)
    : State :=
  if JS.ends_crlf res
  then set_onStartOfLine true (set_onNewline true state)
  else if negb (bool_decide (res = "")) then
    let state := set_onNewline false state in
    if negb (solTransparent handler)
    then set_onStartOfLine false state
    else state
  else state.

(** newlines and separators after the token *)
Definition emitAfter (handler : Flags) (state : State) : State :=
  if emitsNL handler then emitNLs JS.NL true state
  else
    match bufferedSeparator state with
    | Some (String _ _ as sep) => emitSepChunk sep state
    | _ => state
    end.

(** end-of-line processing *)
Definition endOfLine (handler : Flags) (state : State) : State :=
  if endsLine handler && negb (onNewline state)
  then emitNLs JS.NL false state
  else state.

Definition enterSingleLine (handler : Flags) (state : State) : State :=
  if 0 <? singleLine handler
  then set_singleLineMode
         ((fun n => n + singleLine handler) <$> singleLineMode state) state
  else state.

Definition emitToken (res : string) (handler : Flags) (suppressOutput : bool)
    (state : State) : State :=
  let state := startOfLine handler suppressOutput state in
  let res := contentProcessing handler state res in
  let state := call_chunkCB (if suppressOutput then "" else res) None state in
  let state := updateLineState handler res state in
  let state := emitAfter handler state in
  let state := endOfLine handler state in
  let state := enterSingleLine handler state in
  set_separatorEmittedFromSrc false state.

Definition _serializeToken (state : State) (token : Token) : option State :=
  let state := set_prevToken (curToken state) state in
  let state := set_curToken (Some token) state in
  '(res, handler, suppressOutput, state) ← dispatch state token;
  (* a result that is not a string is replaced by '' *)
  Some (emitToken (default "" res) handler suppressOutput state).

(** The loop of [serializeTokens]. *)
Fixpoint serializeTokens_loop (state : State) (tokens : list Token)
    : option State :=
  match tokens with
  | [] => Some state
  | t :: rest =>
      state ← _serializeToken state t;
      serializeTokens_loop state rest
  end.

(** [serializeTokens(startState, tokens, chunkCB)] with the
    [startState] that [state.serializeTokens] passes, or none
    ([newLineStart] true and no escape handler). *)
Definition serializeTokens (newLineStart : bool)
    (wteHandler : option WteHandler) (page_src : option string)
    (tokens : list Token) : option State :=
  let state := set_env_page_src page_src initialState in
  let state := set_onNewline newLineStart state in
  let state := set_onStartOfLine newLineStart state in
  let state :=
    set_wteHandlerStack
      (match wteHandler with Some h => [Some h] | None => [] end) state in
  serializeTokens_loop state tokens.

(** *** DOM-based handlers *)

(** [cb(res, serializeInfo)] for a callback value. *)
Definition callback (cb : ChunkCB) (res : string)
    (serializeInfo : option string) : M unit :=
  modifySer (callCB cb res serializeInfo).

(** [nodes[i]] for the live list [nodes = parent.childNodes]. *)
Definition child_at (s : Store) (parent i : nat) : option nat :=
  p ← s !! parent; childNodes p !! i.

Definition childCount (parent : nat) : M nat :=
  p ← node_of parent; mret (length (childNodes p)).

(** [node.data.parsoid]; reading it off a node without [data] throws. *)
Definition data_parsoid_of (node : nat) : M DataAttribs :=
  nd ← node_of node; liftO (data_parsoid nd).

Definition lower_name (nd : Node) : string := toLowerCase (nodeName nd).

Definition escapeWikiLinkContentString (contentString : string)
    (state : State) : option (string * State) :=
  let state := set_onStartOfLine false state in
  let state := set_emitNewlineOnNextToken false state in
  let state :=
    set_wteHandlerStack (push (Some WteWikilink) (wteHandlerStack state))
      state in
  '(res, state) ← escapeWikiText state contentString;
  Some (res, set_wteHandlerStack (pop (wteHandlerStack state)) state).

(** The pieces that [splitLinkContentString] returns. *)
Record ContentParts := mkContentParts {
  cp_contentString : string;
  cp_tail : string;
  cp_prefix : string
}.

Definition splitLinkContentString (contentString : string)
    (dp : DataAttribs) : ContentParts :=
  let tail := da_tail dp in
  let prefix := da_prefix dp in
  if da_pipetrick dp
  then mkContentParts "" (JS.or_else tail "") (JS.or_else prefix "")
  else
    let '(contentString, tail) :=
      match tail with
      | Some (String _ _ as t) =>
          if bool_decide
               (JS.substr contentString
                  (Z.of_nat (String.length contentString)
                   - Z.of_nat (String.length t)) = t)
          then (stripSuffix contentString t, tail)
          else (contentString, Some "")
      | _ => (contentString, tail)
      end in
    let '(contentString, prefix) :=
      match prefix with
      | Some (String _ _ as pre) =>
          if bool_decide
               (JS.substr_head (String.length pre) contentString = pre)
          then (JS.substr_from (String.length pre) contentString, prefix)
          else (contentString, Some "")
      | _ => (contentString, prefix)
      end in
    mkContentParts contentString (JS.or_else tail "") (JS.or_else prefix "").

(** [rtData] of [getLinkRoundTripData]; [lk_content_nodes] tells whether
    [content.nodes] is set (to [node.childNodes]). *)
Record LinkData := mkLinkData {
  lk_type : option string;
  lk_target : ShadowInfo;
  lk_tail : string;
  lk_prefix : string;
  lk_href : string;
  lk_content_string : option string;
  lk_content_nodes : bool;
  lk_content_fromsrc : bool
}.

Definition getLinkRoundTripData (node : nat) : M LinkData :=
  state ← getSer;
  s ← getDom;
  nd ← node_of node;
  dp ← liftO (data_parsoid nd);
  let tail := JS.or_else (da_tail dp) "" in
  let prefix := JS.or_else (da_prefix dp) "" in
  let type :=
    match DOM.getAttribute s node "rel" with
    | Some (String _ _ as rel) => JS.rel_type rel
    | _ => None
    end in
  let href := JS.or_else (DOM.getAttribute s node "href") "" in
  let target := nodeShadowInfo nd "href" (tplAttrs state) in
  let rt cs nodes tail prefix :=
    mkLinkData type target tail prefix (JS.strip_dot_slash href) cs nodes
               false in
  match childNodes nd with
  | [c] =>
      cn ← node_of c;
      if bool_decide (nodeType cn = TEXT_NODE) then
        let contentString := data cn in
        if negb (si_modified target) && JS.truthy (Some tail)
           && bool_decide
                (JS.substr contentString (- Z.of_nat (String.length tail))
                 = tail)
        then mret (rt (Some (stripSuffix contentString tail)) false tail prefix)
        else if JS.truthy (si_string target)
                && negb (bool_decide (si_string target = Some contentString))
        then
          let contentParts := splitLinkContentString contentString dp in
          mret (rt (Some (cp_contentString contentParts)) false
                   (cp_tail contentParts) (cp_prefix contentParts))
        else mret (rt (Some contentString) false "" "")
      else mret (rt None true tail prefix)
  | [] => mret (rt None false tail prefix)
  | _ => mret (rt None true tail prefix)
  end.

Section Handlers.

(** [this.serializer._serializeDOM(node, this)], one level down. *)
Variable recur : nat -> M unit.

(** [state.serializeChildren(nodes, chunkCB, wtEscaper)] for
    [nodes = parent.childNodes]. *)
Definition serializeChildren (parent : nat) (cb : ChunkCB)
    (wtEscaper : option WteHandler) : M unit :=
  state ← getSer;
  let oldCB := chunkCB state in
  _ ← modifySer (set_chunkCB cb);
  _ ← match wtEscaper with
      | Some _ =>
          modifySer (fun st =>
            set_wteHandlerStack (push wtEscaper (wteHandlerStack st)) st)
      | None => mret tt
      end;
  l ← childCount parent;
  _ ← for_range 0 l (fun i =>
         s ← getDom;
         child ← liftO (child_at s parent i);
         recur child);
  _ ← modifySer (set_chunkCB oldCB);
  match wtEscaper with
  | Some _ =>
      modifySer (fun st => set_wteHandlerStack (pop (wteHandlerStack st)) st)
  | None => mret tt
  end.

(** [state.serializeChildrenToString(nodes, wtEscaper)]: the collector
    [bits] of this call is [bits] of the state while the call runs. *)
Definition serializeChildrenToString (parent : nat)
    (wtEscaper : option WteHandler) : M string :=
  state ← getSer;
  let outer := bits state in
  _ ← modifySer (set_bits []);
  _ ← serializeChildren parent CollectCB wtEscaper;
  state ← getSer;
  _ ← modifySer (set_bits outer);
  mret (join "" (bits state)).

Definition htmlElementHandler (node : nat) (cb : ChunkCB) : M unit :=
  nd ← node_of node;
  let attribKVs := getAttributeKVArray nd in
  dp ← liftO (data_parsoid nd);
  state ← getSer;
  '(res, state) ←
    liftO (_serializeHTMLTag state (TagTk (lower_name nd) attribKVs dp));
  _ ← modifySer (fun _ => state);
  _ ← callback cb res None;
  _ ← (if bool_decide (childNodes nd = []) then mret tt
       else serializeChildren node cb None);
  state ← getSer;
  let '(res, state) :=
    _serializeHTMLEndTag state (EndTagTk (lower_name nd) attribKVs dp) in
  _ ← modifySer (fun _ => state);
  callback cb res None.

(** [outBits.join('|')]: an [undefined] entry joins as the empty
    string. *)
Definition join_bits (outBits : list (option string)) : string :=
  join "|" (default "" <$> outBits).

(** [w + (size.height ? "x" + size.height : '') + "px"] *)
Definition size_bit (w : string) (height : option string) : string :=
  w +:+ (match height with
         | Some (String _ _ as h) => "x" +:+ h
         | _ => ""
         end) +:+ "px".

(** The loop of [figureHandler] over [dp.optionList]. *)
Fixpoint figure_options (captionSrc : string)
    (optNames : option (list (string * string)))
    (figAttrs : list (string * option string))
    (width height : option string) (outBits : list (option string))
    : option (option string * option string * list (option string)) :=
  match figAttrs with
  | [] => Some (width, height, outBits)
  | (k, v) :: rest =>
      if bool_decide (k = "width")
      then figure_options captionSrc optNames rest v height outBits
      else if bool_decide (k = "height")
      then figure_options captionSrc optNames rest width v outBits
      else
        let '(width, outBits) :=
          match width with
          | Some w => (None, push (Some (size_bit w height)) outBits)
          | None => (width, outBits)
          end in
        if bool_decide (k = "caption")
        then figure_options captionSrc optNames rest width height
               (push (Some (default captionSrc v)) outBits)
        else if bool_decide
                  (simpleImgOptions ("img_" +:+ default "null" v) = Some k)
        then
          names ← optNames;
          figure_options captionSrc optNames rest width height
            (push (assoc names (default "null" v)) outBits)
        else
          match prefixImgOptionsRM k with
          | Some (String _ _ as canonical) =>
              names ← optNames;
              figure_options captionSrc optNames rest width height
                (push (Some (replaceInterpolatedMagicWord
                               (assoc names (JS.strip_img canonical)) v))
                      outBits)
          | _ => figure_options captionSrc optNames rest width height outBits
          end
  end.

Definition figureHandler (node : nat) (cb : ChunkCB) : M unit :=
  dp ← data_parsoid_of node;
  s ← getDom;
  match
    (fc ← DOM.firstChild s node;
     img ← DOM.firstChild s fc;
     imgNode ← s !! img;
     if bool_decide (nodeType imgNode = ELEMENT_NODE)
     then Some (img, DOM.lastChild s node)
     else None)
  with
  | None =>
      (* the [catch]: no img or caption found *)
      callback cb "" None
  | Some (img, caption) =>
      caption ← liftO caption;
      captionSrc ← serializeChildrenToString caption (Some WteA);
      s ← getDom;
      let imgResource :=
        JS.strip_resource (JS.or_else (DOM.getAttribute s img "resource") "") in
      figAttrs ← liftO (da_optionList dp);
      '(width, height, outBits) ←
        liftO (figure_options captionSrc (da_optNames dp) figAttrs None None
                 [Some imgResource]);
      let outBits :=
        match width with
        | Some (String _ _ as w) => push (Some (size_bit w height)) outBits
        | _ => outBits
        end in
      callback cb ("[[" +:+ join_bits outBits +:+ "]]") None
  end.

(** [dp.tail = tail; dp.prefix = prefix] on [node.data.parsoid]. *)
Definition set_tail_prefix (tail prefix : string) (dp : DataAttribs)
    : DataAttribs :=
  mkDA (da_src dp) (da_dsr dp) (da_stx dp) (da_stx_v dp) (da_startTagSrc dp)
       (da_endTagSrc dp) (da_attrSepSrc dp) (da_autoInsertedStart dp)
       (da_autoInsertedEnd dp) (da_selfClose dp) (da_noClose dp)
       (da_strippedNL dp) (da_extra_dashes dp) (da_lineContent dp)
       (da_magicSrc dp) (da_srcTagName dp) (da_a dp) (da_sa dp)
       (Some tail) (Some prefix) (da_pipetrick dp) (da_optionList dp)
       (da_optNames dp) (da_srcContent dp).

Definition write_tail_prefix (node : nat) (parts : ContentParts) : M unit :=
  modifyDom (DOM.update node (fun nd =>
    set_data_parsoid
      (set_tail_prefix (cp_tail parts) (cp_prefix parts) <$> data_parsoid nd)
      nd)).

Definition is_wikilink_type (type : string) : bool :=
  bool_decide (type ∈ ["mw:WikiLink"; "mw:WikiLink/Category";
                       "mw:WikiLink/Language"; "mw:WikiLink/Interwiki"]).

(** The wikilink branch of [linkHandler]; [value] is [target.value]. *)
Definition wikiLink (node : nat) (cb : ChunkCB) (dp : DataAttribs)
    (linkData : LinkData) (type value : string) : M unit :=
  let target := lk_target linkData in
  _ ← modifySer (set_onStartOfLine false);
  let value := if si_fromsrc target then value else decodeURI value in
  (* category links: target and sort key *)
  '(value, cstring, cnodes, fromsrc, tail, prefix) ←
    ((if bool_decide (type = "mw:WikiLink/Category") then
       '(value, cstring, tail, prefix) ←
         match JS.match_sortkey value
               return M (string * option string * string * string) with
         | Some (t1, t2) =>
             let contentParts :=
               splitLinkContentString
                 (JS.replace_all "%20" " "
                    (JS.replace_all "%23" "#" (decodeURI t2))) dp in
             _ ← write_tail_prefix node contentParts;
             mret (JS.replace_char "_" " " (JS.strip_dot_slash t1),
                   Some (cp_contentString contentParts),
                   cp_tail contentParts, cp_prefix contentParts)
         | None =>
             mret (value,
                   if da_pipetrick dp then Some "" else Some value,
                   lk_tail linkData, lk_prefix linkData)
         end;
       state ← getSer;
       nd ← node_of node;
       match si_value (nodeShadowInfo nd "mw:sortKey" (tplAttrs state)) with
       | Some sortKey => mret (value, Some sortKey, false, true, tail, prefix)
       | None =>
           mret (value, cstring, lk_content_nodes linkData, false, tail,
                 prefix)
       end
     else if bool_decide (type = "mw:WikiLink/Language") then
       mret (value,
             match lk_content_string linkData with
             | None => Some value
             | c => c
             end,
             lk_content_nodes linkData, false, lk_tail linkData,
             lk_prefix linkData)
     else
       mret (value, lk_content_string linkData, lk_content_nodes linkData,
             false, lk_tail linkData, lk_prefix linkData))
     : M (string * option string * bool * bool * string * string));
  nd ← node_of node;
  dp ← liftO (data_parsoid nd);
  let href := lk_href linkData in
  let canUseSimple :=
    match cstring with
    | Some c =>
        (bool_decide (c = value) || bool_decide (c = href)
         || bool_decide (normalizeTitle c true = decodeURI value)
         || bool_decide (normalizeTitle c false = decodeURI href)
         || bool_decide (href = c))
        && negb (negb (si_modified target)
                 && (str_eq (da_stx dp) "piped" || da_pipetrick dp))
    | None => false
    end in
  let canUsePipeTrick :=
    match cstring with
    | Some c =>
        negb (bool_decide (type = "mw:WikiLink/Category"))
        && (bool_decide (stripPipeTrickChars value = c)
            || bool_decide (stripPipeTrickChars href = c)
            || bool_decide
                 (normalizeTitle (stripPipeTrickChars (decodeURI value)) false
                  = normalizeTitle c false)
            || bool_decide
                 (normalizeTitle (stripPipeTrickChars (decodeURI href)) false
                  = normalizeTitle c false))
    | None => false
    end in
  let willUsePipeTrick := canUsePipeTrick && da_pipetrick dp in
  if canUseSimple then
    if negb (si_modified target)
    then callback cb (prefix +:+ "[[" +:+ value +:+ "]]" +:+ tail) None
    else
      state ← getSer;
      '(contentSrc, state) ←
        liftO (escapeWikiLinkContentString (default "" cstring) state);
      _ ← modifySer (fun _ => state);
      callback cb (prefix +:+ "[[" +:+ contentSrc +:+ "]]" +:+ tail) None
  else
    '(contentSrc, tail, prefix) ←
      ((if cnodes : bool then
         contentSrc ← serializeChildrenToString node (Some WteWikilink);
         nd ← node_of node;
         dp ← liftO (data_parsoid nd);
         let contentParts := splitLinkContentString contentSrc dp in
         _ ← write_tail_prefix node contentParts;
         mret (cp_contentString contentParts, cp_tail contentParts,
               cp_prefix contentParts)
       else if negb willUsePipeTrick then
         if fromsrc : bool then mret (default "" cstring, tail, prefix)
         else
           state ← getSer;
           '(contentSrc, state) ←
             liftO (escapeWikiLinkContentString (JS.or_else cstring "") state);
           _ ← modifySer (fun _ => state);
           mret (contentSrc, tail, prefix)
       else mret ("", tail, prefix))
       : M (string * string * string));
    let contentSrc :=
      if bool_decide (contentSrc = "") && negb willUsePipeTrick
         && negb (bool_decide (type = "mw:WikiLink/Category"))
      then "<nowiki/>" else contentSrc in
    callback cb
      (prefix +:+ "[[" +:+ value +:+ "|" +:+ contentSrc +:+ "]]" +:+ tail)
      None.

Definition linkHandler (node : nat) (cb : ChunkCB) : M unit :=
  dp ← data_parsoid_of node;
  s ← getDom;
  let rel := JS.or_else (DOM.getAttribute s node "rel") "" in
  linkData ← getLinkRoundTripData node;
  match lk_type linkData, si_value (lk_target linkData) with
  | Some type, Some value =>
      let target := lk_target linkData in
      if is_wikilink_type type then wikiLink node cb dp linkData type value
      else if bool_decide (rel = "mw:ExtLink") then
        let value := if si_modified target then encodeURI value else value in
        _ ← modifySer (set_onStartOfLine false);
        content ← serializeChildrenToString node (Some WteA);
        callback cb ("[" +:+ value +:+ " " +:+ content +:+ "]") None
      else if JS.magic_extlink rel then
        s ← getDom;
        fc ← liftO (DOM.firstChild s node);
        fcNode ← node_of fc;
        callback cb (data fcNode) None
      else if bool_decide (rel = "mw:ExtLink/URL") then callback cb value None
      else if bool_decide (rel = "mw:ExtLink/Numbered")
      then callback cb ("[" +:+ tokensToString value +:+ "]") None
      else if bool_decide (rel = "mw:Image") then
        match da_src dp with
        | Some (String _ _ as src) => callback cb src None
        | _ => mret tt
        end
      else htmlElementHandler node cb
  | _, _ => htmlElementHandler node cb
  end.

(** What [getDOMHandler] returns when it returns a handler: one that
    hands a text to the callback [getDOMHandler] was given, the link
    handler, or the figure handler. *)
Inductive DomHandler :=
| EmitHandler (cb : ChunkCB) (text : string)
| LinkHandler
| FigureHandler.

Definition getDOMHandler (node : nat) (cb : ChunkCB)
    : M (option DomHandler) :=
  nd ← node_of node;
  dp ← liftO (data_parsoid nd);
  s ← getDom;
  let nodeName := lower_name nd in
  let nodeTypeOf := JS.or_else (DOM.getAttribute s node "typeof") "" in
  early ←
    match da_src dp with
    | Some src =>
        if bool_decide (nodeTypeOf = "mw:TemplateSource")
           || bool_decide (nodeTypeOf = "mw:Placeholder")
        then mret (Some (EmitHandler cb src))
        else if bool_decide (nodeTypeOf = "mw:Entity") then
          contentSrc ← serializeChildrenToString node None;
          mret (Some (EmitHandler cb
                        (if bool_decide (Some contentSrc = da_srcContent dp)
                         then src else contentSrc)))
        else mret None
    | None => mret None
    end;
  match early with
  | Some h => mret (Some h)
  | None =>
      if bool_decide (nodeName = "span")
         && bool_decide (nodeTypeOf = "mw:Image")
      then
        _ ← modifyDom (DOM.setAttribute node "rel" "mw:Image");
        _ ← modifyDom (DOM.setAttribute node "href" "");
        mret (Some LinkHandler)
      else
        inherited ←
          (if str_eq (da_stx dp) "html" then mret true
           else if bool_decide (rt_attr nd = None)
                   && negb (bool_decide (nodeName = "meta"))
           then
             match parentNode nd with
             | Some parent =>
                 pdp ← data_parsoid_of parent;
                 mret (str_eq (da_stx pdp) "html")
             | None => mret false
             end
           else mret false);
        if inherited : bool then mret None
        else if bool_decide (nodeName = "figure") then mret (Some FigureHandler)
        else if bool_decide (nodeName = "a") || bool_decide (nodeName = "link")
        then mret (Some LinkHandler)
        else mret None
  end.

(** [domHandler.handle(state, node, cb)] *)
Definition run_domHandler (h : DomHandler) (node : nat) (cb : ChunkCB)
    : M unit :=
  match h with
  | EmitHandler cb0 text => callback cb0 text None
  | LinkHandler => linkHandler node cb
  | FigureHandler => figureHandler node cb
  end.

End Handlers.

(** *** The preprocessor *)

Definition _getDOMRTInfo (nd : Node) : DataAttribs :=
  default emptyDA (rt_attr nd).

Definition ignoreAttribs (k : string) : bool :=
  bool_decide (k ∈ ["data-parsoid"; "data-ve-changed"; "data-parsoid-changed";
                    "dtaa-parsoid-diff"; "data-parsoid-serialize"]).

Definition _getDOMAttribs (attribs : list (string * string)) : list KV :=
  (fun a => mkKV a.1 a.2) <$> filter (fun a => negb (ignoreAttribs a.1)) attribs.

(** [obj[key] = value] where the value may be [undefined]. *)
Definition assign (key : string) (value : option string)
    (m : gmap string string) : gmap string string :=
  match value with
  | Some v => <[key := v]> m
  | None => delete key m
  end.

(** [setupSeparator] of [preprocessDOM] *)
Definition setupSeparator (nodeA nodeB : option nat) (sepNodes : list nat)
    (sepText : list string) : M unit :=
  _ ← liftO (match nodeA with Some a => Some a | None => nodeB end);
  s ← getDom;
  let (s, sepMeta) := DOM.createElement "META" s in
  _ ← modifyDom (fun _ => s);
  _ ← modifyDom (DOM.setAttribute sepMeta "typeof" "mw:Separator");
  _ ← modifyDom (DOM.setAttribute sepMeta "data-sep" (join "" sepText));
  _ ← match nodeA with
      | Some a =>
          an ← node_of a;
          parent ← liftO (parentNode an);
          s ← getDom;
          liftD (DOM.insertBefore parent sepMeta (DOM.nextSibling s a))
      | None =>
          b ← liftO nodeB;
          bn ← node_of b;
          parent ← liftO (parentNode bn);
          s ← getDom;
          liftD (DOM.insertBefore parent sepMeta (DOM.previousSibling s b))
      end;
  (fix remove (l : list nat) : M unit :=
     match l with
     | [] => mret tt
     | n :: l =>
         nd ← node_of n;
         parent ← liftO (parentNode nd);
         _ ← liftD (DOM.removeChild parent n);
         remove l
     end) sepNodes.

(** The [meta] branch of [preprocessDOM]: template-generated attribute
    sources go to [state.tplAttrs]. *)
Definition collectTplAttr (node : nat) : M unit :=
  s ← getDom;
  nd ← node_of node;
  match DOM.getAttribute s node "property" with
  | Some (String _ _ as prop) =>
      if JS.includes "mw:objectAttr" prop then
        let templateId := JS.or_else (DOM.getAttribute s node "about") "" in
        let src := da_src (_getDOMRTInfo nd) in
        let (piece0, piece1) := JS.split_hash prop in
        let attr := default "undefined" piece1 in
        modifySer (fun state =>
          let tpl := default emptyTplAttrState (tplAttrs state !! templateId) in
          let tpl :=
            if bool_decide (piece0 = "mw:objectAttr")
            then mkTplAttrState (assign attr src (kvs tpl)) (ks tpl) (vs tpl)
            else if bool_decide (piece0 = "mw:objectAttrKey")
            then mkTplAttrState (kvs tpl) (assign attr src (ks tpl)) (vs tpl)
            else mkTplAttrState (kvs tpl) (ks tpl) (assign attr src (vs tpl)) in
          set_tplAttrs (<[templateId := tpl]> (tplAttrs state)) state)
      else mret tt
  | _ => mret tt
  end.

(** The inner loop of the first pass: the text nodes that follow a text
    node are folded into [buf] and removed.  It returns [buf] and the
    first sibling that is not a text node. *)
Fixpoint mergeText (fuel : nat) (node : nat) (next : option nat)
    (buf : list string) : M (list string * option nat) :=
  match next with
  | None => mret (buf, next)
  | Some nx =>
      nn ← node_of nx;
      if bool_decide (nodeType nn = TEXT_NODE) then
        match fuel with
        | O => nofuel
        | S fuel =>
            s ← getDom;
            let nextnext := DOM.nextSibling s nx in
            _ ← liftD (DOM.removeChild node nx);
            mergeText fuel node nextnext (buf ++ [data nn])
        end
      else mret (buf, next)
  end.

(** The state of the second pass of [preprocessDOM]. *)
Record SepScan := mkSepScan {
  prevSentinel : option nat;
  waitForSentinel : bool;
  sepNodes : list nat;
  sepText : list string
}.

(** One turn of the second pass on a child that is not an empty text
    node; [prev] is what the first pass left in [prev]. *)
Definition separatorStep (node child : nat) (next prev : option nat)
    (haveOrigSrc : bool) (sc : SepScan) : M SepScan :=
  cn ← node_of child;
  s ← getDom;
  if negb haveOrigSrc then
    _ ← (if bool_decide (nodeType cn = TEXT_NODE) then
           let str := data cn in
           _ ← (if JS.ends_nl str
                   && match next with
                      | Some nx => isBlockNode s nx
                      | None => true
                      end
                then modifyDom (DOM.update child
                       (set_data (JS.strip_trailing_nls str)))
                else mret tt);
           if JS.first_is (fun c => JS.ch c JS.LF) str
              && match prev with
                 | Some pv => isBlockNode s pv
                 | None => true
                 end
           then modifyDom (DOM.update child
                  (set_data (JS.strip_leading_nls str)))
           else mret tt
         else mret tt);
    mret sc
  else
    match nodeType cn with
    | TEXT_NODE =>
        if negb (waitForSentinel sc) && JS.all_space1 (data cn)
        then mret (mkSepScan (prevSentinel sc) (waitForSentinel sc)
                     (sepNodes sc ++ [child]) (sepText sc ++ [data cn]))
        else mret (mkSepScan None true (sepNodes sc) (sepText sc))
    | COMMENT_NODE =>
        if negb (waitForSentinel sc)
        then mret (mkSepScan (prevSentinel sc) (waitForSentinel sc)
                     (sepNodes sc ++ [child])
                     (sepText sc ++ ["<!--"; data cn; "-->"]))
        else mret sc
    | ELEMENT_NODE =>
        if negb (waitForSentinel sc) && isMarkerMeta s child "mw:DiffMarker"
        then
          _ ← liftD (DOM.insertBefore node child
                       (match prevSentinel sc with
                        | Some ps => DOM.nextSibling s ps
                        | None => DOM.firstChild s node
                        end));
          mret (mkSepScan (Some child) (waitForSentinel sc) (sepNodes sc)
                  (sepText sc))
        else
          _ ← (if negb (waitForSentinel sc)
                  && negb (bool_decide (sepNodes sc = []))
               then setupSeparator (prevSentinel sc) (Some child)
                      (sepNodes sc) (sepText sc)
               else mret tt);
          mret (mkSepScan (Some child) false [] [])
    end.

(** The second pass: [while (child)] over the children of [node]. *)
Fixpoint separatorPass (fuel : nat) (node : nat) (child prev : option nat)
    (haveOrigSrc : bool) (sc : SepScan) : M SepScan :=
  match child with
  | None => mret sc
  | Some c =>
      match fuel with
      | O => nofuel
      | S fuel =>
          cn ← node_of c;
          s ← getDom;
          let next := DOM.nextSibling s c in
          if bool_decide (nodeType cn = TEXT_NODE)
             && bool_decide (data cn = "")
          then
            _ ← liftD (DOM.removeChild node c);
            separatorPass fuel node next prev haveOrigSrc sc
          else
            sc ← separatorStep node c next prev haveOrigSrc sc;
            separatorPass fuel node next prev haveOrigSrc sc
      end
  end.

(** [preprocessDOM(node, state, inPre, haveOrigSrc)] *)
Fixpoint preprocessDOM (fuel : nat) (node : nat) (inPre haveOrigSrc : bool)
    : M unit :=
  match fuel with
  | O => nofuel
  | S fuel =>
      nd ← node_of node;
      if bool_decide (lower_name nd = "meta") then collectTplAttr node
      else
        s ← getDom;
        (* first pass: recursion, text nodes coalesced, empty ones removed *)
        prev ←
          (fix children (n : nat) (child prev : option nat)
             : M (option nat) :=
             match child with
             | None => mret prev
             | Some c =>
                 match n with
                 | O => nofuel
                 | S n =>
                     s ← getDom;
                     let next := DOM.nextSibling s c in
                     let prev := DOM.previousSibling s c in
                     let childIsPre := hasNodeName s c "pre" in
                     _ ← preprocessDOM fuel c (inPre || childIsPre)
                           haveOrigSrc;
                     cn ← node_of c;
                     next ←
                       (if bool_decide (nodeType cn = TEXT_NODE) then
                          '(buf, next) ← mergeText fuel node next [data cn];
                          _ ← (if 1 <? Z.of_nat (length buf)
                               then modifyDom (DOM.update c
                                      (set_data (join "" buf)))
                               else mret tt);
                          cn ← node_of c;
                          _ ← (if bool_decide (data cn = "")
                               then liftD (DOM.removeChild node c)
                               else mret tt);
                          mret next
                        else mret next);
                     children n next prev
                 end
             end) fuel (DOM.firstChild s node) None;
        s ← getDom;
        if negb inPre && negb (isNodeOfType s node "span" "mw:Entity")
           && (negb haveOrigSrc || hasElementChild s node)
        then
          sc ← separatorPass fuel node (DOM.firstChild s node) prev
                 haveOrigSrc (mkSepScan None false [] []);
          match prevSentinel sc with
          | Some _ =>
              if negb (bool_decide (sepNodes sc = []))
              then setupSeparator (prevSentinel sc) None (sepNodes sc)
                     (sepText sc)
              else mret tt
          | None => mret tt
          end
        else mret tt
  end.

(** *** The DOM walker *)

Fixpoint firstBlockNodeAncestor (fuel : nat) (s : Store) (node : nat)
    : Res nat :=
  match fuel with
  | O => NoFuel
  | S fuel =>
      match s !! node with
      | None => Throw
      | Some nd =>
          if isHtmlBlockTag (lower_name nd) then Ok node
          else
            match parentNode nd with
            | Some parent => firstBlockNodeAncestor fuel s parent
            | None => Throw
            end
      end
  end.

Fixpoint gatherInlineText (fuel : nat) (s : Store) (buf : list string)
    (node : nat) : Res (list string) :=
  match fuel with
  | O => NoFuel
  | S fuel =>
      match s !! node with
      | None => Throw
      | Some nd =>
          match nodeType nd with
          | ELEMENT_NODE =>
              if isHtmlBlockTag (lower_name nd) then Ok buf
              else
                (fix each (cs : list nat) (buf : list string)
                   : Res (list string) :=
                   match cs with
                   | [] => Ok buf
                   | c :: cs =>
                       match gatherInlineText fuel s buf c with
                       | Ok buf => each cs buf
                       | r => r
                       end
                   end) (childNodes nd) buf
          | COMMENT_NODE => Ok (buf ++ ["<--" +:+ data nd +:+ "-->"])
          | TEXT_NODE => Ok (buf ++ [data nd])
          end
      end
  end.

Definition liftR {A} (r : Res A) : M A := fun w => (r, w).

(** The text-node case: the first text of a block gathers the inline
    text of that block into [currLine]. *)
Definition serializeText (fuel : nat) (node : nat) : M unit :=
  nd ← node_of node;
  state ← getSer;
  _ ← match cl_text (currLine state) with
      | None =>
          s ← getDom;
          bn ← liftR (firstBlockNodeAncestor fuel s node);
          bnNode ← node_of bn;
          buf ←
            liftR
              ((fix each (cs : list nat) (buf : list string)
                  : Res (list string) :=
                  match cs with
                  | [] => Ok buf
                  | c :: cs =>
                      match gatherInlineText fuel s buf c with
                      | Ok buf => each cs buf
                      | r => r
                      end
                  end) (childNodes bnNode) []);
          modifySer (fun state =>
            let cl := currLine state in
            set_currLine
              (mkCurrLine (Some (join "" buf))
                 (Some (Z.of_nat (length (childNodes bnNode))))
                 (cl_processed cl) (cl_hasBracketPair cl)
                 (cl_hasHeadingPair cl)) state)
      | Some _ => mret tt
      end;
  liftS (fun state => _serializeToken state (Str (data nd))).

(** The patch of an html-syntax [pre]: a leading newline of its first
    text child is doubled; otherwise a stripped newline is put back. *)
Definition patchHtmlPre (node : nat) (tkRTInfo : DataAttribs) : M unit :=
  s ← getDom;
  let fc := DOM.firstChild s node in
  fcText ←
    match fc with
    | Some f =>
        fn ← node_of f;
        mret (if bool_decide (nodeType fn = TEXT_NODE) then Some (f, data fn)
              else None)
    | None => mret None
    end;
  modified ←
    match fcText with
    | Some (f, text) =>
        match JS.leading_newline text with
        | Some nl =>
            _ ← modifyDom (DOM.update f (fun fn => set_data (nl +:+ data fn) fn));
            mret true
        | None => mret false
        end
    | None => mret false
    end;
  match da_strippedNL tkRTInfo with
  | Some (String _ _ as strippedNL) =>
      if modified : bool then mret tt
      else
        match fcText with
        | Some (f, _) =>
            modifyDom (DOM.update f
              (fun fn => set_data (strippedNL +:+ data fn) fn))
        | None =>
            s ← getDom;
            let (s, t) := DOM.createTextNode strippedNL s in
            _ ← modifyDom (fun _ => s);
            liftD (DOM.insertBefore node t fc)
        end
  | _ => mret tt
  end.

(** [state.emitSeparator(n1, n2, sepType)] on nodes of the store. *)
Definition emitSeparatorAt (n1 n2 : nat) (sepType : SepType) : M unit :=
  nd1 ← node_of n1;
  nd2 ← node_of n2;
  modifySer (emitSeparator (dataParsoid nd1) (dataParsoid nd2) sepType).

Section Walker.

Variable recur : nat -> M unit.

(** The loop of the token-based path over [children = node.childNodes],
    with [prevEltChild]. *)
Fixpoint walkChildren (node : nat) (i count : nat)
    (prevEltChild : option nat) : M (option nat) :=
  match count with
  | O => mret prevEltChild
  | S count =>
      s ← getDom;
      child ← liftO (child_at s node i);
      cn ← node_of child;
      if isMarkerMeta s child "mw:Separator"
      then walkChildren node (S i) count prevEltChild
      else
        state ← getSer;
        prevEltChild ←
          (if negb (bool_decide (nodeType cn = COMMENT_NODE))
              && negb (bool_decide (nodeType cn = TEXT_NODE)
                       && JS.all_space (data cn))
              && negb (bool_decide (nodeType cn = ELEMENT_NODE)
                       && JS.truthy (activeTemplateId state)
                       && bool_decide (activeTemplateId state
                                       = DOM.getAttribute s child "about"))
           then
             _ ← (if bool_decide (nodeType cn = ELEMENT_NODE) then
                    match prevEltChild with
                    | None =>
                        if negb (hasNodeName s node "pre")
                        then emitSeparatorAt node child START_SEP
                        else mret tt
                    | Some pe =>
                        pn ← node_of pe;
                        if bool_decide (nodeType pn = ELEMENT_NODE)
                           && negb (hasNodeName s node "pre")
                        then emitSeparatorAt pe child IE_SEP
                        else mret tt
                    end
                  else mret tt);
             mret (Some child)
           else mret prevEltChild);
        _ ← recur child;
        walkChildren node (S i) count prevEltChild
  end.

(** The element case of [_serializeDOM] once template content has been
    ruled out. *)
Definition serializeElement (node : nat) : M unit :=
  nd ← node_of node;
  let nodeName := lower_name nd in
  let tkAttribs := _getDOMAttribs (attributes nd) in
  let tkRTInfo := _getDOMRTInfo nd in
  (* [state.parentST1X]: no such property *)
  let parentSTX : option string := None in
  _ ← modifyDom (DOM.update node
         (fun nd => set_data_parsoid (loadDataParsoid nd) nd));
  _ ← (if isHtmlBlockTag nodeName
       then modifySer (set_currLine
              (mkCurrLine None (Some 0) false false false))
       else mret tt);
  s ← getDom;
  tailSrc ←
    (if bool_decide (nodeName = "a")
        && str_eq (DOM.getAttribute s node "rel") "mw:WikiLink"
     then
       let dp := _getDOMRTInfo nd in
       match DOM.nextSibling s node with
       | Some nx =>
           nn ← node_of nx;
           mret (if negb (str_eq (da_stx dp) "html")
                    && negb (JS.truthy (da_tail dp))
                    && bool_decide (nodeType nn = TEXT_NODE)
                    && JS.first_is JS.is_lower (data nn)
                 then "<nowiki/>" else "")
       | None => mret ""
       end
     else mret "");
  _ ← (if bool_decide (nodeName = "pre") && str_eq (da_stx tkRTInfo) "html"
       then patchHtmlPre node tkRTInfo
       else mret tt);
  state ← getSer;
  serializeInfo ←
    match selser_serializeInfo state with
    | None =>
        nd ← node_of node;
        let serializeInfo := parsoidSerialize nd in
        _ ← modifySer (set_selser_serializeInfo serializeInfo);
        _ ← modifySer (call_chunkCB "" serializeInfo);
        mret serializeInfo
    | Some _ => mret None
    end;
  state ← getSer;
  domHandler ← getDOMHandler recur node (chunkCB state);
  _ ← match domHandler with
      | Some domHandler =>
          state ← getSer;
          let cbWrapper := WrapCB (chunkCB state) in
          _ ← run_domHandler recur domHandler node cbWrapper;
          let tok := Some (EndTagTk nodeName tkAttribs tkRTInfo) in
          modifySer (fun state =>
            set_prevTagToken tok
              (set_currTagToken tok (set_prevToken tok (set_curToken tok state))))
      | None =>
          _ ← liftS (fun state =>
                 _serializeToken state (TagTk nodeName tkAttribs tkRTInfo));
          _ ← (if negb (bool_decide (tkRTInfo = emptyDA))
                  || bool_decide (nodeName ∈ ["table"; "ul"; "ol"; "dl"])
                  || negb (bool_decide
                             (nodeName ∈ ["tbody"; "tr"; "td"; "li"; "dd"; "dt"]))
               then
                 if bool_decide (nodeName = "p") || negb (isBlockTag nodeName)
                 then modifySer (set_parentSTX None)
                 else modifySer (set_parentSTX (da_stx tkRTInfo))
               else mret tt);
          state ← getSer;
          let oldPrevToken := prevToken state in
          let oldPrevTagToken := prevTagToken state in
          _ ← modifySer (fun state =>
                 set_prevTagToken None (set_prevToken None state));
          n ← childCount node;
          prevEltChild ← walkChildren node 0 n None;
          s ← getDom;
          _ ← match prevEltChild with
              | Some pe =>
                  pn ← node_of pe;
                  if bool_decide (nodeType pn = ELEMENT_NODE)
                     && negb (hasNodeName s node "pre")
                  then emitSeparatorAt pe node END_SEP
                  else mret tt
              | None => mret tt
              end;
          _ ← modifySer (fun state =>
                 set_parentSTX parentSTX
                   (set_prevToken oldPrevToken
                      (set_prevTagToken oldPrevTagToken state)));
          _ ← liftS (fun state =>
                 _serializeToken state (EndTagTk nodeName tkAttribs tkRTInfo));
          if JS.truthy (Some tailSrc)
          then modifySer (fun state =>
                 call_chunkCB tailSrc (selser_serializeInfo state) state)
          else mret tt
      end;
  match serializeInfo with
  | Some _ => modifySer (set_selser_serializeInfo None)
  | None => mret tt
  end.

(** The body of [_serializeDOM(node, state)]. *)
Definition serializeNode (fuel : nat) (node : nat) : M unit :=
  nd ← node_of node;
  s ← getDom;
  state ← getSer;
  match nodeType nd with
  | ELEMENT_NODE =>
      if JS.truthy (activeTemplateId state)
         && bool_decide (activeTemplateId state
                         = DOM.getAttribute s node "about")
      then mret tt
      else
        _ ← modifySer (set_activeTemplateId None);
        match DOM.getAttribute s node "typeof" with
        | Some (String _ _ as typeofVal) =>
            if JS.object_typeof typeofVal then
              _ ← modifySer (set_activeTemplateId
                     (Some (JS.or_else (DOM.getAttribute s node "about") "")));
              let dps := DOM.getAttribute s node "data-parsoid-serialize" in
              let attrs :=
                mkKV "typeof" "mw:TemplateSource" ::
                match dps with
                | Some (String _ _ as d) => [mkKV "data-parsoid-serialize" d]
                | _ => []
                end in
              let dummyToken :=
                SelfclosingTagTk "meta" attrs
                  (mkDA (da_src (_getDOMRTInfo nd)) None None None None None
                        None false false false false None None false None None
                        None None None None false None None None) in
              _ ← (if JS.truthy dps
                   then modifySer (set_selser_serializeInfo dps)
                   else mret tt);
              liftS (fun state => _serializeToken state dummyToken)
            else serializeElement node
        | _ => serializeElement node
        end
  | TEXT_NODE =>
      _ ← modifySer (set_activeTemplateId None);
      serializeText fuel node
  | COMMENT_NODE =>
      liftS (fun state => _serializeToken state (CommentTk (data nd)))
  end.

End Walker.

(** [_serializeDOM(node, state)] *)
Fixpoint _serializeDOM (fuel : nat) (node : nat) : M unit :=
  match fuel with
  | O => nofuel
  | S fuel => serializeNode (_serializeDOM fuel) fuel node
  end.

(** [serializeDOM(node, chunkCB, finalCB, selser)] on the store [s] of
    the caller, for an environment whose [page.src] is [page_src].
    [selser] is the [serializeInfo] of the selser argument, [None] when
    the argument is [undefined].  The result is the outcome ([Ok] with
    the final state, or the exception rethrown after [errCB]) and the
    world the call leaves behind. *)
Definition serializeDOM (fuel : nat) (page_src : option string)
    (selser : option (option string)) (node : nat) (s : Store)
    : Res unit * World :=
  let state := set_env_page_src page_src initialState in
  (node ←
     match selser with
     | None =>
         s ← getDom;
         match DOM.cloneNode fuel node s with
         | Ok (s, node) => _ ← modifyDom (fun _ => s); mret node
         | Throw => throw
         | NoFuel => nofuel
         end
     | Some info => _ ← modifySer (set_selser_serializeInfo info); mret node
     end;
   _ ← preprocessDOM fuel node false (JS.truthy page_src);
   _ ← _serializeDOM fuel node;
   liftS (fun state => _serializeToken state EOFTk))
    (mkWorld s state).

(** *** Separator constraints *)

(** What a [sepNls] handler returns: [{min: .., max: ..}], where either
    bound may be missing. *)
Record NlRange := mkNlRange {
  nl_min : option Z;
  nl_max : option Z
}.

(** The [constraints] object of [getSepConstraints]. *)
Record SepConstraints := mkSepConstraints {
  sc_a : NlRange;
  sc_b : NlRange;
  sc_min : option Z;
  sc_max : option Z
}.

(** [getSepConstraints(nodeA, sepNlsHandlerA, nodeB, sepNlsHandlerB)];
    [None] is the [null] returned on a conflict. *)
Definition getSepConstraints (nodeA : nat)
    (sepNlsHandlerA : option (nat -> NlRange)) (nodeB : nat)
    (sepNlsHandlerB : option (nat -> NlRange)) : option SepConstraints :=
  let constraints :=
    mkSepConstraints (mkNlRange None None) (mkNlRange None None) None None in
  let constraints :=
    match sepNlsHandlerA with
    | Some h =>
        let a := h nodeB in
        mkSepConstraints a (sc_b constraints) (nl_min a) (nl_max a)
    | None => constraints
    end in
  match sepNlsHandlerB with
  | Some h =>
      let cb := h nodeA in
      let constraints :=
        mkSepConstraints (sc_a constraints) cb (sc_min constraints)
                         (sc_max constraints) in
      constraints ←
        match nl_min cb with
        | Some cb_min =>
            if match sc_max constraints with
               | Some max => max <? cb_min
               | None => false
               end
            then None
            else Some (mkSepConstraints (sc_a constraints) (sc_b constraints)
                         (Some (Z.max (default 0 (sc_min constraints)) cb_min))
                         (sc_max constraints))
        | None => Some constraints
        end;
      match nl_max cb with
      | Some cb_max =>
          if match sc_min constraints with
             | Some min => cb_max <? min
             | None => false
             end
          then None
          else
            match sc_max constraints with
            | Some max =>
                Some (mkSepConstraints (sc_a constraints) (sc_b constraints)
                        (sc_min constraints) (Some (Z.min max cb_max)))
            | None =>
                Some (mkSepConstraints (sc_a constraints) (sc_b constraints)
                        (sc_min constraints) (Some cb_max))
            end
      | None => Some constraints
      end
  | None => Some constraints
  end.

End WSP.
End WSP.

(** ** A concrete set of collaborators

    Used to run the model on concrete inputs.  Attribute lookups take
    the first entry with the key; no entity needs escaping and the
    tokenizer sees plain text. *)

Definition first_kv (l : list KV) (key : string) : option string :=
  kv_v <$> List.find (fun kv => bool_decide (kv_k kv = key)) l.

Definition node_attr (nd : Node) (key : string) : option string :=
  snd <$> List.find (fun a => bool_decide (a.1 = key)) (attributes nd).

Definition plainLib : Lib := {|
  escapeEntities := fun s => s;
  isVoidElement := fun n => bool_decide (n ∈ ["br"; "hr"; "img"; "meta"]);
  isBlockTag := fun n =>
    bool_decide (n ∈ ["div"; "p"; "table"; "ul"; "ol"; "dl"; "li"; "pre";
                      "h1"; "h2"; "h3"; "h4"; "h5"; "h6"; "figure"]);
  KVtoHash := first_kv;
  Util_lookup := first_kv;
  lookupKV := fun l key => bool_decide (is_Some (first_kv l key));
  getAttributeShadowInfo := fun t key => default "" (first_kv (attribs t) key);
  processSync := fun text => [Str text];
  tokenizeURL := fun _ => false;
  tagWhiteList := fun _ => true;
  noEndTagHash := fun _ => false;
  toLowerCase := fun s => s;
  isElt := fun s n =>
    match s !! n with
    | Some nd => bool_decide (nodeType nd = ELEMENT_NODE)
    | None => false
    end;
  hasNodeName := fun s n nm =>
    match s !! n with
    | Some nd => bool_decide (nodeName nd = nm)
    | None => false
    end;
  isNodeOfType := fun s n nm ty =>
    match s !! n with
    | Some nd => bool_decide (nodeName nd = nm)
                 && bool_decide (node_attr nd "typeof" = Some ty)
    | None => false
    end;
  hasElementChild := fun s n =>
    match s !! n with
    | Some nd =>
        existsb (fun c =>
          match s !! c with
          | Some cn => bool_decide (nodeType cn = ELEMENT_NODE)
          | None => false
          end) (childNodes nd)
    | None => false
    end;
  isBlockNode := fun s n =>
    match s !! n with
    | Some nd => bool_decide (nodeType nd = ELEMENT_NODE)
                 && bool_decide (nodeName nd ∈ ["div"; "p"; "table"; "ul"])
    | None => false
    end;
  isMarkerMeta := fun s n ty =>
    match s !! n with
    | Some nd => bool_decide (nodeName nd = "meta")
                 && bool_decide (node_attr nd "typeof" = Some ty)
    | None => false
    end;
  loadDataParsoid := fun nd =>
    match data_parsoid nd with
    | Some dp => Some dp
    | None => Some (default emptyDA (rt_attr nd))
    end;
  parsoidSerialize := fun nd => node_attr nd "data-parsoid-serialize";
  dataParsoid := fun nd =>
    default (default emptyDA (rt_attr nd)) (data_parsoid nd);
  getAttributeKVArray := fun nd => (fun a => mkKV a.1 a.2) <$> attributes nd;
  nodeShadowInfo := fun nd key _ =>
    mkShadowInfo (node_attr nd key) false false None;
  normalizeTitle := fun s _ => s;
  decodeURI := fun s => s;
  encodeURI := fun s => s;
  stripPipeTrickChars := fun s => s;
  stripSuffix := fun s suffix =>
    if JS.endsWith suffix s
    then JS.take (String.length s - String.length suffix) s else s;
  tokensToString := fun s => s;
  simpleImgOptions := fun _ => None;
  prefixImgOptionsRM := fun _ => None;
  replaceInterpolatedMagicWord := fun _ v => default "" v
|}.

(** ** The web service ([ParserService.js]) *)

Module Service.

(** [htmlSpecialChars(s)] *)
Definition htmlSpecialChars (s : string) : string :=
  JS.replace_all "'" "&#039;"
    (JS.replace_all JS.QUOT "&quot;"
       (JS.replace_all "<" "&lt;" (JS.replace_all "&" "&amp;" s))).

(** An entry of a diff as jsDiff makes them. *)
Record Change := mkChange {
  value : string;
  added : bool;
  removed : bool
}.

Definition set_value (v : string) (d : Change) : Change :=
  mkChange v (added d) (removed d).

(** [newDiffs.push(c)] when [c] is not [null]. *)
Definition purge (c : option Change) (newDiffs : list Change)
    : list Change :=
  match c with
  | Some c => newDiffs ++ [c]
  | None => newDiffs
  end.

(** [currIns.value = currIns.value + dVal], or [currIns = d] when
    nothing is accumulated yet. *)
Definition accumulate (curr : option Change) (d : Change) : option Change :=
  match curr with
  | None => Some d
  | Some c => Some (set_value (value c +:+ value d) c)
  end.

(** The loop of [mergeConsecutiveSegments], and the purge after it. *)
Fixpoint mergeLoop (wordDiffs : list Change) (currIns currDel : option Change)
    (newDiffs : list Change) : list Change :=
  match wordDiffs with
  | [] => purge currDel (purge currIns newDiffs)
  | d :: rest =>
      let dVal := value d in
      if added d then mergeLoop rest (accumulate currIns d) currDel newDiffs
      else if removed d
      then mergeLoop rest currIns (accumulate currDel d) newDiffs
      else
        match currIns, currDel with
        | Some ins, Some del =>
            if (String.length dVal <? 4)%nat
               || negb (JS.exists_char JS.is_space dVal)
            then mergeLoop rest (Some (set_value (value ins +:+ dVal) ins))
                   (Some (set_value (value del +:+ dVal) del)) newDiffs
            else mergeLoop rest None None
                   (purge currDel (purge currIns newDiffs) ++ [d])
        | _, _ =>
            mergeLoop rest None None
              (purge currDel (purge currIns newDiffs) ++ [d])
        end
  end.

Definition mergeConsecutiveSegments (wordDiffs : list Change) : list Change :=
  mergeLoop wordDiffs None None [].

Section RefineDiff.

(** [jsDiff.diffWords(oldStr, newStr)] *)
Variable diffWords : string -> string -> list Change.

(** The loop of [refineDiff], and the push after it; [added] is the
    pending insertion. *)
Fixpoint refineLoop (diff : list Change) (pending : option Change)
    (out : list Change) : list Change :=
  match diff with
  | [] => purge pending out
  | d :: rest =>
      if added d then refineLoop rest (Some d) (purge pending out)
      else if removed d then
        match pending with
        | Some a =>
            let fineDiff := diffWords (value d) (value a) in
            let fineDiff := mergeConsecutiveSegments fineDiff in
            refineLoop rest None (out ++ fineDiff)
        | None => refineLoop rest None (out ++ [d])
        end
      else refineLoop rest None (purge pending out ++ [d])
  end.

Definition refineDiff (diff : list Change) : list Change :=
  refineLoop diff None [].

End RefineDiff.

End Service.

(** ** The pipeline factory ([mediawiki.parser.js]) *)

Module Pipeline.

(** The options of a pipeline: a flag is [None] when the property is
    missing. *)
Record Options := mkOptions {
  isInclude : option bool;
  wrapTemplates : option bool;
  inBlockToken : option bool;
  cacheType : option string
}.

Definition flag (o : option bool) : bool := default false o.

Definition getCacheKey (cacheType : string) (options : Options) : string :=
  let cacheType :=
    if negb (flag (isInclude options)) then cacheType +:+ "::noInclude"
    else cacheType in
  let cacheType :=
    if negb (flag (wrapTemplates options)) then cacheType +:+ "::noWrap"
    else cacheType in
  if flag (inBlockToken options) then cacheType +:+ "::inBlockToken"
  else cacheType.

(** A listener: the callback that returns a pipeline to the cache of a
    type, or another one. *)
Inductive Listener :=
| ReturnToCache (cacheType : string)
| Other (id : nat).

#[global] Instance Listener_eq_dec : EqDecision Listener.
Proof. solve_decision. Defined.

(** A [ParserPipeline]: the listeners registered on its last stage, by
    event and in the order of their registration, and its
    [returnToCacheCB]. *)
Record ParserPipeline := mkParserPipeline {
  listeners : list (string * Listener);
  returnToCacheCB : option Listener
}.

(** [last.removeAllListeners(event)], [last.addListener(event, cb)] of
    the event emitter. *)
Definition emitter_removeAll (event : string) (l : list (string * Listener))
    : list (string * Listener) :=
  filter (fun x => x.1 ≠ event) l.

Definition emitter_add (event : string) (cb : Listener)
    (l : list (string * Listener)) : list (string * Listener) :=
  l ++ [(event, cb)].

(** [ParserPipeline.prototype.removeAllListeners(event)] *)
Definition removeAllListeners (event : string) (pipe : ParserPipeline)
    : ParserPipeline :=
  if bool_decide (event = "end") then
    let l := emitter_removeAll "end" (listeners pipe) in
    match returnToCacheCB pipe with
    | Some cb => mkParserPipeline (emitter_add "end" cb l) (returnToCacheCB pipe)
    | None => mkParserPipeline l (returnToCacheCB pipe)
    end
  else
    mkParserPipeline (emitter_removeAll event (listeners pipe))
                     (returnToCacheCB pipe).

(** [this.pipelineCache] *)
Definition Cache : Type := gmap string (list ParserPipeline).

(** [returnPipeline(type, pipe)]; [None] where [length] is read off a
    missing cache entry. *)
Definition returnPipeline (type : string) (pipe : ParserPipeline)
    (pipelineCache : Cache) : option Cache :=
  let pipe := removeAllListeners "end" pipe in
  let pipe := removeAllListeners "chunk" pipe in
  cache ← pipelineCache !! type;
  if (length cache <? 8)%nat
  then Some (<[type := cache ++ [pipe]]> pipelineCache)
  else Some pipelineCache.

Section Factory.

(** [this.makePipeline(type, options)], which builds the stages of a
    recipe; [None] when it throws. *)
Variable makePipeline : string -> Options -> option ParserPipeline.

(** [getPipeline(type, options)]: the pipeline and the cache it
    leaves. *)
Definition getPipeline (type : string) (options : option Options)
    (pipelineCache : Cache) : option (ParserPipeline * Cache) :=
  let options := default (mkOptions None None None None) options in
  let options :=
    match isInclude options with
    | None => mkOptions (Some true) (wrapTemplates options)
                        (inBlockToken options) (cacheType options)
    | Some _ => options
    end in
  let cacheType := getCacheKey type options in
  let pipelineCache :=
    match pipelineCache !! cacheType with
    | Some _ => pipelineCache
    | None => <[cacheType := []]> pipelineCache
    end in
  cache ← pipelineCache !! cacheType;
  match last cache with
  | Some pipe => Some (pipe, <[cacheType := removelast cache]> pipelineCache)
  | None =>
      let options :=
        mkOptions (isInclude options) (wrapTemplates options)
                  (inBlockToken options) (Some cacheType) in
      pipe ← makePipeline type options;
      Some (pipe, pipelineCache)
  end.

End Factory.

End Pipeline.

(** * Notions used in the properties *)

(** The heading elements and their delimiters, as [tagHandlers]
    registers them. *)
Definition headings : list (string * string) :=
  [("h1", "="); ("h2", "=="); ("h3", "==="); ("h4", "====");
   ("h5", "====="); ("h6", "======")].

(** The texts of the chunks delivered to the caller, in order. *)
Definition texts (state : State) : list string := fst <$> out state.

(** How many chunks have been handed to chunk callbacks so far: those
    delivered to the caller and those caught by the current collector. *)
Definition delivered (state : State) : nat :=
  (length (out state) + length (bits state))%nat.




(** A text with a newline in the middle. *)
Definition two_lines : string := "a" +:+ JS.NL +:+ "b".

(** Single-line mode entered, without and with original source. *)
Definition single_line_state : State :=
  set_singleLineMode (Some 1) WSP.initialState.



(** A text that the escape engine fences because of its braces, with a
    literal closing nowiki tag in it. *)
Definition braces_nowiki : string := "{{</nowiki>".

(** The invariant of the state comment and of the spec: [onNewline]
    implies [onStartOfLine]. *)
Definition line_invariant (state : State) : Prop :=
  onNewline state = true -> onStartOfLine state = true.

(** A document whose only node is a wikilink to Foo with the text
    [bar]. *)
Definition link_document : Store :=
  [mkNode ELEMENT_NODE "a" [("rel", "mw:WikiLink"); ("href", "Foo")]
          (Some emptyDA) "" None [1%nat] None;
   mkNode TEXT_NODE "#text" [] None "bar" (Some 0%nat) [] None].



(** The list-item elements and their bullets, as [tagHandlers]
    registers them. *)
Definition listItems : list (string * string) :=
  [("li", ""); ("dt", ";"); ("dd", ":")].

(** The frame a list item belongs to: the top of [listStack], or the
    frame that the handler pushes for a bare item. *)
Definition itemFrame (bullet : string) (state : State) : ListCtx :=
  match listStack state with
  | [] => mkListCtx 0 bullet bullet
  | stack => default (mkListCtx 0 bullet bullet) (last stack)
  end.

(** The condition of C7 in its words: the item is not the first of its
    frame, and the state is at start-of-line, or the previous token is
    the closing tag of the same item name, or the token is the [dd] of
    a multi-line dt/dd pair. *)
Definition wantsFullPrefix (bullet : string) (state : State) (token : Token)
    (prevToken prevTagToken : Token) : bool :=
  (0 <? itemCount (itemFrame bullet state))
  && (onStartOfLine state
      || is_ctor prevToken CEndTagTk
         && bool_decide (name prevToken = name token)
      || name_is token "dd"
         && negb (str_eq (da_stx (dataAttribs token)) "row")
         && is_ctor prevTagToken CEndTagTk && name_is prevTagToken "dt").

(** A state inside a list whose first item has just been closed. *)
Definition second_item_state : State :=
  set_prevTagToken (Some (EndTagTk "li" [] emptyDA))
    (set_prevToken (Some (EndTagTk "li" [] emptyDA))
       (set_onStartOfLine false
          (set_onNewline false
             (set_listStack [mkListCtx 1 "*" ""] WSP.initialState)))).

(** The row is implicit: the previous token opened the [tbody] and the
    source recorded no row delimiter. *)
Definition implicitRow (prevToken : Token) (token : Token) : bool :=
  is_ctor prevToken CTagTk && name_is prevToken "tbody"
  && negb (JS.truthy (da_startTagSrc (dataAttribs token))).

(** A state whose previous token opened a [tbody]. *)
Definition after_tbody : State :=
  set_prevToken (Some (TagTk "tbody" [] emptyDA)) WSP.initialState.

(** The img of a figure as the handler looks for it: the first child
    of the first child. *)
Definition figureImg (s : Store) (node : nat) : option nat :=
  fc ← DOM.firstChild s node; DOM.firstChild s fc.

(** No img element can be located: the first child's first child is
    absent, or is not an element node. *)
Definition noImg (s : Store) (node : nat) : Prop :=
  match figureImg s node with
  | None => True
  | Some img =>
      match s !! img with
      | Some imgNode => nodeType imgNode <> ELEMENT_NODE
      | None => True
      end
  end.

(** A figure whose only child is an empty caption. *)
Definition figure_without_img : Store :=
  [mkNode ELEMENT_NODE "figure" [] (Some emptyDA) "" None [1%nat]
          (Some emptyDA);
   mkNode ELEMENT_NODE "figcaption" [] (Some emptyDA) "" (Some 0%nat) []
          None].

(** A body that holds such a figure, followed by a text. *)
Definition figure_then_text : Store :=
  [mkNode ELEMENT_NODE "body" [] (Some emptyDA) "" None [1%nat; 3%nat] None;
   mkNode ELEMENT_NODE "figure" [] (Some emptyDA) "" (Some 0%nat) [2%nat]
          None;
   mkNode ELEMENT_NODE "figcaption" [] (Some emptyDA) "" (Some 1%nat) []
          None;
   mkNode TEXT_NODE "#text" [] None "after" (Some 0%nat) [] None].

(** A node whose parent and children all have an index from [b] on. *)
Definition inRegion (b : nat) (nd : Node) : Prop :=
  (forall p, parentNode nd = Some p -> (b <= p)%nat)
  /\ (forall c, c ∈ childNodes nd -> (b <= c)%nat).

(** The store [s] still holds the store [s0] of the caller, node for
    node, and the nodes that came after it do not point back into it. *)
Definition frame (s0 s : Store) : Prop :=
  (exists ext, s = s0 ++ ext)
  /\ forall i nd, (length s0 <= i)%nat -> s !! i = Some nd ->
       inRegion (length s0) nd.

(** A computation that keeps the frame, whatever its outcome, and whose
    result, when it has one, satisfies [P]. *)
Definition safe (s0 : Store) {A} (P : A -> Prop) (m : M A) : Prop :=
  forall w, frame s0 (dom w) ->
    frame s0 (dom (m w).2) /\ forall a, (m w).1 = Ok a -> P a.

(** Every index of an optional node, of a list of nodes, is in the
    region. *)
Definition optIn (b : nat) (o : option nat) : Prop :=
  forall n, o = Some n -> (b <= n)%nat.

Definition allIn (b : nat) (l : list nat) : Prop :=
  forall n, n ∈ l -> (b <= n)%nat.

Definition any {A} (_ : A) : Prop := True.

(** The nodes that the second pass of the preprocessor remembers are in
    the region. *)
Definition scIn (b : nat) (sc : WSP.SepScan) : Prop :=
  optIn b (WSP.prevSentinel sc) /\ allIn b (WSP.sepNodes sc).

(** What [serializeDOM] does after the copy is made. *)
Definition serializeCopy `{Lib} (fuel : nat) (page_src : option string)
    (node : nat) : M unit :=
  _ ← WSP.preprocessDOM fuel node false (JS.truthy page_src);
  _ ← WSP._serializeDOM fuel node;
  liftS (fun state => WSP._serializeToken state EOFTk).

(** A body whose children are two text nodes. *)
Definition two_texts : Store :=
  [mkNode ELEMENT_NODE "body" [] (Some emptyDA) "" None [1%nat; 2%nat] None;
   mkNode TEXT_NODE "#text" [] None "a" (Some 0%nat) [] None;
   mkNode TEXT_NODE "#text" [] None "b" (Some 0%nat) [] None].

(** The text of each node of a store. *)
Definition characterData (s : Store) : list string := data <$> s.

(** What [htmlSpecialChars] writes for one character: its entity, or
    the character itself. *)
Definition escapeChar (c : ascii) : string :=
  if JS.ch "&" c then "&amp;"
  else if JS.ch "<" c then "&lt;"
  else if JS.ch JS.DQUOTE c then "&quot;"
  else if JS.ch "'" c then "&#039;"
  else String c "".

(** The characters that [htmlSpecialChars] is there to remove. *)
Definition isMarkup (c : ascii) : bool :=
  JS.ch "<" c || JS.ch JS.DQUOTE c || JS.ch "'" c.


(** The options as [getPipeline] completes them, and the key it looks
    up. *)
Definition completed (options : option Pipeline.Options) : Pipeline.Options :=
  let options := default (Pipeline.mkOptions None None None None) options in
  match Pipeline.isInclude options with
  | None => Pipeline.mkOptions (Some true) (Pipeline.wrapTemplates options)
              (Pipeline.inBlockToken options) (Pipeline.cacheType options)
  | Some _ => options
  end.

Definition pipelineKey (type : string) (options : option Pipeline.Options)
    : string :=
  Pipeline.getCacheKey type (completed options).

(** A pipeline as [returnPipeline] leaves it. *)
Definition cleaned (pipe : Pipeline.ParserPipeline) : Pipeline.ParserPipeline :=
  Pipeline.removeAllListeners "chunk" (Pipeline.removeAllListeners "end" pipe).

(** The listeners of a pipeline for one event. *)
Definition listenersOf (event : string) (pipe : Pipeline.ParserPipeline)
    : list Pipeline.Listener :=
  snd <$> filter (fun x => x.1 = event) (Pipeline.listeners pipe).


(** A pipeline with listeners left over from its last use. *)
Definition used_pipe : Pipeline.ParserPipeline :=
  Pipeline.mkParserPipeline
    [("end", Pipeline.ReturnToCache "t"); ("chunk", Pipeline.Other 1);
     ("end", Pipeline.Other 2); ("document", Pipeline.Other 3)]
    (Some (Pipeline.ReturnToCache "t")).

(** The text after the change that a diff describes: what its entries
    hold, deletions left out.  An entry counts as an insertion when
    [added] is set, as a deletion when only [removed] is. *)
Fixpoint newText (diff : list Service.Change) : string :=
  match diff with
  | [] => ""
  | d :: rest =>
      (if negb (Service.added d) && Service.removed d then ""
       else Service.value d) +:+ newText rest
  end.

(** The text before the change: insertions left out. *)
Fixpoint oldText (diff : list Service.Change) : string :=
  match diff with
  | [] => ""
  | d :: rest =>
      (if Service.added d then "" else Service.value d) +:+ oldText rest
  end.

(** The pending insertion of the merge loop is an insertion, the
    pending deletion a deletion. *)
Definition pendingIns (c : option Service.Change) : Prop :=
  forall d, c = Some d -> Service.added d = true.

Definition pendingDel (c : option Service.Change) : Prop :=
  forall d, c = Some d -> Service.added d = false /\ Service.removed d = true.

Definition pendingValue (c : option Service.Change) : string :=
  match c with Some d => Service.value d | None => "" end.

(** A word diff that tells the old text from the new one, as
    [jsDiff.diffWords] does. *)
Definition faithful (diffWords : string -> string -> list Service.Change)
    : Prop :=
  forall a b, oldText (diffWords a b) = a /\ newText (diffWords a b) = b.

(** The coarsest word diff: the old text deleted, the new one
    inserted. *)
Definition replaceAll (a b : string) : list Service.Change :=
  [Service.mkChange a false true; Service.mkChange b true false].

(** [n] newlines satisfy the bounds [min] and [max], where a missing
    bound does not constrain. *)
Definition inRange (min max : option Z) (n : Z) : Prop :=
  match min with Some m => m <= n | None => True end
  /\ match max with Some m => n <= m | None => True end.

(** The range that a [sepNls] handler asks for at a node; none when
    there is no handler. *)
Definition rangeOf (handler : option (nat -> WSP.NlRange)) (node : nat)
    : WSP.NlRange :=
  match handler with
  | Some h => h node
  | None => WSP.mkNlRange None None
  end.

(** A handler that asks for one or two newlines, one that asks for at
    least two. *)
Definition oneOrTwo (_ : nat) : WSP.NlRange :=
  WSP.mkNlRange (Some 1) (Some 2).

Definition atLeastTwo (_ : nat) : WSP.NlRange :=
  WSP.mkNlRange (Some 2) None.

(** A text that ends in a carriage return. *)
Definition bare_cr : string := String JS.CR "".

(** The state after [escapeWikiText] has consulted the handler on top
    of [wteHandlerStack], if there is one. *)
Definition consulted `{Lib} (state : State) (text : string) : State :=
  match last (wteHandlerStack state) with
  | Some (Some wteHandler) => (WEHP.call wteHandler state text).2
  | _ => state
  end.

(** The handlers that serve once: consulting them replaces them by
    [null] on the stack. *)
Definition oneShot (h : WteHandler) : bool :=
  match h with WteHeading | WteLi => true | _ => false end.

(** A state at the start of a heading line, with the heading handler on
    the stack. *)
Definition in_heading : State :=
  set_wteHandlerStack [Some WteHeading] WSP.initialState.

(** The state after [=a=] was escaped in that state: the heading
    handler has served. *)
Definition heading_escaped : State :=
  set_wteHandlerStack [None] WSP.initialState.

(** What [escapeWikiLinkContentString] makes of [a]] in that state. *)
Definition link_content_escaped : string * State :=
  default ("", WSP.initialState)
    (@WSP.escapeWikiLinkContentString plainLib "a]" in_heading).

(** The [k]-th node on the way from a node to the root. *)
Fixpoint ancestor (s : Store) (k : nat) (node : nat) : option nat :=
  match k with
  | O => Some node
  | S k => nd ← s !! node; p ← parentNode nd; ancestor s k p
  end.

(** The node is in the store and its name is that of a block tag. *)
Definition blockNode `{Lib} (s : Store) (node : nat) : bool :=
  match s !! node with
  | Some nd => isHtmlBlockTag (WSP.lower_name nd)
  | None => false
  end.

(** [bn] is the [k]-th node above [node], it is a block node, and no
    node before it on the way is. *)
Definition nearestBlock `{Lib} (s : Store) (node k bn : nat) : Prop :=
  ancestor s k node = Some bn
  /\ blockNode s bn = true
  /\ forall j m, (j < k)%nat -> ancestor s j node = Some m ->
       blockNode s m = false.

(** What the handlers of the tags leave alone: the chunks delivered so
    far, the chunk callback, the two line flags and the stack of escape
    handlers. *)
Definition quiet (a b : State) : Prop :=
  out a = out b /\ bits a = bits b /\ chunkCB a = chunkCB b
  /\ onNewline a = onNewline b /\ onStartOfLine a = onStartOfLine b
  /\ wteHandlerStack a = wteHandlerStack b.

Definition quietHandle
    (f : Flags -> State -> Token -> option Handled) : Prop :=
  forall this s tok r s' fl, f this s tok = Some (r, s', fl) -> quiet s' s.

Definition quietPart (p : option Part) : Prop :=
  forall pt f, p = Some pt -> handle pt = Some f -> quietHandle f.

Definition quietHandler `{Lib} (h : TagHandler) : Prop :=
  quietPart (start h) /\ quietPart (end_ h)
  /\ forall mk, make h = Some mk -> mk = WSP.p_make.

(** A chunk callback that does not write the state of the line. *)
Definition plainCB (cb : ChunkCB) : Prop := cb = TopCB \/ cb = CollectCB.

(** The token is served from its template source: [_getTokenHandler]
    returns before it pushes an escape handler. *)
Definition fromTemplateSource `{Lib} (token : Token) : bool :=
  bool_decide (da_src (dataAttribs token) ≠ None)
  && str_eq (Util_lookup (attribs token) "typeof") "mw:TemplateSource".

(** The depth of [wteHandlerStack] after a token.  A start tag pushes
    and an end tag pops; a self-closing tag pushes and pops.  A tag
    served from its template source does not push, but is popped for
    all the same. *)
Definition depthAfter `{Lib} (token : Token) (depth : nat) : nat :=
  match token with
  | TagTk _ _ _ => if fromTemplateSource token then depth else S depth
  | SelfclosingTagTk _ _ _ =>
      if fromTemplateSource token then Nat.pred depth else depth
  | EndTagTk _ _ _ => Nat.pred depth
  | _ => depth
  end.

(** What a step of [_serializeToken] after the handler may do: it keeps
    the callback and the stack of escape handlers, it only adds chunks,
    and with a plain callback it keeps the invariant of the line
    flags. *)
Definition advances (s s' : State) : Prop :=
  chunkCB s' = chunkCB s
  /\ wteHandlerStack s' = wteHandlerStack s
  /\ (delivered s <= delivered s')%nat
  /\ (plainCB (chunkCB s) -> line_invariant s -> line_invariant s').

(** The depth of [wteHandlerStack] after a list of tokens. *)
Definition depthAfterAll `{Lib} (tokens : list Token) (depth : nat) : nat :=
  foldl (fun d t => depthAfter t d) depth tokens.

(** A heading with a text, and a span served from its template source
    followed by its end tag. *)
Definition heading_doc : list Token :=
  [TagTk "h2" [] emptyDA; Str "a"; EndTagTk "h2" [] emptyDA; EOFTk].

Definition template_span : list Token :=
  [TagTk "span" [mkKV "typeof" "mw:TemplateSource"]
     (mkDA (Some "{{x}}") None None None None None None false false false
        false None None false None None None None None None false None None
        None);
   EndTagTk "span" [] emptyDA].

Definition heading_run : State :=
  Eval vm_compute in
    default WSP.initialState
      (@WSP.serializeTokens_loop plainLib WSP.initialState heading_doc).

Definition template_span_run : State :=
  Eval vm_compute in
    default WSP.initialState
      (@WSP.serializeTokens_loop plainLib
         (set_wteHandlerStack [Some WteLi] WSP.initialState) template_span).


(** The fields of the state that no tag handler writes, besides those
    of [quiet]: the buffer of the last output, the buffered separator
    and the page source. *)
Definition calm (a b : State) : Prop :=
  lastRes a = lastRes b /\ bufferedSeparator a = bufferedSeparator b
  /\ env_page_src a = env_page_src b.

Definition calmHandle
    (f : Flags -> State -> Token -> option Handled) : Prop :=
  forall this s tok r s' fl, f this s tok = Some (r, s', fl) -> calm s' s.

(** A [handle] that does not make a number of a [singleLineMode] that
    is none. *)
Definition lostHandle
    (f : Flags -> State -> Token -> option Handled) : Prop :=
  forall this s tok r s' fl,
    f this s tok = Some (r, s', fl) ->
    singleLineMode s = None -> singleLineMode s' = None.

Definition partOK
    (P : (Flags -> State -> Token -> option Handled) -> Prop)
    (p : option Part) : Prop :=
  forall pt f, p = Some pt -> handle pt = Some f -> P f.

Definition calmHandler (h : TagHandler) : Prop :=
  partOK calmHandle (start h) /\ partOK calmHandle (end_ h)
  /\ partOK lostHandle (end_ h).

(** The handler that [p.make] returns for a suppressed paragraph. *)
Definition ignoredHandler : TagHandler :=
  mkTagHandler (Some (mkPart WSP.ignoreF None))
               (Some (mkPart WSP.ignoreF None)) None None.

(** The handlers among which [_getTokenHandler] picks the one of a
    token that is not served from its template source. *)
Definition picked `{Lib} (state : State) (token : Token) (h : TagHandler)
    : Prop :=
  h = WSP.defaultHTMLTagHandler \/ h = ignoredHandler
  \/ WSP.tagHandlers state (default "" (name token)) = Some h.

(** A start tag or a self-closing tag with the name [table]. *)
Definition opensTable (token : Token) : bool :=
  (is_ctor token CTagTk || is_ctor token CSelfclosingTagTk)
  && name_is token "table".

(** An end tag that is handled by the [end] part of the table handler
    of [tagHandlers]. *)
Definition closesTable `{Lib} (state : State) (token : Token) : Prop :=
  is_ctor token CEndTagTk = true /\ name token = Some "table"
  /\ fromTemplateSource token = false /\ isHTMLTag token = false
  /\ (dataAttribs token = emptyDA -> parentSTX state <> Some "html").

(** The buffer of the last output after the chunks [chunks], as the
    chunk callback of [serializeTokens] keeps it. *)
Definition slide (last : string) (chunks : list Chunk) : string :=
  foldl (fun l c => JS.substr_last 100 (l +:+ c.1)) last chunks.

(** The text of a list of chunks. *)
Definition chunkText (chunks : list Chunk) : string :=
  foldr (fun c acc => c.1 +:+ acc) "" chunks.

(** What the second part of [_serializeToken] and the chunk callback of
    [serializeTokens] do to the output and to its buffer. *)
Definition emits (s s' : State) : Prop :=
  chunkCB s' = TopCB
  /\ exists new, out s' = out s ++ new
       /\ lastRes s' = slide (lastRes s) new.

(** What no step of [_serializeToken] does, the start of a table
    apart: the page source stays, a [singleLineMode] that is none stays
    none, and without page source no separator gets buffered. *)
Definition settled (s s' : State) : Prop :=
  env_page_src s' = env_page_src s
  /\ (singleLineMode s = None -> singleLineMode s' = None)
  /\ (JS.truthy (env_page_src s) = false ->
      bufferedSeparator s = None -> bufferedSeparator s' = None).

(** A state inside a table that was opened in single-line mode, the end
    tag of the table, and the state after it. *)
Definition in_table : State :=
  set_tableStack [mkTableCtx [] (Some 1)]
    (set_singleLineMode (Some 0) WSP.initialState).

Definition table_end : Token := EndTagTk "table" [] emptyDA.

Definition table_closed : State :=
  Eval vm_compute in
    default WSP.initialState
      (@WSP._serializeToken plainLib in_table table_end).

(** A list item with a text, serialized after the table. *)
Definition item_doc : list Token :=
  [TagTk "li" [] emptyDA; Str "a"; EndTagTk "li" [] emptyDA].

Definition item_run : State :=
  Eval vm_compute in
    default WSP.initialState
      (@WSP.serializeTokens_loop plainLib table_closed item_doc).


(** The token was inserted by the parser, so that its output is
    suppressed: [autoInsertedStart] for a start tag or a self-closing
    tag, [autoInsertedEnd] for an end tag. *)
Definition autoInserted (token : Token) : bool :=
  match token with
  | TagTk _ _ da | SelfclosingTagTk _ _ da => da_autoInsertedStart da
  | EndTagTk _ _ da => da_autoInsertedEnd da
  | _ => false
  end.

(** The text transform of [pre] is applied to the result of the
    token's handler: it is installed and the token is not an end tag. *)
Definition transformed (state : State) (token : Token) : bool :=
  textHandler state && negb (is_ctor token CEndTagTk).

(** The chunk that delivers the buffered separator, if there is one. *)
Definition bufferedChunk (state : State) : list Chunk :=
  match bufferedSeparator state with
  | Some (String c r) => [(String c r, Some "separator")]
  | _ => []
  end.

(** A span served from its template source, with a line break in the
    source, and the state after it in single-line mode. *)
Definition template_call : Token :=
  TagTk "span" [mkKV "typeof" "mw:TemplateSource"]
    (mkDA (Some two_lines) None None None None None None false false false
       false None None false None None None None None None false None None
       None).

Definition template_call_run : State :=
  Eval vm_compute in
    default WSP.initialState
      (@WSP._serializeToken plainLib single_line_state template_call).

(** * Properties *)

(** ** Headings *)

Lemma heading_registered `{Lib} n v state :
  (n, v) ∈ headings ->
  WSP.tagHandlers state n = Some (WSP.buildHeadingHandler v).
Proof.
  unfold headings. rewrite !elem_of_cons, elem_of_nil.
  intros [E|[E|[E|[E|[E|[E|[]]]]]]]; inversion E; subst; reflexivity.
Qed.

(** C1 (amended).  For every heading element h1..h6 with delimiter [v]:
    the handler registered for it opens with [v], and when the token
    before the end token is the start token of the same name (the
    heading is empty) it closes with the empty literal-text fence
    written [<nowiki></nowiki>] followed by [v].  Neither call changes
    the state.  In particular the tokens of [<h2></h2>] are serialized
    as the chunks [==] and [<nowiki></nowiki>==], followed by the
    newline that ends the line. *)
Theorem C1_empty_heading `{Lib} n v state token a d :
  (n, v) ∈ headings ->
  prevToken state = Some (TagTk n a d) ->
  name token = Some n ->
  WSP.tagHandlers state n = Some (WSP.buildHeadingHandler v)
  /\ WSP.run_handle (default WSP.emptyPart (start (WSP.buildHeadingHandler v)))
       state token
     = Some (Some v, state, WSP.startsLineF)
  /\ WSP.run_handle (default WSP.emptyPart (end_ (WSP.buildHeadingHandler v)))
       state token
     = Some (Some ("<nowiki></nowiki>" +:+ v), state, WSP.endsLineF)
  /\ (texts <$> WSP.serializeTokens true None None
                  [TagTk "h2" [] emptyDA; EndTagTk "h2" [] emptyDA])
     = Some ["=="; "<nowiki></nowiki>=="; JS.NL].
Proof.
  intros Hin Hprev Hname. split; [by apply heading_registered|].
  split; [reflexivity|]. split.
  - cbn. unfold WSP.closeHeading. rewrite Hprev. cbn.
    rewrite Hname. unfold is_ctor. cbn.
    rewrite !bool_decide_eq_true_2 by done. reflexivity.
  - vm_compute. reflexivity.
Qed.

Lemma C1_empty_heading_witness :
  (WSP.run_handle
     (default WSP.emptyPart (end_ (WSP.buildHeadingHandler "==")))
     (set_prevToken (Some (TagTk "h2" [] emptyDA)) WSP.initialState)
     (EndTagTk "h2" [] emptyDA))
  = Some (Some "<nowiki></nowiki>==",
          set_prevToken (Some (TagTk "h2" [] emptyDA))
            WSP.initialState,
          WSP.endsLineF).
Proof.
  refine (proj1 (proj2 (proj2
    (@C1_empty_heading plainLib "h2" "=="
       (set_prevToken (Some (TagTk "h2" [] emptyDA)) WSP.initialState)
       (EndTagTk "h2" [] emptyDA) [] emptyDA _ _ _)))).
  - unfold headings. rewrite !elem_of_cons. right. left. reflexivity.
  - reflexivity.
  - reflexivity.
Defined.

(** C1 as stated fails: the fence of an empty [h2] is not written
    [<nowiki/>], neither by the end handler nor in the chunks that
    [<h2></h2>] is serialized to. *)
Lemma C1_counterexample :
  (WSP.run_handle
     (default WSP.emptyPart (end_ (WSP.buildHeadingHandler "==")))
     (set_prevToken (Some (TagTk "h2" [] emptyDA)) WSP.initialState)
     (EndTagTk "h2" [] emptyDA))
  <> Some (Some ("<nowiki/>" +:+ "=="),
           set_prevToken (Some (TagTk "h2" [] emptyDA))
             WSP.initialState,
           WSP.endsLineF)
  /\ (WSP.join "" <$> (texts <$> @WSP.serializeTokens plainLib true None None
                         [TagTk "h2" [] emptyDA; EndTagTk "h2" [] emptyDA]))
     = Some ("==<nowiki></nowiki>==" +:+ JS.NL)
  /\ "==<nowiki></nowiki>==" <> "==<nowiki/>==".
Proof.
  split; [|split].
  - vm_compute. discriminate.
  - vm_compute. reflexivity.
  - discriminate.
Qed.

(** ** Chunks and separators *)

Lemma callCB_delivered cb chunk info state :
  delivered (WSP.callCB cb chunk info state) = S (delivered state).
Proof.
  revert state. induction cb as [| |cb IH]; intros state; cbn.
  - unfold delivered. cbn. rewrite length_app. cbn. lia.
  - unfold delivered. cbn. rewrite length_app. cbn. lia.
  - rewrite IH. destruct chunk; reflexivity.
Qed.

Lemma emitSepChunk_delivered sep state :
  delivered (WSP.emitSepChunk sep state) = S (delivered state).
Proof.
  unfold WSP.emitSepChunk, WSP.call_chunkCB.
  change (delivered (set_bufferedSeparator None ?s)) with (delivered s).
  rewrite callCB_delivered.
  destruct (JS.ends_nl sep), (JS.has_nl sep); reflexivity.
Qed.



(** ** Text tokens *)


Lemma State_eta (st : State) :
  set_currLine (currLine st) (set_wteHandlerStack (wteHandlerStack st) st) = st.
Proof. by destruct st. Qed.

(** The escape handlers write [wteHandlerStack] only. *)
Lemma WEHP_call_frame `{Lib} h state text :
  exists stack,
    (WEHP.call h state text).2 = set_wteHandlerStack stack state.
Proof.
  destruct h; cbn; eauto; exists (wteHandlerStack state); by destruct state.
Qed.

(** [escapeWikiText] writes [wteHandlerStack] and [currLine] only. *)
Lemma escapeWikiText_frame `{Lib} state text res state' :
  WSP.escapeWikiText state text = Some (res, state') ->
  exists stack cl, state' = set_currLine cl (set_wteHandlerStack stack state).
Proof.
  unfold WSP.escapeWikiText.
  assert (Hsame : exists stack cl,
             state = set_currLine cl (set_wteHandlerStack stack state)).
  { exists (wteHandlerStack state), (currLine state). by rewrite State_eta. }
  destruct (negb (JS.urlTriggers text) && negb (JS.wt_special text)).
  { intros [= _ <-]. exact Hsame. }
  assert (Hcall : exists stack,
    (match last (wteHandlerStack state) with
     | Some (Some wteHandler) => WEHP.call wteHandler state text
     | _ => (false, state)
     end).2 = set_wteHandlerStack stack state).
  { destruct (last (wteHandlerStack state)) as [[h|]|].
    - apply WEHP_call_frame.
    - exists (wteHandlerStack state). by destruct state.
    - exists (wteHandlerStack state). by destruct state. }
  destruct (match last (wteHandlerStack state) with
            | Some (Some wteHandler) => WEHP.call wteHandler state text
            | _ => (false, state)
            end) as [hit st1].
  destruct Hcall as [stack Hst1]. cbn in Hst1. subst st1.
  assert (Hst1 : exists stack' cl,
             set_wteHandlerStack stack state
             = set_currLine cl (set_wteHandlerStack stack' state)).
  { exists stack, (currLine state). by destruct state. }
  set (st1 := set_wteHandlerStack stack state) in *.
  assert (Hesc : forall t, (WSP.escapedText t ≫= fun r => Some (r, st1))
                           = Some (res, state') ->
             exists stack' cl,
               state' = set_currLine cl (set_wteHandlerStack stack' state)).
  { intros t Ht. destruct (WSP.escapedText t); cbn in Ht; [|discriminate].
    injection Ht as _ <-. exact Hst1. }
  destruct hit; [apply Hesc|].
  destruct (JS.has_braces text); [apply Hesc|].
  match goal with |- context [if ?c then Some (text, st1) else _] =>
    destruct c end.
  { intros [= _ <-]. exact Hst1. }
  match goal with |- context [if ?c then _ else _] => destruct c end;
    [apply Hesc|].
  match goal with |- context [if ?c then _ else _] => destruct c end;
    [apply Hesc|].
  match goal with |- context [if ?c then _ else _] => destruct c end.
  2:{ intros [= _ <-]. exact Hst1. }
  match goal with |- context [mbind _ ?m] => destruct m as [cl|] end;
    cbn; [|discriminate].
  assert (Hcl : exists stack' cl',
             set_currLine cl st1
             = set_currLine cl' (set_wteHandlerStack stack' state)).
  { exists stack, cl. reflexivity. }
  match goal with |- context [if ?c then _ else _] => destruct c end.
  - intros Ht. destruct (WSP.escapedText _); cbn in Ht; [|discriminate].
    injection Ht as _ <-. exact Hcl.
  - intros [= _ <-]. exact Hcl.
Qed.





(** ** Fencing and the nowiki tags *)

(** C5, the code at a failing input.  [escapeWikiText] fences
    [{{</nowiki>] on the template-marker path, which returns before the
    nowiki tags are replaced by their entity forms: the fenced chunk
    holds the raw closing tag.  The same happens when the text is the
    content of a link, through [escapeWikiLinkContentString]. *)
Theorem C5_fence_keeps_nowiki `{Lib} :
  WSP.escapeWikiText WSP.initialState braces_nowiki
  = Some ("<nowiki>{{</nowiki></nowiki>", WSP.initialState)
  /\ (fst <$> WSP.escapeWikiLinkContentString braces_nowiki WSP.initialState)
     = Some "<nowiki>{{</nowiki></nowiki>"
  /\ JS.includes "</nowiki>" braces_nowiki = true
  /\ JS.replace_nowiki braces_nowiki = "{{&lt;/nowiki&gt;".
Proof. repeat split; vm_compute; reflexivity. Qed.

(** ** The line flags *)

(** C4, the code at a failing input.  The state a serialization starts
    in satisfies the invariant.  The link handler's state update,
    [escapeWikiLinkContentString], clears [onStartOfLine] and leaves
    [onNewline] set: the state it returns violates the invariant.  So
    does the state in which [serializeDOM] of a document that is one
    wikilink ends. *)
Theorem C4_link_breaks_line_invariant `{Lib} :
  line_invariant WSP.initialState
  /\ (exists state',
        WSP.escapeWikiLinkContentString "bar" WSP.initialState
        = Some ("bar", state')
        /\ onNewline state' = true /\ onStartOfLine state' = false
        /\ ~ line_invariant state')
  /\ (let w := (@WSP.serializeDOM plainLib 10 None None 0%nat link_document).2 in
      texts (ser w) = [""; "[[Foo|bar]]"; ""; ""]
      /\ onNewline (ser w) = true /\ onStartOfLine (ser w) = false
      /\ ~ line_invariant (ser w)).
Proof.
  split; [intros _; reflexivity|]. split.
  - eexists. split; [vm_compute; reflexivity|].
    split; [reflexivity|]. split; [reflexivity|].
    intros Hinv. specialize (Hinv eq_refl). discriminate.
  - cbn zeta. split; [vm_compute; reflexivity|].
    split; [vm_compute; reflexivity|]. split; [vm_compute; reflexivity|].
    intros Hinv. specialize (Hinv ltac:(vm_compute; reflexivity)).
    vm_compute in Hinv. discriminate.
Qed.

(** ** Page properties *)







(** ** List items *)

Lemma listItem_registered `{Lib} n b state :
  (n, b) ∈ listItems ->
  exists e, WSP.tagHandlers state n = Some (WSP.buildListItemHandler b e).
Proof.
  unfold listItems. rewrite !elem_of_cons, elem_of_nil.
  intros [E|[E|[E|[]]]]; inversion E; subst; eexists; reflexivity.
Qed.

Lemma last_push {A} (x : A) l : last (push x l) = Some x.
Proof. unfold push. apply last_snoc. Qed.

(** [_listItemHandler] decides between the full prefix and the bullet
    as [wantsFullPrefix] says. *)
Lemma listItemHandler_prefix bullet handler state token pt ptt :
  prevToken state = Some pt ->
  prevTagToken state = Some ptt ->
  let frame := itemFrame bullet state in
  let full := wantsFullPrefix bullet state token pt ptt in
  exists state',
    WSP._listItemHandler bullet handler state token
    = Some (Some (if full then bullets frame +:+ bullet else bullet),
            state', set_startsLine full handler).
Proof.
  intros Hpt Hptt frame full.
  unfold WSP._listItemHandler. cbv zeta.
  assert (Hlast :
    last (match listStack state with
          | [] => push (mkListCtx 0 bullet bullet) (listStack state)
          | _ :: _ => listStack state
          end) = Some frame).
  { subst frame. unfold itemFrame.
    destruct (listStack state) as [|f l] eqn:E.
    - apply last_push.
    - destruct (last (f :: l)) eqn:E2; [done|].
      apply last_None in E2. discriminate. }
  rewrite Hlast. cbn [mbind option_bind itemCount bullets].
  set (st1 := set_listStack _ state).
  assert (Hfull :
    (if 1 <? itemCount frame + 1
     then if onStartOfLine st1 then Some true
          else WSP.isRepeatToken st1 token ≫= fun r : bool =>
               if r then Some true else WSP.isMultiLineDtDdPair st1 token
     else Some false) = Some full).
  { subst full. unfold wantsFullPrefix. fold frame.
    replace (1 <? itemCount frame + 1) with (0 <? itemCount frame)
      by (destruct (Z.ltb_spec 0 (itemCount frame)),
                   (Z.ltb_spec 1 (itemCount frame + 1)); lia || done).
    destruct (0 <? itemCount frame); [|reflexivity].
    change (onStartOfLine st1) with (onStartOfLine state).
    destruct (onStartOfLine state); [reflexivity|].
    unfold WSP.isRepeatToken, WSP.isMultiLineDtDdPair.
    change (prevToken st1) with (prevToken state).
    change (prevTagToken st1) with (prevTagToken state).
    rewrite Hpt, Hptt. cbn.
    destruct (is_ctor pt CEndTagTk && bool_decide (name pt = name token));
      [reflexivity|].
    destruct (name_is token "dd"
              && negb (str_eq (da_stx (dataAttribs token)) "row"));
      reflexivity. }
  rewrite Hfull. cbn [mbind option_bind].
  exists st1. destruct full; reflexivity.
Qed.

(** C7.  For every list-item token (li, dt, dd) that has a previous
    token and a previous tag token, the handler returns the full
    cumulative bullet prefix (the bullets of the enclosing lists
    followed by the item's bullet) exactly when the item is not the
    first of its list frame and the state is at start-of-line, or the
    previous token is the closing tag of the same item name, or the
    token is the [dd] of a multi-line dt/dd pair; otherwise it returns
    the item's own bullet only.  [startsLine] of the handler is set
    accordingly. *)
Theorem C7_list_item_prefix `{Lib} n bullet state token pt ptt :
  (n, bullet) ∈ listItems ->
  prevToken state = Some pt ->
  prevTagToken state = Some ptt ->
  let frame := itemFrame bullet state in
  let full := wantsFullPrefix bullet state token pt ptt in
  exists e state',
    WSP.tagHandlers state n = Some (WSP.buildListItemHandler bullet e)
    /\ WSP.run_handle
         (default WSP.emptyPart (start (WSP.buildListItemHandler bullet e)))
         state token
       = Some (Some (if full then bullets frame +:+ bullet else bullet),
               state',
               set_startsLine full (WSP.singleLineF 1 false)).
Proof.
  intros Hin Hpt Hptt frame full.
  destruct (listItem_registered n bullet state Hin) as [e He].
  destruct (listItemHandler_prefix bullet (WSP.singleLineF 1 false) state
              token pt ptt Hpt Hptt) as [state' Hh].
  exists e, state'. split; [exact He|]. exact Hh.
Qed.

Lemma C7_list_item_prefix_witness :
  exists e state',
    @WSP.tagHandlers plainLib second_item_state "li"
    = Some (WSP.buildListItemHandler "" e)
    /\ WSP.run_handle
         (default WSP.emptyPart (start (WSP.buildListItemHandler "" e)))
         second_item_state (TagTk "li" [] emptyDA)
       = Some (Some "*", state', set_startsLine true (WSP.singleLineF 1 false)).
Proof.
  refine (@C7_list_item_prefix plainLib "li" "" second_item_state
            (TagTk "li" [] emptyDA) (EndTagTk "li" [] emptyDA)
            (EndTagTk "li" [] emptyDA) _ _ _).
  - unfold listItems. rewrite !elem_of_cons. left. reflexivity.
  - reflexivity.
  - reflexivity.
Defined.

(** ** Table rows *)

Lemma append_empty s : s +:+ "" = s.
Proof.
  induction s as [|c s IH]; [reflexivity|].
  change (String c (s +:+ "") = String c s). by rewrite IH.
Qed.

(** C8.  For every tr start token with a previous token: when the
    previous token is the tbody start token and [dataParsoid] has no
    (non-empty) [startTagSrc], the handler returns the empty string;
    in every other case it returns [startTagSrc] verbatim when present,
    or else the delimiter [|-], followed by a space and the serialized
    attributes when these are not empty.  The call changes neither the
    state nor the handler. *)
Theorem C8_table_row `{Lib} state token pt :
  prevToken state = Some pt ->
  WSP.tagHandlers state "tr" = Some WSP.tr
  /\ (implicitRow pt token = true ->
      WSP.run_handle (default WSP.emptyPart (start WSP.tr)) state token
      = Some (Some "", state, WSP.startsLineF))
  /\ (implicitRow pt token = false ->
      forall sAttribs,
        WSP._serializeAttributes state token = Some sAttribs ->
        WSP.run_handle (default WSP.emptyPart (start WSP.tr)) state token
        = Some (Some (JS.or_else (da_startTagSrc (dataAttribs token)) "|-"
                      +:+ (if bool_decide (sAttribs = "") then ""
                           else " " +:+ sAttribs)),
                state, WSP.startsLineF)).
Proof.
  intros Hpt. split; [reflexivity|].
  assert (Hrun : WSP.run_handle (default WSP.emptyPart (start WSP.tr)) state token
    = (if implicitRow pt token then Some (Some "", state, WSP.startsLineF)
       else WSP._serializeTableTag
              (JS.or_else (da_startTagSrc (dataAttribs token)) "|-")
              (Some "") state token
            ≫= fun r => Some (Some r, state, WSP.startsLineF))).
  { unfold WSP.run_handle. cbn. rewrite Hpt. cbn. unfold implicitRow.
    destruct (is_ctor pt CTagTk && name_is pt "tbody"
              && negb (JS.truthy (da_startTagSrc (dataAttribs token))));
      reflexivity. }
  rewrite Hrun. split.
  - intros ->. reflexivity.
  - intros -> sAttribs Hs. unfold WSP._serializeTableTag. rewrite Hs. cbn.
    destruct sAttribs as [|c r]; cbn.
    + reflexivity.
    + change (String c r +:+ "") with (String c (r +:+ "")).
      by rewrite append_empty.
Qed.

Lemma C8_table_row_witness :
  @WSP.run_handle (default WSP.emptyPart (start (@WSP.tr plainLib)))
    after_tbody (TagTk "tr" [] emptyDA)
  = Some (Some "", after_tbody, WSP.startsLineF).
Proof.
  refine (proj1 (proj2 (@C8_table_row plainLib after_tbody
                          (TagTk "tr" [] emptyDA)
                          (TagTk "tbody" [] emptyDA) _)) _); reflexivity.
Defined.

(** ** Figures *)

(** C9.  For every figure node (with its [data] loaded, as the walker
    leaves it) in which no img element can be located, the figure
    handler calls its callback once, with the empty chunk, and returns
    normally: it does not throw, whatever the fuel and whatever the
    recursive serializer would do, and it leaves the DOM as it is. *)
Theorem C9_figure_without_img `{Lib} recur node cb w nd dp :
  dom w !! node = Some nd ->
  data_parsoid nd = Some dp ->
  noImg (dom w) node ->
  WSP.figureHandler recur node cb w
  = (Ok tt, mkWorld (dom w) (WSP.callCB cb "" None (ser w)))
  /\ delivered (WSP.callCB cb "" None (ser w)) = S (delivered (ser w)).
Proof.
  intros Hnode Hdp Hno. split; [|apply callCB_delivered].
  unfold WSP.figureHandler, WSP.data_parsoid_of, node_of.
  unfold mbind, M_bind, bind, getDom, liftO. cbn.
  rewrite Hnode. cbn. rewrite Hdp. cbn.
  unfold noImg, figureImg in Hno.
  destruct (DOM.firstChild (dom w) node) as [fc|]; cbn in *; [|reflexivity].
  destruct (DOM.firstChild (dom w) fc) as [img|]; cbn in *; [|reflexivity].
  destruct (dom w !! img) as [imgNode|]; cbn in *; [|reflexivity].
  rewrite bool_decide_eq_false_2 by done. reflexivity.
Qed.

Lemma C9_figure_without_img_witness :
  @WSP.figureHandler plainLib (fun _ => throw) 0%nat (WrapCB TopCB)
    (mkWorld figure_without_img WSP.initialState)
  = (Ok tt,
     mkWorld figure_without_img
       (WSP.callCB (WrapCB TopCB) "" None WSP.initialState))
  /\ delivered (WSP.callCB (WrapCB TopCB) "" None WSP.initialState)
     = S (delivered WSP.initialState).
Proof.
  refine (@C9_figure_without_img plainLib (fun _ => throw) 0%nat
            (WrapCB TopCB) (mkWorld figure_without_img WSP.initialState)
            _ emptyDA _ _ _).
  - reflexivity.
  - reflexivity.
  - exact I.
Defined.

(** The document goes on after a figure without img: the text that
    follows the figure is serialized. *)
Lemma malformed_figure_continues :
  let result :=
    @WSP.serializeDOM plainLib 10 None None 0%nat figure_then_text in
  result.1 = Ok tt
  /\ WSP.join "" (texts (ser result.2)) = "after".
Proof. cbv zeta. split; vm_compute; reflexivity. Qed.

(** ** The tree of the caller *)

Create HintDb region.
Create HintDb safe.

Section Frame.

Context `{Lib}.
Variable s0 : Store.

Local Abbreviation b := (length s0).

Lemma frame_refl : frame s0 s0.
Proof.
  split; [exists []; by rewrite app_nil_r|].
  intros i nd Hi Hl. apply lookup_lt_Some in Hl. lia.
Qed.

Lemma frame_length s : frame s0 s -> (b <= length s)%nat.
Proof. intros [[ext ->] _]. rewrite length_app. lia. Qed.

Lemma frame_lookup s n nd :
  frame s0 s -> (b <= n)%nat -> s !! n = Some nd -> inRegion b nd.
Proof. intros [_ Hc] ? ?. eauto. Qed.

Lemma frame_prefix s i nd :
  frame s0 s -> s0 !! i = Some nd -> s !! i = Some nd.
Proof. intros [[ext ->] _] Hl. by apply lookup_app_l_Some. Qed.

Lemma frame_update n f s :
  frame s0 s -> (b <= n)%nat ->
  (forall nd, inRegion b nd -> inRegion b (f nd)) ->
  frame s0 (DOM.update n f s).
Proof.
  intros Hf Hn Hok. unfold DOM.update.
  destruct (s !! n) as [node|] eqn:Hnode; [|done].
  pose proof (frame_lookup _ _ _ Hf Hn Hnode) as Hnd.
  destruct Hf as [[ext ->] Hc]. split.
  - exists (<[(n - b)%nat := f node]> ext). by apply insert_app_r_alt.
  - intros i nd Hi Hl.
    apply list_lookup_insert_Some in Hl as [(-> & <- & _)|[_ Hl]]; eauto.
Qed.

Lemma frame_snoc s nd :
  frame s0 s -> inRegion b nd -> frame s0 (s ++ [nd]).
Proof.
  intros [[ext ->] Hc] Hnd. split.
  - exists (ext ++ [nd]). by rewrite app_assoc.
  - intros i nd' Hi Hl.
    apply lookup_snoc_Some in Hl as [[_ Hl]|[_ <-]]; eauto.
Qed.

Lemma inRegion_fresh ty name attrs rt text dp :
  inRegion b (mkNode ty name attrs rt text None [] dp).
Proof. split; cbn; [done|]. intros c Hc. by apply elem_of_nil in Hc. Qed.

(** *** Moving along the tree stays in the region *)

Lemma frame_parent s n nd p :
  frame s0 s -> (b <= n)%nat -> s !! n = Some nd -> parentNode nd = Some p ->
  (b <= p)%nat.
Proof.
  intros Hf Hn Hl Hp.
  destruct (frame_lookup _ _ _ Hf Hn Hl) as [Hpar _]. by apply Hpar.
Qed.

Lemma frame_child s n nd c :
  frame s0 s -> (b <= n)%nat -> s !! n = Some nd -> c ∈ childNodes nd ->
  (b <= c)%nat.
Proof.
  intros Hf Hn Hl Hc.
  destruct (frame_lookup _ _ _ Hf Hn Hl) as [_ Hch]. by apply Hch.
Qed.

Lemma frame_firstChild s n c :
  frame s0 s -> (b <= n)%nat -> DOM.firstChild s n = Some c -> (b <= c)%nat.
Proof.
  unfold DOM.firstChild. intros Hf Hn Hc.
  destruct (s !! n) as [nd|] eqn:Hl; [|done]. cbn in Hc.
  eapply frame_child; eauto using head_Some_elem_of.
Qed.

Lemma frame_lastChild s n c :
  frame s0 s -> (b <= n)%nat -> DOM.lastChild s n = Some c -> (b <= c)%nat.
Proof.
  unfold DOM.lastChild. intros Hf Hn Hc.
  destruct (s !! n) as [nd|] eqn:Hl; [|done]. cbn in Hc.
  eapply frame_child; eauto using last_Some_elem_of.
Qed.

Lemma frame_child_at s n i c :
  frame s0 s -> (b <= n)%nat -> WSP.child_at s n i = Some c -> (b <= c)%nat.
Proof.
  unfold WSP.child_at. intros Hf Hn Hc.
  destruct (s !! n) as [nd|] eqn:Hl; [|done]. cbn in Hc.
  eapply frame_child; eauto using list_elem_of_lookup_2.
Qed.

Lemma after_elem c l x : DOM.after c l = Some x -> x ∈ l.
Proof.
  induction l as [|y r IH]; cbn; [done|].
  case_bool_decide.
  - intros Hx. apply elem_of_cons. right. by apply head_Some_elem_of.
  - intros Hx. apply elem_of_cons. right. by apply IH.
Qed.

Lemma before_elem c l x : DOM.before c l = Some x -> x ∈ l.
Proof.
  induction l as [|y r IH]; cbn; [done|].
  destruct r as [|z r]; [done|].
  case_bool_decide.
  - intros [= ->]. apply elem_of_cons. by left.
  - intros Hx. apply elem_of_cons. right. by apply IH.
Qed.

Lemma frame_nextSibling s n x :
  frame s0 s -> (b <= n)%nat -> DOM.nextSibling s n = Some x -> (b <= x)%nat.
Proof.
  unfold DOM.nextSibling. intros Hf Hn Hx.
  destruct (s !! n) as [nd|] eqn:Hl; [|done]. cbn in Hx.
  destruct (parentNode nd) as [p|] eqn:Hp; [|done]. cbn in Hx.
  destruct (s !! p) as [pn|] eqn:Hpn; [|done]. cbn in Hx.
  eapply (frame_child s p); eauto using after_elem, frame_parent.
Qed.

Lemma frame_previousSibling s n x :
  frame s0 s -> (b <= n)%nat -> DOM.previousSibling s n = Some x ->
  (b <= x)%nat.
Proof.
  unfold DOM.previousSibling. intros Hf Hn Hx.
  destruct (s !! n) as [nd|] eqn:Hl; [|done]. cbn in Hx.
  destruct (parentNode nd) as [p|] eqn:Hp; [|done]. cbn in Hx.
  destruct (s !! p) as [pn|] eqn:Hpn; [|done]. cbn in Hx.
  eapply (frame_child s p); eauto using before_elem, frame_parent.
Qed.

(** *** What is written stays in the region *)

Lemma frame_update_links n f s :
  frame s0 s -> (b <= n)%nat ->
  (forall nd, parentNode (f nd) = parentNode nd) ->
  (forall nd, childNodes (f nd) = childNodes nd) ->
  frame s0 (DOM.update n f s).
Proof.
  intros Hf Hn Hp Hc. apply frame_update; [done..|].
  intros nd [Hpar Hch]. split; [rewrite Hp|rewrite Hc]; done.
Qed.

Lemma frame_setAttribute n k v s :
  frame s0 s -> (b <= n)%nat -> frame s0 (DOM.setAttribute n k v s).
Proof. intros. by apply frame_update_links. Qed.

Lemma inRegion_children nd l :
  inRegion b nd -> allIn b l -> inRegion b (set_childNodes l nd).
Proof. intros [Hpar _] Hl. split; cbn; done. Qed.

Lemma inRegion_parent nd p :
  inRegion b nd -> optIn b p -> inRegion b (set_parentNode p nd).
Proof. intros [_ Hch] Hp. split; cbn; done. Qed.

Lemma allIn_filter (P : nat -> Prop) `{!forall x, Decision (P x)} l :
  allIn b l -> allIn b (filter P l).
Proof. intros Hl n Hn. apply list_elem_of_filter in Hn as [_ Hn]. eauto. Qed.

Lemma frame_removeChild parent child s s' :
  frame s0 s -> (b <= child)%nat ->
  DOM.removeChild parent child s = Some s' -> frame s0 s'.
Proof.
  unfold DOM.removeChild. intros Hf Hc Hr.
  destruct (s !! child) as [c|] eqn:Hl; [|done]. cbn in Hr.
  case_bool_decide as Hp; [|done]. injection Hr as <-.
  assert (b <= parent)%nat by eauto using frame_parent.
  apply frame_update; [apply frame_update| |]; try done.
  - intros nd Hnd. apply inRegion_children; [done|].
    apply allIn_filter. by destruct Hnd.
  - intros nd Hnd. by apply inRegion_parent.
Qed.

Lemma insert_before_elem x ref l y :
  y ∈ DOM.insert_before x ref l -> y = x \/ y ∈ l.
Proof.
  induction l as [|z r IH]; cbn.
  - intros Hy. apply list_elem_of_singleton in Hy. by left.
  - case_bool_decide.
    + intros Hy. apply elem_of_cons in Hy as [->|Hy]; [by left|by right].
    + intros Hy. apply elem_of_cons in Hy as [->|Hy].
      * right. apply elem_of_cons. by left.
      * destruct (IH Hy) as [->|Hr]; [by left|].
        right. apply elem_of_cons. by right.
Qed.

Lemma frame_insertBefore parent node ref s s' :
  frame s0 s -> (b <= parent)%nat -> (b <= node)%nat ->
  DOM.insertBefore parent node ref s = Some s' -> frame s0 s'.
Proof.
  unfold DOM.insertBefore. intros Hf Hp Hn Hi.
  destruct (s !! parent) as [p|] eqn:Hlp; [|done]. cbn in Hi.
  destruct (s !! node) as [nd|] eqn:Hln; [|done]. cbn in Hi.
  destruct (match ref with Some r => _ | None => _ end); [|done].
  injection Hi as <-.
  apply frame_update; [apply frame_update| |]; try done.
  - destruct (parentNode nd) as [old|] eqn:Hold; [|done].
    apply frame_update; [done|by eauto using frame_parent|].
    intros o Ho. apply inRegion_children; [done|].
    apply allIn_filter. by destruct Ho.
  - intros q Hq. apply inRegion_children; [done|].
    intros y Hy. apply insert_before_elem in Hy as [->|Hy]; [done|].
    by apply Hq.
  - intros q Hq. apply inRegion_parent; [done|]. by intros ? [= <-].
Qed.

Lemma frame_createElement name s :
  frame s0 s ->
  frame s0 (DOM.createElement name s).1
  /\ (b <= (DOM.createElement name s).2)%nat.
Proof.
  intros Hf. split; cbn.
  - apply frame_snoc; [done|apply inRegion_fresh].
  - by apply frame_length.
Qed.

Lemma frame_createTextNode text s :
  frame s0 s ->
  frame s0 (DOM.createTextNode text s).1
  /\ (b <= (DOM.createTextNode text s).2)%nat.
Proof.
  intros Hf. split; cbn.
  - apply frame_snoc; [done|apply inRegion_fresh].
  - by apply frame_length.
Qed.

Lemma allIn_snoc l n : allIn b l -> (b <= n)%nat -> allIn b (l ++ [n]).
Proof.
  intros Hl Hn x Hx. apply elem_of_app in Hx as [Hx|Hx]; [eauto|].
  apply list_elem_of_singleton in Hx. by subst.
Qed.

(** The copy that [cloneNode] makes lies in the region, and making it
    leaves the frame as it is. *)
Lemma frame_cloneNode fuel : forall n s s' n',
  frame s0 s -> DOM.cloneNode fuel n s = Ok (s', n') ->
  frame s0 s' /\ (b <= n')%nat.
Proof.
  induction fuel as [|fuel IH]; intros n s s' n' Hf Hc; [done|].
  cbn [DOM.cloneNode] in Hc.
  destruct (s !! n) as [node|]; [|done].
  pose proof (frame_length _ Hf) as Hlen.
  match type of Hc with
  | match ?g _ ?s1 _ with _ => _ end = _ =>
      assert (forall cs σ acc σ' kids,
                frame s0 σ -> allIn b acc -> g cs σ acc = Ok (σ', kids) ->
                frame s0 σ' /\ allIn b kids) as Hgo;
      [|destruct (g (childNodes node) s1 []) as [[σ' kids]| |] eqn:Hg;
        [|done..]]
  end.
  - induction cs as [|c cs IHcs]; intros σ acc σ' kids Hσ Hacc Hg.
    + by injection Hg as <- <-.
    + destruct (DOM.cloneNode fuel c σ) as [[σ1 c']| |] eqn:Hcl; [|done..].
      destruct (IH _ _ _ _ Hσ Hcl) as [Hσ1 Hc'].
      eapply IHcs; [| |exact Hg].
      * apply frame_update; [done..|].
        intros nd Hnd. apply inRegion_parent; [done|].
        intros ? [= <-]. exact Hlen.
      * by apply allIn_snoc.
  - injection Hc as <- <-.
    destruct (Hgo _ _ _ _ _ (frame_snoc _ _ Hf (inRegion_fresh _ _ _ _ _ _))
                (fun n Hn => False_ind _ (proj1 (elem_of_nil n) Hn)) Hg)
      as [Hσ' Hkids].
    split; [|done].
    apply frame_update; [done..|].
    intros nd Hnd. by apply inRegion_children.
Qed.

Lemma region_parent p nd n s :
  parentNode nd = Some p -> s !! n = Some nd -> frame s0 s -> (b <= n)%nat ->
  (b <= p)%nat.
Proof. eauto using frame_parent. Qed.

Lemma region_firstChild c n s :
  DOM.firstChild s n = Some c -> frame s0 s -> (b <= n)%nat -> (b <= c)%nat.
Proof. eauto using frame_firstChild. Qed.

Lemma region_lastChild c n s :
  DOM.lastChild s n = Some c -> frame s0 s -> (b <= n)%nat -> (b <= c)%nat.
Proof. eauto using frame_lastChild. Qed.

Lemma region_child_at c n i s :
  WSP.child_at s n i = Some c -> frame s0 s -> (b <= n)%nat -> (b <= c)%nat.
Proof. eauto using frame_child_at. Qed.

Lemma region_nextSibling x n s :
  DOM.nextSibling s n = Some x -> frame s0 s -> (b <= n)%nat -> (b <= x)%nat.
Proof. eauto using frame_nextSibling. Qed.

Lemma region_previousSibling x n s :
  DOM.previousSibling s n = Some x -> frame s0 s -> (b <= n)%nat ->
  (b <= x)%nat.
Proof. eauto using frame_previousSibling. Qed.

Lemma optIn_firstChild n s :
  frame s0 s -> (b <= n)%nat -> optIn b (DOM.firstChild s n).
Proof. intros ? ? c ?. eauto using frame_firstChild. Qed.

Lemma optIn_nextSibling n s :
  frame s0 s -> (b <= n)%nat -> optIn b (DOM.nextSibling s n).
Proof. intros ? ? c ?. eauto using frame_nextSibling. Qed.

Lemma optIn_previousSibling n s :
  frame s0 s -> (b <= n)%nat -> optIn b (DOM.previousSibling s n).
Proof. intros ? ? c ?. eauto using frame_previousSibling. Qed.

Lemma optIn_None : optIn b None.
Proof. by intros ?. Qed.

Lemma optIn_Some n : (b <= n)%nat -> optIn b (Some n).
Proof. by intros ? ? [= <-]. Qed.

Lemma optIn_inv o n : o = Some n -> optIn b o -> (b <= n)%nat.
Proof. intros -> Ho. by apply Ho. Qed.

Lemma allIn_nil : allIn b [].
Proof. intros n Hn. by apply elem_of_nil in Hn. Qed.

Lemma allIn_cons n l : allIn b (n :: l) -> (b <= n)%nat /\ allIn b l.
Proof.
  intros Hl. split; [apply Hl; by left|].
  intros x Hx. apply Hl. by right.
Qed.

(** *** Rules for computations *)

Lemma safe_ret {A} (P : A -> Prop) a : P a -> safe s0 P (mret a).
Proof. intros Ha w Hw. split; [done|]. by intros ? [= <-]. Qed.

Lemma safe_bind {A B} (Q : A -> Prop) (P : B -> Prop) (m : M A)
    (k : A -> M B) :
  safe s0 Q m -> (forall a, Q a -> safe s0 P (k a)) -> safe s0 P (m ≫= k).
Proof.
  intros Hm Hk w Hw. destruct (Hm w Hw) as [Hf Ha].
  unfold mbind, M_bind, bind.
  destruct (m w) as [[a| |] w']; cbn in *; [|done..].
  apply Hk; [by apply Ha|done].
Qed.

Lemma safe_weaken {A} (Q P : A -> Prop) (m : M A) :
  safe s0 Q m -> (forall a, Q a -> P a) -> safe s0 P m.
Proof.
  intros Hm HQ w Hw. destruct (Hm w Hw) as [Hf Ha]. split; [done|].
  intros a Hr. apply HQ. by apply Ha.
Qed.

Lemma safe_throw {A} (P : A -> Prop) : safe s0 P throw.
Proof. by intros w Hw. Qed.

Lemma safe_nofuel {A} (P : A -> Prop) : safe s0 P nofuel.
Proof. by intros w Hw. Qed.

Lemma safe_getDom : safe s0 (frame s0) getDom.
Proof. intros w Hw. split; [done|]. by intros ? [= <-]. Qed.

Lemma safe_getSer : safe s0 any getSer.
Proof. by intros w Hw. Qed.

Lemma safe_modifySer f : safe s0 any (modifySer f).
Proof. by intros w Hw. Qed.

Lemma safe_liftS f : safe s0 any (liftS f).
Proof. intros w Hw. unfold liftS. by destruct (f (ser w)). Qed.

Lemma safe_liftO {A} (o : option A) : safe s0 (fun a => o = Some a) (liftO o).
Proof.
  intros w Hw. destruct o; cbn; [|done]. split; [done|]. by intros ? [= <-].
Qed.

Lemma safe_liftR {A} (r : Res A) : safe s0 (fun a => r = Ok a) (WSP.liftR r).
Proof. by intros w Hw. Qed.

Lemma safe_modifyDom f :
  (forall s, frame s0 s -> frame s0 (f s)) -> safe s0 any (modifyDom f).
Proof. intros Hf w Hw. split; [by apply Hf|done]. Qed.

Lemma safe_liftD f :
  (forall s s', frame s0 s -> f s = Some s' -> frame s0 s') ->
  safe s0 any (liftD f).
Proof.
  intros Hf w Hw. unfold liftD.
  destruct (f (dom w)) eqn:Hs; [|done]. split; [by eapply Hf|done].
Qed.

Lemma safe_callback cb res info : safe s0 any (WSP.callback cb res info).
Proof. apply safe_modifySer. Qed.

Lemma safe_for_range body : forall count from,
  (forall i, safe s0 any (body i)) -> safe s0 any (for_range from count body).
Proof.
  induction count as [|count IH]; intros from Hb; cbn [for_range].
  - by apply safe_ret.
  - eapply safe_bind; [apply Hb|]. intros _ _. by apply IH.
Qed.

Lemma safe_node_of n :
  safe s0 (fun nd => exists s, frame s0 s /\ s !! n = Some nd) (node_of n).
Proof.
  unfold node_of. eapply safe_bind; [apply safe_getDom|].
  intros s Hs. eapply safe_weaken; [apply safe_liftO|]. cbn. eauto.
Qed.

Lemma safe_childCount n : safe s0 any (WSP.childCount n).
Proof.
  unfold WSP.childCount. eapply safe_bind; [apply safe_node_of|].
  intros nd _. by apply safe_ret.
Qed.

Lemma safe_data_parsoid_of n : safe s0 any (WSP.data_parsoid_of n).
Proof.
  unfold WSP.data_parsoid_of. eapply safe_bind; [apply safe_node_of|].
  intros nd _. eapply safe_weaken; [apply safe_liftO|done].
Qed.

Lemma region_removeChild parent child s s' :
  DOM.removeChild parent child s = Some s' -> frame s0 s ->
  (b <= child)%nat -> frame s0 s'.
Proof. eauto using frame_removeChild. Qed.

Lemma region_insertBefore parent node ref s s' :
  DOM.insertBefore parent node ref s = Some s' -> frame s0 s ->
  (b <= parent)%nat -> (b <= node)%nat -> frame s0 s'.
Proof. eauto using frame_insertBefore. Qed.

#[local] Hint Resolve region_parent region_firstChild region_lastChild
  region_child_at region_nextSibling region_previousSibling
  optIn_firstChild optIn_nextSibling optIn_previousSibling optIn_None
  optIn_Some allIn_nil allIn_snoc frame_update_links
  frame_setAttribute region_removeChild region_insertBefore : region.

Lemma region_createElement_store name s s' n :
  DOM.createElement name s = (s', n) -> frame s0 s -> frame s0 s'.
Proof.
  intros Hc Hf. destruct (frame_createElement name _ Hf) as [Hs _].
  by rewrite Hc in Hs.
Qed.

Lemma region_createElement_node name s s' n :
  DOM.createElement name s = (s', n) -> frame s0 s -> (b <= n)%nat.
Proof.
  intros Hc Hf. destruct (frame_createElement name _ Hf) as [_ Hn].
  by rewrite Hc in Hn.
Qed.

Lemma region_createTextNode_store text s s' n :
  DOM.createTextNode text s = (s', n) -> frame s0 s -> frame s0 s'.
Proof.
  intros Hc Hf. destruct (frame_createTextNode text _ Hf) as [Hs _].
  by rewrite Hc in Hs.
Qed.

Lemma region_createTextNode_node text s s' n :
  DOM.createTextNode text s = (s', n) -> frame s0 s -> (b <= n)%nat.
Proof.
  intros Hc Hf. destruct (frame_createTextNode text _ Hf) as [_ Hn].
  by rewrite Hc in Hn.
Qed.

#[local] Hint Resolve region_createElement_store region_createElement_node
  region_createTextNode_store region_createTextNode_node : region.

#[local] Hint Extern 1 (scIn _ _) => split; cbn : region.

Ltac clean_hyps :=
  cbv beta in *; cbn [fst snd] in *;
  repeat match goal with
         | H : exists _, _ |- _ => destruct H
         | H : _ /\ _ |- _ => destruct H
         | H : scIn _ _ |- _ => destruct H
         | H : any _ |- _ => clear H
         | H : optIn _ None |- _ => clear H
         | H : optIn _ (Some _) |- _ => apply (optIn_inv _ _ eq_refl) in H
         | E : ?o = Some ?n, H : optIn ?k ?o |- _ =>
             lazymatch goal with
             | _ : (k <= n)%nat |- _ => fail
             | _ => pose proof (optIn_inv _ _ E H)
             end
         end.

Ltac region := solve [exact I | eauto 8 with region].

Ltac safe_leaf :=
  first
    [ apply safe_getDom | apply safe_getSer | apply safe_modifySer
    | apply safe_liftS | apply safe_liftO | apply safe_liftR
    | apply safe_callback | apply safe_throw | apply safe_nofuel
    | apply safe_node_of | apply safe_childCount | apply safe_data_parsoid_of
    | apply safe_modifyDom; intros; region
    | apply safe_liftD; intros; region
    | solve [eauto 8 with safe region] ].

Ltac safe_step :=
  lazymatch goal with
  | |- safe _ _ (mret _) => apply safe_ret; try (cbn; region)
  | |- safe _ _ (?m ≫= _) =>
      lazymatch m with
      | match _ with _ => _ end =>
          lazymatch type of m with
          | M (option nat) => apply (safe_bind (optIn b))
          | M WSP.SepScan => apply (safe_bind (scIn b))
          | _ => apply (safe_bind any)
          end; [|intros ? ?; clean_hyps]
      | _ => eapply safe_bind; [safe_leaf|intros ? ?; clean_hyps]
      end
  | |- safe _ _ (match ?x with _ => _ end) =>
      first [is_var x; destruct x | destruct x eqn:?]; clean_hyps
  | |- safe _ _ (let _ := _ in _) => cbv zeta
  | |- safe _ _ _ =>
      first [safe_leaf | eapply safe_weaken; [safe_leaf|intros; try region]]
  end.

Ltac safe_auto := repeat safe_step.

(** *** The handlers *)

Section FrameHandlers.

Variable recur : nat -> M unit.
Hypothesis recur_safe : forall n, (b <= n)%nat -> safe s0 any (recur n).

Lemma safe_serializeChildren parent cb wtEscaper :
  (b <= parent)%nat ->
  safe s0 any (WSP.serializeChildren recur parent cb wtEscaper).
Proof.
  intros Hp. unfold WSP.serializeChildren. safe_auto.
  eapply safe_bind; [apply safe_for_range|intros ? ?; safe_auto].
  intros i. safe_auto.
Qed.

#[local] Hint Resolve safe_serializeChildren : safe.

Lemma safe_serializeChildrenToString parent wtEscaper :
  (b <= parent)%nat ->
  safe s0 any (WSP.serializeChildrenToString recur parent wtEscaper).
Proof. intros Hp. unfold WSP.serializeChildrenToString. safe_auto. Qed.

#[local] Hint Resolve safe_serializeChildrenToString : safe.

Lemma safe_htmlElementHandler node cb :
  (b <= node)%nat -> safe s0 any (WSP.htmlElementHandler recur node cb).
Proof. intros Hp. unfold WSP.htmlElementHandler. safe_auto. Qed.

#[local] Hint Resolve safe_htmlElementHandler : safe.

Lemma safe_figureHandler node cb :
  (b <= node)%nat -> safe s0 any (WSP.figureHandler recur node cb).
Proof.
  intros Hp. unfold WSP.figureHandler. safe_auto.
  eapply safe_bind;
    [apply safe_serializeChildrenToString|intros ? ?; safe_auto].
  match goal with
  | Heq : _ = Some (_, ?o), Ho : ?o = Some _ |- _ => subst o; revert Heq
  end.
  destruct (DOM.firstChild _ node) as [fc|]; [|done]. cbn.
  destruct (DOM.firstChild _ fc) as [img|]; [|done]. cbn.
  destruct (_ !! img) as [imgNode|]; [|done]. cbn.
  case_bool_decide; [|done]. intros [= _ Hl]. region.
Qed.

#[local] Hint Resolve safe_figureHandler : safe.

Lemma safe_write_tail_prefix node parts :
  (b <= node)%nat -> safe s0 any (WSP.write_tail_prefix node parts).
Proof. intros Hp. unfold WSP.write_tail_prefix. safe_auto. Qed.

#[local] Hint Resolve safe_write_tail_prefix : safe.

Lemma safe_getLinkRoundTripData node :
  safe s0 any (WSP.getLinkRoundTripData node).
Proof. unfold WSP.getLinkRoundTripData. safe_auto. Qed.

#[local] Hint Resolve safe_getLinkRoundTripData : safe.

Lemma safe_wikiLink node cb dp linkData type value :
  (b <= node)%nat ->
  safe s0 any (WSP.wikiLink recur node cb dp linkData type value).
Proof. intros Hp. unfold WSP.wikiLink. safe_auto. Qed.

#[local] Hint Resolve safe_wikiLink : safe.

Lemma safe_linkHandler node cb :
  (b <= node)%nat -> safe s0 any (WSP.linkHandler recur node cb).
Proof. intros Hp. unfold WSP.linkHandler. safe_auto. Qed.

#[local] Hint Resolve safe_linkHandler : safe.

Lemma safe_getDOMHandler node cb :
  (b <= node)%nat -> safe s0 any (WSP.getDOMHandler recur node cb).
Proof. intros Hp. unfold WSP.getDOMHandler. safe_auto. Qed.

Lemma safe_run_domHandler h node cb :
  (b <= node)%nat -> safe s0 any (WSP.run_domHandler recur h node cb).
Proof. intros Hp. unfold WSP.run_domHandler. safe_auto. Qed.

End FrameHandlers.

(** *** The preprocessor *)

Lemma safe_setupSeparator nodeA nodeB sepNodes sepText :
  optIn b nodeA -> optIn b nodeB -> allIn b sepNodes ->
  safe s0 any (WSP.setupSeparator nodeA nodeB sepNodes sepText).
Proof.
  intros HA HB Hs. unfold WSP.setupSeparator. safe_auto.
  clear -Hs. induction sepNodes as [|x l IH]; lazy beta match fix;
    [by apply safe_ret|].
  apply allIn_cons in Hs as [Hn Hl]. safe_auto.
Qed.

Lemma safe_collectTplAttr node : safe s0 any (WSP.collectTplAttr node).
Proof. unfold WSP.collectTplAttr. safe_auto. Qed.

Lemma safe_mergeText node : forall fuel next buf,
  (b <= node)%nat -> optIn b next ->
  safe s0 (fun r => optIn b r.2) (WSP.mergeText fuel node next buf).
Proof.
  induction fuel as [|fuel IH]; intros next buf Hn Hx;
    cbn [WSP.mergeText]; safe_auto.
Qed.

#[local] Hint Resolve safe_setupSeparator safe_collectTplAttr safe_mergeText
  : safe.

Lemma safe_separatorStep node child next prev haveOrigSrc sc :
  (b <= node)%nat -> (b <= child)%nat -> scIn b sc ->
  safe s0 (scIn b)
    (WSP.separatorStep node child next prev haveOrigSrc sc).
Proof.
  intros Hn Hc [Hps Hsn]. unfold WSP.separatorStep. safe_auto.
Qed.

#[local] Hint Resolve safe_separatorStep : safe.

Lemma safe_separatorPass node haveOrigSrc prev : forall fuel child sc,
  (b <= node)%nat -> optIn b child -> scIn b sc ->
  safe s0 (scIn b) (WSP.separatorPass fuel node child prev haveOrigSrc sc).
Proof.
  induction fuel as [|fuel IH]; intros child sc Hn Hc [Hps Hsn];
    destruct child as [c|]; cbn [WSP.separatorPass]; safe_auto.
Qed.

#[local] Hint Resolve safe_separatorPass : safe.

Lemma safe_preprocessDOM haveOrigSrc : forall fuel node inPre,
  (b <= node)%nat ->
  safe s0 any (WSP.preprocessDOM fuel node inPre haveOrigSrc).
Proof.
  induction fuel as [|fuel IH]; intros node inPre Hn;
    cbn [WSP.preprocessDOM]; [apply safe_nofuel|].
  safe_auto.
  match goal with
  | |- safe _ _ (?F fuel (DOM.firstChild ?s node) None ≫= _) =>
      assert (forall n child prev,
                optIn b child -> safe s0 any (F n child prev)) as Hloop
  end.
  { induction n as [|n IHn]; intros [c|] prev Hc; lazy beta match fix;
      clean_hyps; safe_auto. }
  eapply safe_bind; [apply Hloop; region|intros ? ?; clean_hyps].
  safe_auto.
Qed.

#[local] Hint Resolve safe_preprocessDOM : safe.

(** *** The walker *)

Lemma safe_serializeText fuel node : safe s0 any (WSP.serializeText fuel node).
Proof. unfold WSP.serializeText. safe_auto. Qed.

Lemma safe_patchHtmlPre node tkRTInfo :
  (b <= node)%nat -> safe s0 any (WSP.patchHtmlPre node tkRTInfo).
Proof.
  intros Hn. unfold WSP.patchHtmlPre. safe_step. cbv zeta.
  apply (safe_bind (fun o => forall f t, o = Some (f, t) -> (b <= f)%nat)).
  - destruct (DOM.firstChild a node) as [f|] eqn:Hfc; [|by apply safe_ret].
    safe_step. apply safe_ret. intros f' t. case_bool_decide; [|done].
    intros [= <- <-]. region.
  - intros [[f t]|] Hf; [specialize (Hf _ _ eq_refl)|]; safe_auto.
Qed.

Lemma safe_emitSeparatorAt n1 n2 sepType :
  safe s0 any (WSP.emitSeparatorAt n1 n2 sepType).
Proof. unfold WSP.emitSeparatorAt. safe_auto. Qed.

#[local] Hint Resolve safe_serializeText safe_patchHtmlPre
  safe_emitSeparatorAt safe_getDOMHandler safe_run_domHandler : safe.

Section FrameWalker.

Variable recur : nat -> M unit.
Hypothesis recur_safe : forall n, (b <= n)%nat -> safe s0 any (recur n).

Lemma safe_walkChildren node : forall count i prevEltChild,
  (b <= node)%nat -> optIn b prevEltChild ->
  safe s0 (optIn b) (WSP.walkChildren recur node i count prevEltChild).
Proof.
  induction count as [|count IH]; intros i prevEltChild Hn Hp;
    cbn [WSP.walkChildren]; safe_auto.
Qed.

#[local] Hint Resolve safe_walkChildren : safe.

Lemma safe_serializeElement node :
  (b <= node)%nat -> safe s0 any (WSP.serializeElement recur node).
Proof. intros Hn. unfold WSP.serializeElement. safe_auto. Qed.

#[local] Hint Resolve safe_serializeElement : safe.

Lemma safe_serializeNode fuel node :
  (b <= node)%nat -> safe s0 any (WSP.serializeNode recur fuel node).
Proof. intros Hn. unfold WSP.serializeNode. safe_auto. Qed.

End FrameWalker.

Lemma safe__serializeDOM : forall fuel node,
  (b <= node)%nat -> safe s0 any (WSP._serializeDOM fuel node).
Proof.
  induction fuel as [|fuel IH]; intros node Hn; cbn [WSP._serializeDOM];
    [apply safe_nofuel|].
  by apply safe_serializeNode.
Qed.

#[local] Hint Resolve safe__serializeDOM : safe.

Lemma region_cloneNode_store fuel n s s' n' :
  DOM.cloneNode fuel n s = Ok (s', n') -> frame s0 s -> frame s0 s'.
Proof. intros Hc Hf. by destruct (frame_cloneNode _ _ _ _ _ Hf Hc). Qed.

Lemma region_cloneNode_node fuel n s s' n' :
  DOM.cloneNode fuel n s = Ok (s', n') -> frame s0 s -> (b <= n')%nat.
Proof. intros Hc Hf. by destruct (frame_cloneNode _ _ _ _ _ Hf Hc). Qed.

#[local] Hint Resolve region_cloneNode_store region_cloneNode_node : region.

(** Without a selser argument, the store that [serializeDOM] leaves
    behind still frames the store it was given. *)
Lemma frame_serializeDOM fuel page_src node :
  frame s0 (dom (WSP.serializeDOM fuel page_src None node s0).2).
Proof.
  unfold WSP.serializeDOM. cbv zeta.
  match goal with
  | |- frame _ (dom (?m ?w).2) =>
      cut (safe s0 any m); [intros Hm; apply (Hm w), frame_refl|]
  end.
  apply (safe_bind (fun n => (b <= n)%nat)).
  - safe_step. safe_auto.
  - intros n Hn. safe_auto.
Qed.

End Frame.

(** ** Serializing without selser *)

(** C10.  For every call of [serializeDOM] without a selser argument,
    on every store and node, with every page source and whatever the
    outcome (a result, an exception, or the bound of the model on the
    recursion): the node is deep-cloned first and preprocessing and
    serialization run on the copy; the store that the call leaves
    behind is the store of the caller followed by new nodes only, so
    every node of the caller is still there, at its place and as it
    was. *)
Theorem C10_serializeDOM_keeps_tree `{Lib} fuel page_src node s :
  let state := set_env_page_src page_src WSP.initialState in
  let result := WSP.serializeDOM fuel page_src None node s in
  result
  = match DOM.cloneNode fuel node s with
    | Ok (s', node') => serializeCopy fuel page_src node' (mkWorld s' state)
    | Throw => (Throw, mkWorld s state)
    | NoFuel => (NoFuel, mkWorld s state)
    end
  /\ (exists ext, dom result.2 = s ++ ext)
  /\ (forall i nd, s !! i = Some nd -> dom result.2 !! i = Some nd).
Proof.
  intros state result.
  pose proof (frame_serializeDOM s fuel page_src node) as Hf.
  split; [|split].
  - unfold result, WSP.serializeDOM, serializeCopy.
    unfold mbind, M_bind, bind, getDom. cbn [dom ser].
    by destruct (DOM.cloneNode fuel node s) as [[s' node']| |].
  - apply Hf.
  - intros i nd Hl. by eapply frame_prefix.
Qed.

(** The preprocessor folds the two text nodes of [two_texts] into one.
    Without a selser argument it does so on the copy, which follows
    the three nodes of the caller in the store; with one, on the tree
    of the caller. *)
Lemma coalescing_on_the_copy :
  (let result := @WSP.serializeDOM plainLib 10 None None 0%nat two_texts in
   result.1 = Ok tt
   /\ take 3 (dom result.2) = two_texts
   /\ characterData (dom result.2) = [""; "a"; "b"; ""; "ab"; "b"]
   /\ texts (ser result.2) = [""; ""; "ab"; ""; ""; ""])
  /\ (let result :=
        @WSP.serializeDOM plainLib 10 None (Some None) 0%nat two_texts in
      result.1 = Ok tt
      /\ characterData (dom result.2) = [""; "ab"; "b"]
      /\ texts (ser result.2) = [""; ""; "ab"; ""; ""; ""]).
Proof. cbv zeta. repeat split; vm_compute; reflexivity. Qed.

(** ** The web service: escaping for HTML *)

Lemma append_assoc (a b c : string) : (a +:+ b) +:+ c = a +:+ (b +:+ c).
Proof.
  induction a as [|x a IH]; [reflexivity|].
  change (String x ((a +:+ b) +:+ c) = String x (a +:+ (b +:+ c))).
  by rewrite IH.
Qed.

(** Replacing a one-character pattern works character by character. *)
Lemma replace_all_char p rep c s :
  JS.replace_all (String p "") rep (String c s)
  = (if JS.ch p c then rep else String c "")
    +:+ JS.replace_all (String p "") rep s.
Proof.
  unfold JS.replace_all. cbn [JS.replace_all_from JS.startsWith].
  destruct (JS.ch p c); cbn [andb].
  - reflexivity.
  - reflexivity.
Qed.

Lemma replace_all_char_app p rep a b :
  JS.replace_all (String p "") rep (a +:+ b)
  = JS.replace_all (String p "") rep a +:+ JS.replace_all (String p "") rep b.
Proof.
  induction a as [|c a IH]; [reflexivity|].
  change (String c a +:+ b) with (String c (a +:+ b)).
  by rewrite !replace_all_char, IH, append_assoc.
Qed.

Lemma htmlSpecialChars_cons c s :
  Service.htmlSpecialChars (String c s)
  = escapeChar c +:+ Service.htmlSpecialChars s.
Proof.
  unfold Service.htmlSpecialChars, JS.QUOT.
  rewrite replace_all_char, !replace_all_char_app. f_equal.
  unfold escapeChar. destruct (JS.ch "&" c) eqn:E1; [reflexivity|].
  rewrite replace_all_char.
  destruct (JS.ch "<" c) eqn:E2; [reflexivity|].
  change (String c "" +:+ JS.replace_all "<" "&lt;" "") with (String c "").
  rewrite replace_all_char.
  destruct (JS.ch JS.DQUOTE c) eqn:E3; [reflexivity|].
  change (String c "" +:+ JS.replace_all (String JS.DQUOTE "") "&quot;" "")
    with (String c "").
  rewrite replace_all_char.
  destruct (JS.ch "'" c) eqn:E4; reflexivity.
Qed.

(** X1.  [htmlSpecialChars] of a concatenation is the concatenation of the
    escaped parts: no entity is formed or broken across the seam. *)
Theorem htmlSpecialChars_app a b :
  Service.htmlSpecialChars (a +:+ b)
  = Service.htmlSpecialChars a +:+ Service.htmlSpecialChars b.
Proof.
  induction a as [|c a IH]; [reflexivity|].
  change (String c a +:+ b) with (String c (a +:+ b)).
  by rewrite !htmlSpecialChars_cons, IH, append_assoc.
Qed.

Lemma exists_char_app f a b :
  JS.exists_char f (a +:+ b) = JS.exists_char f a || JS.exists_char f b.
Proof.
  induction a as [|c a IH]; [reflexivity|].
  change (String c a +:+ b) with (String c (a +:+ b)). cbn.
  by rewrite IH, orb_assoc.
Qed.

Lemma escapeChar_no_markup c : JS.exists_char isMarkup (escapeChar c) = false.
Proof.
  unfold escapeChar.
  destruct (JS.ch "&" c) eqn:E1; [reflexivity|].
  destruct (JS.ch "<" c) eqn:E2; [reflexivity|].
  destruct (JS.ch JS.DQUOTE c) eqn:E3; [reflexivity|].
  destruct (JS.ch "'" c) eqn:E4; [reflexivity|].
  cbn. unfold isMarkup. by rewrite E2, E3, E4.
Qed.

(** X2.  The result of [htmlSpecialChars] holds no [<], no double quote and
    no apostrophe, whatever the input; an input without [&] and without
    these three characters is returned as it is. *)
Theorem htmlSpecialChars_no_markup s :
  JS.exists_char isMarkup (Service.htmlSpecialChars s) = false
  /\ (JS.exists_char (fun c => JS.ch "&" c || isMarkup c) s = false ->
      Service.htmlSpecialChars s = s).
Proof.
  split.
  - induction s as [|c s IH]; [reflexivity|].
    by rewrite htmlSpecialChars_cons, exists_char_app, escapeChar_no_markup.
  - induction s as [|c s IH]; [reflexivity|].
    cbn [JS.exists_char]. intros Hs.
    apply orb_false_iff in Hs as [Hc Hs].
    apply orb_false_iff in Hc as [H1 Hc]. unfold isMarkup in Hc.
    apply orb_false_iff in Hc as [Hc H4].
    apply orb_false_iff in Hc as [H2 H3].
    rewrite htmlSpecialChars_cons, (IH Hs). unfold escapeChar.
    by rewrite H1, H2, H3, H4.
Qed.

Lemma htmlSpecialChars_no_markup_witness :
  Service.htmlSpecialChars "a b" = "a b".
Proof.
  apply (proj2 (htmlSpecialChars_no_markup "a b")). reflexivity.
Defined.

(** Two characters whose escaped forms begin two equal strings are
    equal, and so are the rests. *)
Lemma escapeChar_inj c d x y :
  escapeChar c +:+ x = escapeChar d +:+ y -> c = d /\ x = y.
Proof.
  unfold escapeChar, JS.ch.
  repeat case_bool_decide; subst; cbn; intros E; simplify_eq; done.
Qed.

(** X3.  [htmlSpecialChars] loses nothing: two inputs with the same result
    are the same input. *)
Theorem htmlSpecialChars_injective a b :
  Service.htmlSpecialChars a = Service.htmlSpecialChars b -> a = b.
Proof.
  revert b. induction a as [|c a IH]; intros [|d b].
  - done.
  - rewrite htmlSpecialChars_cons. unfold escapeChar, JS.ch.
    repeat case_bool_decide; discriminate.
  - rewrite htmlSpecialChars_cons. unfold escapeChar, JS.ch.
    repeat case_bool_decide; discriminate.
  - rewrite !htmlSpecialChars_cons. intros E.
    apply escapeChar_inj in E as [-> E]. by rewrite (IH _ E).
Qed.

Lemma htmlSpecialChars_injective_witness :
  "<b>" = "<b>".
Proof. apply (htmlSpecialChars_injective "<b>" "<b>"). reflexivity. Defined.

(** ** The pipeline factory *)




Lemma filter_filter_ne (event other : string)
    (l : list (string * Pipeline.Listener)) :
  event <> other ->
  filter (fun x => x.1 = event) (filter (fun x => x.1 ≠ other) l)
  = filter (fun x => x.1 = event) l.
Proof.
  intros Hne. induction l as [|x l IH]; [done|].
  rewrite (filter_cons (fun x => x.1 ≠ other)), (filter_cons _ x l).
  repeat case_decide; rewrite ?filter_cons; repeat case_decide;
    try congruence; by rewrite ?IH.
Qed.

Lemma filter_filter_eq (event : string)
    (l : list (string * Pipeline.Listener)) :
  filter (fun x => x.1 = event) (filter (fun x => x.1 ≠ event) l) = [].
Proof.
  induction l as [|x l IH]; [done|].
  rewrite (filter_cons (fun x => x.1 ≠ event)).
  repeat case_decide; rewrite ?filter_cons; repeat case_decide;
    try congruence; done.
Qed.

(** X5.  A pipeline that [returnPipeline] has cleaned keeps no listener for
    [chunk]; for [end] it keeps exactly its own return-to-cache
    callback, if it has one; the listeners of every other event are as
    they were. *)
Theorem cleaned_listeners pipe :
  listenersOf "chunk" (cleaned pipe) = []
  /\ listenersOf "end" (cleaned pipe)
     = match Pipeline.returnToCacheCB pipe with
       | Some cb => [cb]
       | None => []
       end
  /\ Pipeline.returnToCacheCB (cleaned pipe) = Pipeline.returnToCacheCB pipe
  /\ forall event, event <> "end" -> event <> "chunk" ->
       listenersOf event (cleaned pipe) = listenersOf event pipe.
Proof.
  unfold cleaned, listenersOf, Pipeline.removeAllListeners,
    Pipeline.emitter_add, Pipeline.emitter_removeAll.
  rewrite bool_decide_eq_false_2 by done.
  rewrite bool_decide_eq_true_2 by done.
  destruct (Pipeline.returnToCacheCB pipe) as [cb|]; cbn [Pipeline.listeners
    Pipeline.returnToCacheCB].
  - split; [by rewrite filter_filter_eq|]. split; [|split; [done|]].
    + rewrite filter_filter_ne by done.
      rewrite filter_app, filter_filter_eq. done.
    + intros event He Hc. rewrite filter_filter_ne by done.
      rewrite filter_app, filter_filter_ne by done.
      rewrite (filter_cons_False _ ("end", cb)) by (cbn; congruence).
      by rewrite filter_nil, app_nil_r.
  - split; [by rewrite filter_filter_eq|]. split; [|split; [done|]].
    + rewrite filter_filter_ne by done. by rewrite filter_filter_eq.
    + intros event He Hc. by rewrite !filter_filter_ne.
Qed.

(** X6.  A pipeline returned to a cache entry that holds fewer than eight
    pipelines is the one that the next [getPipeline] for that key hands
    out, cleaned, and the cache is then as it was before the return;
    [makePipeline] is not called. *)
Theorem returnPipeline_getPipeline makePipeline type options pipe
    pipelineCache cache :
  pipelineCache !! pipelineKey type options = Some cache ->
  (length cache < 8)%nat ->
  exists pipelineCache',
    Pipeline.returnPipeline (pipelineKey type options) pipe pipelineCache
    = Some pipelineCache'
    /\ Pipeline.getPipeline makePipeline type options pipelineCache'
       = Some (cleaned pipe, pipelineCache).
Proof.
  unfold Pipeline.returnPipeline, Pipeline.getPipeline.
  fold (completed options). fold (pipelineKey type options).
  unfold Pipeline.Cache in *. cbv zeta.
  intros Hc Hlen. rewrite Hc. cbn -[Nat.ltb].
  apply Nat.ltb_lt in Hlen. rewrite Hlen. eexists. split; [reflexivity|].
  rewrite lookup_insert_eq. cbn -[Nat.ltb].
  rewrite lookup_insert_eq. cbn -[Nat.ltb].
  rewrite last_snoc. rewrite removelast_last, insert_insert_eq.
  by rewrite insert_id.
Qed.

Lemma returnPipeline_getPipeline_witness :
  exists pipelineCache',
    Pipeline.returnPipeline (pipelineKey "t" None) used_pipe
      {[ pipelineKey "t" None := [] ]}
    = Some pipelineCache'
    /\ Pipeline.getPipeline (fun _ _ => None) "t" None pipelineCache'
       = Some (cleaned used_pipe, {[ pipelineKey "t" None := [] ]}).
Proof.
  apply (returnPipeline_getPipeline (fun _ _ => None) "t" None used_pipe
           {[ pipelineKey "t" None := [] ]} []).
  - apply lookup_singleton_eq.
  - cbn. lia.
Defined.



(** ** The web service: refining a diff *)

Lemma append_empty_l s : "" +:+ s = s.
Proof. reflexivity. Qed.

Ltac strings :=
  cbn [pendingValue];
  repeat (rewrite append_assoc || rewrite append_empty_l
          || rewrite append_empty);
  try done.

Lemma newText_app a b : newText (a ++ b) = newText a +:+ newText b.
Proof.
  induction a as [|d a IH]; [reflexivity|]. cbn [app newText].
  by rewrite IH, append_assoc.
Qed.

Lemma oldText_app a b : oldText (a ++ b) = oldText a +:+ oldText b.
Proof.
  induction a as [|d a IH]; [reflexivity|]. cbn [app oldText].
  by rewrite IH, append_assoc.
Qed.

Lemma newText_purge_ins c out :
  pendingIns c ->
  newText (Service.purge c out) = newText out +:+ pendingValue c.
Proof.
  intros Hc. destruct c as [d|]; cbn; [|by rewrite append_empty].
  rewrite newText_app. cbn. rewrite (Hc d eq_refl). cbn.
  by rewrite append_empty.
Qed.

Lemma newText_purge_del c out :
  pendingDel c -> newText (Service.purge c out) = newText out.
Proof.
  intros Hc. destruct c as [d|]; cbn; [|done].
  rewrite newText_app. cbn. destruct (Hc d eq_refl) as [-> ->]. cbn.
  by rewrite append_empty.
Qed.

Lemma oldText_purge_ins c out :
  pendingIns c -> oldText (Service.purge c out) = oldText out.
Proof.
  intros Hc. destruct c as [d|]; cbn; [|done].
  rewrite oldText_app. cbn. rewrite (Hc d eq_refl). cbn.
  by rewrite append_empty.
Qed.

Lemma oldText_purge_del c out :
  pendingDel c ->
  oldText (Service.purge c out) = oldText out +:+ pendingValue c.
Proof.
  intros Hc. destruct c as [d|]; cbn; [|by rewrite append_empty].
  rewrite oldText_app. cbn. destruct (Hc d eq_refl) as [-> _]. cbn.
  by rewrite append_empty.
Qed.

Lemma pendingIns_accumulate c d :
  pendingIns c -> Service.added d = true ->
  pendingIns (Service.accumulate c d)
  /\ pendingValue (Service.accumulate c d)
     = pendingValue c +:+ Service.value d.
Proof.
  intros Hc Hd. destruct c as [e|]; cbn.
  - split; [|done]. intros ? [= <-]. cbn. by apply Hc.
  - split; [|done]. by intros ? [= <-].
Qed.

Lemma pendingDel_accumulate c d :
  pendingDel c -> Service.added d = false -> Service.removed d = true ->
  pendingDel (Service.accumulate c d)
  /\ pendingValue (Service.accumulate c d)
     = pendingValue c +:+ Service.value d.
Proof.
  intros Hc Ha Hr. destruct c as [e|]; cbn.
  - split; [|done]. intros ? [= <-]. cbn. by apply Hc.
  - split; [|done]. by intros ? [= <-].
Qed.

Lemma mergeLoop_texts wordDiffs : forall currIns currDel newDiffs,
  pendingIns currIns -> pendingDel currDel ->
  newText (Service.mergeLoop wordDiffs currIns currDel newDiffs)
  = newText newDiffs +:+ pendingValue currIns +:+ newText wordDiffs
  /\ oldText (Service.mergeLoop wordDiffs currIns currDel newDiffs)
     = oldText newDiffs +:+ pendingValue currDel +:+ oldText wordDiffs.
Proof.
  induction wordDiffs as [|d rest IH]; intros currIns currDel newDiffs Hi Hd;
    cbn [Service.mergeLoop newText oldText].
  - rewrite newText_purge_del, newText_purge_ins by done.
    rewrite oldText_purge_del, oldText_purge_ins by done.
    by rewrite !append_empty.
  - assert (Hpurge :
      newText (Service.purge currDel (Service.purge currIns newDiffs) ++ [d])
      = newText newDiffs +:+ pendingValue currIns +:+ newText [d]
      /\ oldText (Service.purge currDel (Service.purge currIns newDiffs)
                  ++ [d])
         = oldText newDiffs +:+ pendingValue currDel +:+ oldText [d]).
    { rewrite newText_app, oldText_app.
      rewrite newText_purge_del, newText_purge_ins by done.
      rewrite oldText_purge_del, oldText_purge_ins by done.
      by rewrite !append_assoc. }
    assert (Hnone : pendingIns None /\ pendingDel None)
      by (split; intros ? [=]).
    destruct (Service.added d) eqn:Ha.
    + destruct (pendingIns_accumulate currIns d Hi Ha) as [Hi' Hv].
      destruct (IH _ _ newDiffs Hi' Hd) as [-> ->]. rewrite Hv. cbn.
      by rewrite !append_assoc.
    + destruct (Service.removed d) eqn:Hr.
      * destruct (pendingDel_accumulate currDel d Hd Ha Hr) as [Hd' Hv].
        destruct (IH _ _ newDiffs Hi Hd') as [-> ->]. rewrite Hv. cbn.
        by rewrite !append_assoc.
      * cbn [negb andb]. destruct Hpurge as [Hn Ho]. cbn in Hn, Ho.
        rewrite Ha, Hr in Hn. rewrite Ha in Ho. cbn in Hn.
        rewrite append_empty in Hn, Ho.
        destruct currIns as [ins|], currDel as [del|];
          [destruct (_ || _)|..];
          try (match goal with
               | |- context [Service.mergeLoop rest None None ?nd] =>
                   destruct (IH None None nd (proj1 Hnone) (proj2 Hnone))
                     as [-> ->]
               end; rewrite Hn, Ho; by strings).
        assert (Hi' : pendingIns
                  (Some (Service.set_value
                           (Service.value ins +:+ Service.value d) ins)))
          by (intros ? [= <-]; cbn; by apply Hi).
        assert (Hd' : pendingDel
                  (Some (Service.set_value
                           (Service.value del +:+ Service.value d) del)))
          by (intros ? [= <-]; cbn; by apply Hd).
        destruct (IH _ _ newDiffs Hi' Hd') as [-> ->]. cbn. by strings.
Qed.

Lemma mergeConsecutiveSegments_keeps wordDiffs :
  oldText (Service.mergeLoop wordDiffs None None []) = oldText wordDiffs
  /\ newText (Service.mergeLoop wordDiffs None None []) = newText wordDiffs.
Proof.
  destruct (mergeLoop_texts wordDiffs None None []) as [-> ->];
    [by intros ? [=]..|]. done.
Qed.

(** X8.  [mergeConsecutiveSegments] regroups a word diff without changing
    what it says: the text before the change and the text after it,
    read off the result, are those read off the input. *)
Theorem mergeConsecutiveSegments_texts wordDiffs :
  oldText (Service.mergeConsecutiveSegments wordDiffs) = oldText wordDiffs
  /\ newText (Service.mergeConsecutiveSegments wordDiffs) = newText wordDiffs.
Proof.
  unfold Service.mergeConsecutiveSegments.
  destruct (mergeLoop_texts wordDiffs None None []) as [-> ->];
    [by intros ? [=]..|]. done.
Qed.

Lemma refineLoop_texts diffWords diff : forall pending out,
  faithful diffWords -> pendingIns pending ->
  newText (Service.refineLoop diffWords diff pending out)
  = newText out +:+ pendingValue pending +:+ newText diff
  /\ oldText (Service.refineLoop diffWords diff pending out)
     = oldText out +:+ oldText diff.
Proof.
  induction diff as [|d rest IH]; intros pending out Hf Hp;
    cbn [Service.refineLoop newText oldText].
  - rewrite newText_purge_ins, oldText_purge_ins by done.
    by rewrite !append_empty.
  - assert (Hnone : pendingIns None) by intros ? [=].
    destruct (Service.added d) eqn:Ha.
    + assert (Hd : pendingIns (Some d)) by (by intros ? [= <-]).
      destruct (IH (Some d) (Service.purge pending out) Hf Hd) as [-> ->].
      rewrite newText_purge_ins, oldText_purge_ins by done. cbn.
      by rewrite !append_assoc.
    + destruct (Service.removed d) eqn:Hr; cbn [negb andb].
      * destruct pending as [a|].
        -- destruct (IH None (out ++ Service.mergeConsecutiveSegments
                                       (diffWords (Service.value d)
                                          (Service.value a))) Hf Hnone)
             as [-> ->].
           rewrite newText_app, oldText_app.
           unfold Service.mergeConsecutiveSegments.
           destruct (mergeConsecutiveSegments_keeps
                       (diffWords (Service.value d) (Service.value a)))
             as [-> ->].
           destruct (Hf (Service.value d) (Service.value a)) as [-> ->].
           cbn. by rewrite !append_assoc.
        -- destruct (IH None (out ++ [d]) Hf Hnone) as [-> ->].
           rewrite newText_app, oldText_app. cbn. rewrite Ha, Hr. cbn.
           by rewrite !append_assoc.
      * destruct (IH None (Service.purge pending out ++ [d]) Hf Hnone)
          as [-> ->].
        rewrite newText_app, oldText_app.
        rewrite newText_purge_ins, oldText_purge_ins by done.
        cbn. rewrite Ha, Hr. cbn. by rewrite !append_assoc.
Qed.

(** X9.  With a word diff that tells the old text from the new one,
    [refineDiff] turns a line diff into a finer one that says the same:
    the text before the change and the text after it are unchanged. *)
Theorem refineDiff_texts diffWords diff :
  faithful diffWords ->
  oldText (Service.refineDiff diffWords diff) = oldText diff
  /\ newText (Service.refineDiff diffWords diff) = newText diff.
Proof.
  intros Hf. unfold Service.refineDiff.
  destruct (refineLoop_texts diffWords diff None [] Hf) as [-> ->];
    [by intros ? [=]|]. done.
Qed.

Lemma refineDiff_texts_witness :
  oldText (Service.refineDiff replaceAll
             [Service.mkChange "new line" true false;
              Service.mkChange "old line" false true])
  = "old line"
  /\ newText (Service.refineDiff replaceAll
                [Service.mkChange "new line" true false;
                 Service.mkChange "old line" false true])
     = "new line".
Proof.
  apply (refineDiff_texts replaceAll
           [Service.mkChange "new line" true false;
            Service.mkChange "old line" false true]).
  intros a b. cbn. by rewrite !append_empty.
Defined.

(** ** Separator constraints *)

(** X10.  [getSepConstraints] intersects the two requirements: a number of
    newlines (not negative) lies within the bounds it returns exactly
    when it satisfies the range asked for on the side of [nodeA] and
    the range asked for on the side of [nodeB]; a conflict ([null]) is
    reported only when no such number exists. *)
Theorem getSepConstraints_intersection nodeA handlerA nodeB handlerB n :
  0 <= n ->
  ((exists c,
      WSP.getSepConstraints nodeA handlerA nodeB handlerB = Some c
      /\ inRange (WSP.sc_min c) (WSP.sc_max c) n)
   <-> inRange (WSP.nl_min (rangeOf handlerA nodeB))
         (WSP.nl_max (rangeOf handlerA nodeB)) n
       /\ inRange (WSP.nl_min (rangeOf handlerB nodeA))
            (WSP.nl_max (rangeOf handlerB nodeA)) n).
Proof.
  intros Hn. unfold WSP.getSepConstraints, rangeOf, inRange.
  destruct handlerA as [hA|], handlerB as [hB|]; cbn;
    try destruct (hA nodeB) as [[amin|] [amax|]];
    try destruct (hB nodeA) as [[bmin|] [bmax|]]; cbn;
    repeat match goal with
           | |- context [?x <? ?y] => destruct (Z.ltb_spec x y); cbn
           end.
  all: split.
  all: try (intros (c & E & H1 & H2); simplify_eq; cbn in *; lia).
  all: intros [[H1 H2] [H3 H4]].
  all: try (exfalso; lia).
  all: eexists; split; [reflexivity|]; cbn; lia.
Qed.

Lemma getSepConstraints_intersection_witness :
  (exists c,
     WSP.getSepConstraints 0 (Some oneOrTwo) 1 (Some atLeastTwo) = Some c
     /\ inRange (WSP.sc_min c) (WSP.sc_max c) 2)
  <-> inRange (Some 1) (Some 2) 2 /\ inRange (Some 2) None 2.
Proof.
  apply (getSepConstraints_intersection 0 (Some oneOrTwo) 1
           (Some atLeastTwo) 2). lia.
Defined.

(** ** Fencing a text *)





Lemma split_trailing_snoc_cr s :
  exists t, (JS.split_trailing (s +:+ bare_cr)).2 = t +:+ bare_cr.
Proof.
  induction s as [|c s [t IH]]; [by exists ""|].
  change (String c s +:+ bare_cr) with (String c (s +:+ bare_cr)).
  cbn [JS.split_trailing].
  destruct (JS.split_trailing (s +:+ bare_cr)) as [b tl]. cbn [snd] in *.
  destruct b as [|d b]; [|by exists t].
  destruct (JS.is_lt c); [|by exists t].
  cbn [snd]. exists (String c t). by rewrite IH.
Qed.

Lemma crlf_run_snoc_cr t : JS.crlf_run (t +:+ bare_cr) = false.
Proof.
  assert (H : forall n t, (String.length t <= n)%nat ->
                JS.crlf_run (t +:+ bare_cr) = false).
  { clear t. induction n as [|n IH]; intros [|c t] Hlen; cbn in Hlen;
      try lia; try done.
    change (String c t +:+ bare_cr) with (String c (t +:+ bare_cr)).
    cbn [JS.crlf_run]. destruct (JS.ch c JS.LF); [apply IH; lia|].
    destruct (JS.ch c JS.CR); [|done].
    destruct t as [|d t]; [done|].
    change (String d t +:+ bare_cr) with (String d (t +:+ bare_cr)).
    lazy beta iota.
    destruct (JS.ch d JS.LF); [|done]. cbn [andb]. apply IH.
    cbn in Hlen. lia. }
  by apply (H (String.length t)).
Qed.

(** X12.  [escapedText] fails on every text that ends in a carriage return:
    its pattern does not match there, and the source reads the groups
    of a match that is [null]. *)
Theorem escapedText_bare_cr text :
  WSP.escapedText (text +:+ bare_cr) = None.
Proof.
  unfold WSP.escapedText.
  destruct (split_trailing_snoc_cr text) as [t Ht].
  destruct (JS.split_trailing (text +:+ bare_cr)) as [body nls].
  cbn [snd] in Ht. subst nls. by rewrite crlf_run_snoc_cr.
Qed.

(** ** Replacing the nowiki tags *)

Lemma replace_nowiki_from_drop k : forall s,
  JS.replace_nowiki_from k s = JS.replace_nowiki (JS.drop k s).
Proof.
  induction k as [|k IH]; intros [|c s]; try reflexivity.
  cbn [JS.replace_nowiki_from JS.drop]. apply IH.
Qed.

Lemma replace_nowiki_cons c s :
  JS.replace_nowiki (String c s)
  = if JS.startsWith "<nowiki>" (String c s)
    then "&lt;nowiki&gt;" +:+ JS.replace_nowiki (JS.drop 7 s)
    else if JS.startsWith "</nowiki>" (String c s)
    then "&lt;/nowiki&gt;" +:+ JS.replace_nowiki (JS.drop 8 s)
    else String c (JS.replace_nowiki s).
Proof.
  unfold JS.replace_nowiki at 1. cbn [JS.replace_nowiki_from].
  by rewrite !replace_nowiki_from_drop.
Qed.

Lemma drop_length k : forall s,
  (String.length (JS.drop k s) <= String.length s)%nat.
Proof.
  induction k as [|k IH]; intros [|c s]; cbn; try lia.
  specialize (IH s). lia.
Qed.

(** What the replacement starts with, when that holds no ampersand,
    the text started with. *)
Lemma startsWith_replace_nowiki q : forall s,
  JS.forall_char (fun c => negb (JS.ch c "&")) q = true ->
  JS.startsWith q (JS.replace_nowiki s) = true ->
  JS.startsWith q s = true.
Proof.
  induction q as [|a q IH]; intros s Hq Hs; [done|].
  cbn -[JS.ch] in Hq. apply andb_true_iff in Hq as [Ha Hq].
  destruct s as [|c s]; [done|]. rewrite replace_nowiki_cons in Hs.
  assert (Hamp : JS.ch a "&" = false) by by destruct (JS.ch a "&").
  destruct (JS.startsWith "<nowiki>" (String c s)).
  { cbv beta iota delta [String.append JS.startsWith] in Hs.
    by rewrite Hamp in Hs. }
  destruct (JS.startsWith "</nowiki>" (String c s)).
  { cbv beta iota delta [String.append JS.startsWith] in Hs.
    by rewrite Hamp in Hs. }
  cbn -[JS.ch] in Hs |- *. apply andb_true_iff in Hs as [-> Hs].
  cbn [andb]. by apply IH.
Qed.

Lemma includes_replace_nowiki q :
  JS.forall_char (fun c => negb (JS.ch c "&")) q = true ->
  (forall s, JS.startsWith (String "<" q) s = true ->
     JS.startsWith "<nowiki>" s || JS.startsWith "</nowiki>" s = true) ->
  (forall x, JS.includes (String "<" q) ("&lt;nowiki&gt;" +:+ x)
             = JS.includes (String "<" q) x) ->
  (forall x, JS.includes (String "<" q) ("&lt;/nowiki&gt;" +:+ x)
             = JS.includes (String "<" q) x) ->
  forall s, JS.includes (String "<" q) (JS.replace_nowiki s) = false.
Proof.
  intros Hq Htag He1 He2 s.
  assert (H : forall n s, (String.length s <= n)%nat ->
                JS.includes (String "<" q) (JS.replace_nowiki s) = false).
  { clear s. induction n as [|n IH]; intros [|c s] Hlen; cbn in Hlen;
      try lia; try done.
    rewrite replace_nowiki_cons.
    destruct (JS.startsWith "<nowiki>" (String c s)) eqn:E1.
    { rewrite He1. apply IH. pose proof (drop_length 7 s). lia. }
    destruct (JS.startsWith "</nowiki>" (String c s)) eqn:E2.
    { rewrite He2. apply IH. pose proof (drop_length 8 s). lia. }
    cbn [JS.includes]. rewrite IH by lia. rewrite orb_false_r.
    destruct (JS.startsWith (String "<" q)
                (String c (JS.replace_nowiki s))) eqn:E; [|done].
    cbn [JS.startsWith] in E. apply andb_true_iff in E as [Hc E].
    apply (startsWith_replace_nowiki q s Hq) in E.
    assert (Hp : JS.startsWith (String "<" q) (String c s) = true)
      by (cbn [JS.startsWith]; by rewrite Hc, E).
    apply Htag in Hp. by rewrite E1, E2 in Hp. }
  by apply (H (String.length s)).
Qed.

(** X13.  After the replacement of the nowiki tags by their entity forms, no
    opening and no closing nowiki tag is left in the text, and none has
    been formed by the replacement. *)
Theorem replace_nowiki_complete s :
  JS.includes "<nowiki>" (JS.replace_nowiki s) = false
  /\ JS.includes "</nowiki>" (JS.replace_nowiki s) = false.
Proof.
  split.
  - apply (includes_replace_nowiki "nowiki>"); try done.
    intros x Hx. by rewrite Hx.
  - apply (includes_replace_nowiki "/nowiki>"); try done.
    intros x Hx. by rewrite Hx, orb_true_r.
Qed.

(** ** Escaping a text *)

(** The state that [escapeWikiText] returns. *)
Lemma escapeWikiText_state `{Lib} state text res state' :
  WSP.escapeWikiText state text = Some (res, state') ->
  state' = state
  \/ exists cl, state' = set_currLine cl (consulted state text).
Proof.
  unfold WSP.escapeWikiText.
  destruct (negb (JS.urlTriggers text) && negb (JS.wt_special text)).
  { intros [= <- <-]. by left. }
  assert (Hcons : consulted state text
                  = (match last (wteHandlerStack state) with
                     | Some (Some wteHandler) =>
                         WEHP.call wteHandler state text
                     | _ => (false, state)
                     end).2).
  { unfold consulted. by destruct (last (wteHandlerStack state)) as [[h|]|]. }
  destruct (match last (wteHandlerStack state) with
            | Some (Some wteHandler) => WEHP.call wteHandler state text
            | _ => (false, state)
            end) as [hit st1].
  cbn [snd] in Hcons. rewrite Hcons. clear Hcons.
  assert (Hst1 : state' = st1 ->
            state' = state \/ exists cl, state' = set_currLine cl st1)
    by (intros ->; right; exists (currLine st1); by destruct st1).
  assert (Hesc : forall t,
            (WSP.escapedText t ≫= fun r => Some (r, st1))
            = Some (res, state') -> state' = st1)
    by (intros t Ht; destruct (WSP.escapedText t); cbn in Ht;
        [by injection Ht as -> ->|discriminate]).
  destruct hit; [intros Hs%Hesc; by apply Hst1|].
  destruct (JS.has_braces text); [intros Hs%Hesc; by apply Hst1|].
  match goal with |- context [if ?c then Some (text, st1) else _] =>
    destruct c end;
    [intros [= <- <-]; by apply Hst1|].
  match goal with |- context [if ?c then _ else _] => destruct c end;
    [intros Hs%Hesc; by apply Hst1|].
  match goal with |- context [if ?c then _ else _] => destruct c end;
    [intros Hs%Hesc; by apply Hst1|].
  match goal with |- context [if ?c then _ else _] => destruct c end;
    [|intros [= <- <-]; by apply Hst1].
  match goal with |- context [mbind _ ?m] => destruct m as [cl|] end;
    cbn; [|discriminate].
  match goal with |- context [if ?c then _ else _] => destruct c end.
  - intros Ht.
    destruct (WSP.escapedText _) eqn:E; cbn in Ht; [|discriminate].
    injection Ht as <- <-. right. by exists cl.
  - intros [= <- <-]. right; by exists cl.
Qed.

(** X14.  What [escapeWikiText] returns is the text itself, or the text with
    its nowiki tags replaced, either of them as it stands or fenced by
    [escapedText]: it never changes the text in another way.  The state
    it returns is the state it was given, or the state after the
    handler on top of the stack was consulted, with [currLine] possibly
    rewritten. *)
Theorem escapeWikiText_result `{Lib} state text res state' :
  WSP.escapeWikiText state text = Some (res, state') ->
  (res = text \/ WSP.escapedText text = Some res
   \/ res = JS.replace_nowiki text
   \/ WSP.escapedText (JS.replace_nowiki text) = Some res)
  /\ (state' = state
      \/ exists cl, state' = set_currLine cl (consulted state text)).
Proof.
  intros Hres. split; [|by eapply escapeWikiText_state]. revert Hres.
  unfold WSP.escapeWikiText.
  destruct (negb (JS.urlTriggers text) && negb (JS.wt_special text)).
  { intros [= <- <-]. by left. }
  destruct (match last (wteHandlerStack state) with
            | Some (Some wteHandler) => WEHP.call wteHandler state text
            | _ => (false, state)
            end) as [hit st1].
  assert (Hesc : forall t,
            (WSP.escapedText t ≫= fun r => Some (r, st1))
            = Some (res, state') -> WSP.escapedText t = Some res)
    by (intros t Ht; destruct (WSP.escapedText t); cbn in Ht;
        [by injection Ht as -> ->|discriminate]).
  destruct hit; [intros Hr%Hesc; by right; left|].
  destruct (JS.has_braces text); [intros Hr%Hesc; by right; left|].
  match goal with |- context [if ?c then Some (text, st1) else _] =>
    destruct c end;
    [intros [= <- <-]; by left|].
  match goal with |- context [if ?c then _ else _] => destruct c end;
    [intros Hr%Hesc; by right; left|].
  match goal with |- context [if ?c then _ else _] => destruct c end;
    [intros Hr%Hesc; by do 3 right|].
  match goal with |- context [if ?c then _ else _] => destruct c end;
    [|intros [= <- <-]; by do 2 right; left].
  match goal with |- context [mbind _ ?m] => destruct m as [cl|] end;
    cbn; [|discriminate].
  match goal with |- context [if ?c then _ else _] => destruct c end.
  - intros Ht.
    destruct (WSP.escapedText _) eqn:E; cbn in Ht; [|discriminate].
    injection Ht as <- <-. by do 3 right.
  - intros [= <- <-]. by do 2 right; left.
Qed.

Lemma escapeWikiText_result_witness :
  ("[[x]]" = "[[x]]" \/ @WSP.escapedText "[[x]]" = Some "[[x]]"
   \/ "[[x]]" = JS.replace_nowiki "[[x]]"
   \/ WSP.escapedText (JS.replace_nowiki "[[x]]") = Some "[[x]]")
  /\ (WSP.initialState = WSP.initialState
      \/ exists cl,
           WSP.initialState
           = set_currLine cl (@consulted plainLib WSP.initialState "[[x]]")).
Proof.
  apply (@escapeWikiText_result plainLib WSP.initialState "[[x]]").
  vm_compute. reflexivity.
Defined.

Lemma consulted_stack `{Lib} state text :
  wteHandlerStack (consulted state text) = wteHandlerStack state
  \/ exists h,
       last (wteHandlerStack state) = Some (Some h) /\ oneShot h = true
       /\ wteHandlerStack (consulted state text)
          = push None (pop (wteHandlerStack state)).
Proof.
  unfold consulted.
  destruct (last (wteHandlerStack state)) as [[h|]|] eqn:E; try by left.
  destruct h; cbn; try (by left); right; eexists; by split.
Qed.

(** What [escapeWikiText] does to the stack of escape handlers. *)
Lemma escapeWikiText_top `{Lib} state text res state' :
  WSP.escapeWikiText state text = Some (res, state') ->
  wteHandlerStack state' = wteHandlerStack state
  \/ exists h l,
       wteHandlerStack state = l ++ [Some h] /\ oneShot h = true
       /\ wteHandlerStack state' = l ++ [None].
Proof.
  intros Hesc. apply escapeWikiText_state in Hesc as [->|[cl ->]]; [by left|].
  change (wteHandlerStack (set_currLine cl ?s)) with (wteHandlerStack s).
  destruct (consulted_stack state text) as [->|(h & Hlast & Hone & ->)];
    [by left|].
  right. apply last_Some in Hlast as [l Hl]. exists h, l.
  split; [done|]. split; [done|].
  rewrite Hl. unfold push, pop. by rewrite removelast_last.
Qed.

(** X15.  [escapeWikiText] keeps the depth of [wteHandlerStack] and every
    entry below the top; the top itself changes only when it is the
    heading or the list-item handler, which is then replaced by
    [null]. *)
Theorem escapeWikiText_stack `{Lib} state text res state' :
  WSP.escapeWikiText state text = Some (res, state') ->
  length (wteHandlerStack state') = length (wteHandlerStack state)
  /\ pop (wteHandlerStack state') = pop (wteHandlerStack state)
  /\ (wteHandlerStack state' = wteHandlerStack state
      \/ exists h,
           last (wteHandlerStack state) = Some (Some h) /\ oneShot h = true
           /\ last (wteHandlerStack state') = Some None).
Proof.
  intros Hesc.
  apply escapeWikiText_top in Hesc as [->|(h & l & Hl & Hone & ->)];
    [by repeat split; left|].
  rewrite Hl. unfold pop. rewrite !removelast_last, !length_app. cbn.
  split; [done|]. split; [done|].
  right. exists h. by rewrite !last_snoc.
Qed.

Lemma escapeWikiText_stack_witness :
  length (wteHandlerStack heading_escaped) = length (wteHandlerStack in_heading)
  /\ pop (wteHandlerStack heading_escaped) = pop (wteHandlerStack in_heading)
  /\ (wteHandlerStack heading_escaped = wteHandlerStack in_heading
      \/ exists h,
           last (wteHandlerStack in_heading) = Some (Some h)
           /\ oneShot h = true
           /\ last (wteHandlerStack heading_escaped) = Some None).
Proof.
  apply (@escapeWikiText_stack plainLib in_heading "=a=" "=a="
           heading_escaped).
  vm_compute. reflexivity.
Defined.

(** X16.  [escapeWikiLinkContentString] leaves [wteHandlerStack] as it found
    it: the wikilink handler it pushes is popped again, and nothing
    below is touched.  It returns with [onStartOfLine] cleared. *)
Theorem escapeWikiLinkContentString_stack `{Lib} contentString state res
    state' :
  WSP.escapeWikiLinkContentString contentString state = Some (res, state') ->
  wteHandlerStack state' = wteHandlerStack state
  /\ onStartOfLine state' = false.
Proof.
  unfold WSP.escapeWikiLinkContentString.
  destruct (WSP.escapeWikiText _ contentString) as [[r st]|] eqn:E;
    cbn; [|discriminate].
  intros [= <- <-].
  assert (Hpop : pop (wteHandlerStack st)
                 = pop (push (Some WteWikilink) (wteHandlerStack state))).
  { apply escapeWikiText_top in E as [->|(h & l & Hl & _ & ->)]; [done|].
    change (wteHandlerStack state ++ [Some WteWikilink] = l ++ [Some h])
      in Hl.
    unfold push, pop. by rewrite Hl, !removelast_last. }
  apply escapeWikiText_frame in E as (stack & cl & ->).
  cbn in Hpop |- *. split; [|done].
  rewrite Hpop. unfold push, pop. by rewrite removelast_last.
Qed.

Lemma escapeWikiLinkContentString_stack_witness :
  wteHandlerStack link_content_escaped.2 = [Some WteHeading]
  /\ onStartOfLine link_content_escaped.2 = false.
Proof.
  apply (@escapeWikiLinkContentString_stack plainLib "a]" in_heading
           link_content_escaped.1 link_content_escaped.2).
  vm_compute. reflexivity.
Defined.

(** ** The block that a text belongs to *)

(** X17.  [firstBlockNodeAncestor] returns the nearest block node on the way
    from the node to the root, the node itself included; it returns it
    as soon as the bound on the steps exceeds the number of steps to
    that node, and it returns no other node. *)
Theorem firstBlockNodeAncestor_nearest `{Lib} s bn : forall fuel node,
  WSP.firstBlockNodeAncestor fuel s node = Ok bn
  <-> exists k, (k < fuel)%nat /\ nearestBlock s node k bn.
Proof.
  unfold nearestBlock, blockNode.
  induction fuel as [|fuel IH]; intros node; cbn [WSP.firstBlockNodeAncestor].
  { split; [done|]. intros (k & Hk & _). lia. }
  destruct (s !! node) as [nd|] eqn:Hnd.
  2:{ split; [done|]. intros ([|k] & _ & Ha & Hb & Hc).
      - injection Ha as <-. by rewrite Hnd in Hb.
      - cbn in Ha. by rewrite Hnd in Ha. }
  destruct (isHtmlBlockTag (WSP.lower_name nd)) eqn:Hblock.
  - split.
    + intros [= <-]. exists 0%nat. split; [lia|]. split; [done|].
      split; [by rewrite Hnd|]. intros; lia.
    + intros ([|k] & _ & Ha & Hb & Hc); [by injection Ha as <-|].
      specialize (Hc 0%nat node ltac:(lia) eq_refl).
      by rewrite Hnd, Hblock in Hc.
  - destruct (parentNode nd) as [p|] eqn:Hp.
    + rewrite IH. split.
      * intros (k & Hk & Ha & Hb & Hc). exists (S k). split; [lia|].
        split; [cbn; by rewrite Hnd; cbn; rewrite Hp|]. split; [done|].
        intros [|j] m Hj Hm.
        -- injection Hm as <-. by rewrite Hnd.
        -- cbn in Hm. rewrite Hnd in Hm. cbn in Hm. rewrite Hp in Hm.
           apply (Hc j); [lia|done].
      * intros ([|k] & Hk & Ha & Hb & Hc).
        -- injection Ha as <-. by rewrite Hnd, Hblock in Hb.
        -- cbn in Ha. rewrite Hnd in Ha. cbn in Ha. rewrite Hp in Ha.
           exists k. split; [lia|]. split; [done|]. split; [done|].
           intros j m Hj Hm. apply (Hc (S j)); [lia|].
           cbn. rewrite Hnd. cbn. by rewrite Hp.
    + split; [done|]. intros ([|k] & _ & Ha & Hb & Hc).
      * injection Ha as <-. by rewrite Hnd, Hblock in Hb.
      * cbn in Ha. rewrite Hnd in Ha. cbn in Ha. by rewrite Hp in Ha.
Qed.

(** ** Serializing the children of a node *)

Lemma bind_Ok {A B} (m : M A) (k : A -> M B) w b w' :
  (m ≫= k) w = (Ok b, w') ->
  exists a w1, m w = (Ok a, w1) /\ k a w1 = (Ok b, w').
Proof.
  unfold mbind, M_bind, bind. destruct (m w) as [[a| |] w1]; [|done..].
  intros Hk. by exists a, w1.
Qed.

(** X18.  When [serializeChildren] returns normally, [state.chunkCB] is the
    callback that was installed before the call, whatever the
    serialization of the children did to it. *)
Theorem serializeChildren_restores_chunkCB recur parent cb wtEscaper
    w w' :
  WSP.serializeChildren recur parent cb wtEscaper w = (Ok tt, w') ->
  chunkCB (ser w') = chunkCB (ser w).
Proof.
  unfold WSP.serializeChildren. intros Hs.
  apply bind_Ok in Hs as (state & w1 & Hget & Hs).
  injection Hget as <- <-.
  apply bind_Ok in Hs as (? & w2 & _ & Hs).
  apply bind_Ok in Hs as (? & w3 & _ & Hs).
  apply bind_Ok in Hs as (l & w4 & _ & Hs).
  apply bind_Ok in Hs as (? & w5 & _ & Hs).
  apply bind_Ok in Hs as (? & w6 & Hset & Hs).
  injection Hset as Hw6. subst w6.
  destruct wtEscaper; injection Hs as <-; reflexivity.
Qed.

Lemma serializeChildren_restores_chunkCB_witness :
  chunkCB (ser (WSP.serializeChildren
                  (fun _ => modifySer (set_chunkCB CollectCB)) 0%nat
                  (WrapCB TopCB) None
                  (mkWorld two_texts WSP.initialState)).2)
  = TopCB.
Proof.
  apply (serializeChildren_restores_chunkCB
           (fun _ => modifySer (set_chunkCB CollectCB)) 0%nat
           (WrapCB TopCB) None (mkWorld two_texts WSP.initialState)).
  vm_compute. reflexivity.
Defined.

(** ** The handlers of the tags *)

Lemma quiet_refl s : quiet s s.
Proof. by repeat split. Qed.

Lemma quiet_trans a b c : quiet a b -> quiet b c -> quiet a c.
Proof.
  intros (?&?&?&?&?&?) (?&?&?&?&?&?). repeat split; congruence.
Qed.

Lemma serializeHTMLTag_quiet `{Lib} s tok p :
  WSP._serializeHTMLTag s tok = Some p -> quiet p.2 s.
Proof.
  unfold WSP._serializeHTMLTag. intros Hs.
  repeat (simplify_option_eq || case_match); by repeat split.
Qed.

Lemma serializeHTMLEndTag_quiet `{Lib} s tok :
  quiet (WSP._serializeHTMLEndTag s tok).2 s.
Proof.
  unfold WSP._serializeHTMLEndTag.
  repeat case_match; by repeat split.
Qed.

Lemma defaultHTMLTagHandler_quiet `{Lib} :
  quietHandler WSP.defaultHTMLTagHandler.
Proof.
  split; [|split; [|done]].
  - intros pt f [= <-] [= <-]. intros this s tok r s' fl Hf.
    destruct (WSP._serializeHTMLTag s tok) as [[r0 s0]|] eqn:E;
      cbn in Hf; [|done].
    injection Hf as <- <- <-. by apply (serializeHTMLTag_quiet _ _ _ E).
  - intros pt f [= <-] [= <-]. intros this s tok r s' fl [= <- <- <-].
    apply serializeHTMLEndTag_quiet.
Qed.

Ltac quiet_goal :=
  first
    [ by repeat split
    | match goal with
      | H : WSP._serializeHTMLTag _ _ = Some _ |- _ =>
          apply serializeHTMLTag_quiet in H; exact H
      end
    | apply serializeHTMLEndTag_quiet
    | match goal with
      | H : WSP._serializeHTMLTag _ _ = Some _ |- _ =>
          apply serializeHTMLTag_quiet in H;
          eapply quiet_trans; [exact H|by repeat split]
      end ].

Ltac quiet_part :=
  let pt := fresh "pt" in
  let f := fresh "f" in
  let Hpt := fresh "Hpt" in
  let Hf := fresh "Hf" in
  let Hr := fresh "Hr" in
  intros pt f Hpt Hf;
  cbv beta iota zeta delta
    [start end_ WSP.part WSP.buildHeadingHandler WSP.buildListHandler
       WSP.buildListItemHandler WSP.table WSP.tbody WSP.th WSP.td WSP.tr
       WSP.caption WSP.p WSP.pre WSP.meta WSP.span WSP.img WSP.hr WSP.quote
       WSP.nodeOnly] in Hpt;
  try discriminate; simplify_eq; cbn [handle] in Hf; try discriminate;
  simplify_eq;
  intros this s tok r s' fl Hr;
  cbv beta iota zeta delta
    [WSP.openHeading WSP.closeHeading WSP._listHandler WSP._listEndHandler
       WSP._listItemHandler WSP.cell WSP.meta_handle WSP.meta_set WSP.id]
    in Hr;
  repeat (simplify_option_eq || case_match);
  quiet_goal.

Ltac quiet_handler :=
  split; [quiet_part|split; [quiet_part|]];
  intros mk Hmk; cbn in Hmk; by simplify_eq.

Lemma body_quiet `{Lib}  : quietHandler (mkTagHandler None (WSP.part noFlags (WSP.id "")) None None).
Proof. quiet_handler. Qed.

Lemma list_quiet `{Lib} b : quietHandler (WSP.buildListHandler b).
Proof. quiet_handler. Qed.

Lemma listItem_quiet `{Lib} b e : quietHandler (WSP.buildListItemHandler b e).
Proof. quiet_handler. Qed.

Lemma table_quiet `{Lib}  : quietHandler WSP.table.
Proof. quiet_handler. Qed.

Lemma tbody_quiet `{Lib}  : quietHandler WSP.tbody.
Proof. quiet_handler. Qed.

Lemma th_quiet `{Lib}  : quietHandler WSP.th.
Proof. quiet_handler. Qed.

Lemma tr_quiet `{Lib}  : quietHandler WSP.tr.
Proof. quiet_handler. Qed.

Lemma td_quiet `{Lib}  : quietHandler WSP.td.
Proof. quiet_handler. Qed.

Lemma caption_quiet `{Lib}  : quietHandler WSP.caption.
Proof. quiet_handler. Qed.

Lemma p_quiet `{Lib}  : quietHandler WSP.p.
Proof. quiet_handler. Qed.

Lemma pre_quiet `{Lib}  : quietHandler WSP.pre.
Proof. quiet_handler. Qed.

Lemma meta_quiet `{Lib} state : quietHandler (WSP.meta state).
Proof. quiet_handler. Qed.

Lemma span_quiet `{Lib}  : quietHandler WSP.span.
Proof. quiet_handler. Qed.

Lemma nodeOnly_quiet `{Lib}  : quietHandler WSP.nodeOnly.
Proof. quiet_handler. Qed.

Lemma img_quiet `{Lib}  : quietHandler WSP.img.
Proof. quiet_handler. Qed.

Lemma hr_quiet `{Lib}  : quietHandler WSP.hr.
Proof. quiet_handler. Qed.

Lemma heading_quiet `{Lib} w : quietHandler (WSP.buildHeadingHandler w).
Proof. quiet_handler. Qed.

Lemma br_quiet `{Lib}  : quietHandler (mkTagHandler (WSP.part noFlags (WSP.id JS.NL)) None None None).
Proof. quiet_handler. Qed.

Lemma quote_quiet `{Lib} q : quietHandler (WSP.quote q).
Proof. quiet_handler. Qed.

Lemma tagHandlers_quiet `{Lib} state tname h :
  WSP.tagHandlers state tname = Some h -> quietHandler h.
Proof.
  unfold WSP.tagHandlers. intros Hh.
  repeat (case_bool_decide as Hn;
          [injection Hh as <-; clear;
           first [ apply body_quiet | apply list_quiet | apply listItem_quiet
                 | apply table_quiet | apply tbody_quiet | apply th_quiet
                 | apply tr_quiet | apply td_quiet | apply caption_quiet
                 | apply p_quiet | apply pre_quiet | apply meta_quiet
                 | apply span_quiet | apply nodeOnly_quiet | apply img_quiet
                 | apply hr_quiet | apply heading_quiet | apply br_quiet
                 | apply quote_quiet ]
          |clear Hn]).
  done.
Qed.

Lemma ignored_quiet `{Lib} :
  quietHandler (mkTagHandler (Some (mkPart WSP.ignoreF None))
                             (Some (mkPart WSP.ignoreF None)) None None).
Proof.
  split; [|split; [|done]]; intros pt f [= <-] Hf; discriminate.
Qed.

Lemma p_make_quiet `{Lib} s tok made s' :
  WSP.p_make s tok = Some (made, s') ->
  quiet s' s /\ forall h, made = Some h -> quietHandler h.
Proof.
  unfold WSP.p_make. intros Hm.
  repeat (simplify_option_eq || case_match);
    (split; [by repeat split|]); intros h Hh; simplify_eq;
    first [apply ignored_quiet|apply defaultHTMLTagHandler_quiet].
Qed.

(** The handler that [_getTokenHandler] returns is quiet, and what
    [_getTokenHandler] itself does to the state is to push one entry on
    the stack of escape handlers, for a start tag or a self-closing tag
    that is not served from its template source. *)
Lemma getTokenHandler_quiet `{Lib} state token pt st :
  WSP._getTokenHandler state token = Some (pt, st) ->
  (forall f, handle pt = Some f -> quietHandle f)
  /\ out st = out state /\ bits st = bits state
  /\ chunkCB st = chunkCB state
  /\ onNewline st = onNewline state /\ onStartOfLine st = onStartOfLine state
  /\ length (wteHandlerStack st)
     = if (is_ctor token CTagTk || is_ctor token CSelfclosingTagTk)
          && negb (fromTemplateSource token)
       then S (length (wteHandlerStack state))
       else length (wteHandlerStack state).
Proof.
  unfold WSP._getTokenHandler. fold (fromTemplateSource token).
  destruct (fromTemplateSource token).
  { intros [= <- <-]. rewrite andb_false_r. split; [|done].
    intros f [= <-] this s tok r s' fl [= <- <- <-]. apply quiet_refl. }
  rewrite andb_true_r.
  assert (Hsel : forall (handler : option TagHandler) s1,
    quiet s1 state ->
    (forall h, handler = Some h -> quietHandler h) ->
    (if is_ctor token CTagTk || is_ctor token CSelfclosingTagTk
     then Some (default WSP.emptyPart
                  (start (default WSP.defaultHTMLTagHandler handler)),
                set_wteHandlerStack
                  (push (wtEscapeHandler
                           (default WSP.defaultHTMLTagHandler handler))
                        (wteHandlerStack s1)) s1)
     else Some (default WSP.emptyPart
                  (end_ (default WSP.defaultHTMLTagHandler handler)), s1))
    = Some (pt, st) ->
    (forall f, handle pt = Some f -> quietHandle f)
    /\ out st = out state /\ bits st = bits state
    /\ chunkCB st = chunkCB state
    /\ onNewline st = onNewline state
    /\ onStartOfLine st = onStartOfLine state
    /\ length (wteHandlerStack st)
       = if is_ctor token CTagTk || is_ctor token CSelfclosingTagTk
         then S (length (wteHandlerStack state))
         else length (wteHandlerStack state)).
  { intros handler s1 (Ho & Hb & Hc & Hn & Hs & Hw) Hq.
    assert (Hh : quietHandler (default WSP.defaultHTMLTagHandler handler)).
    { destruct handler as [h|]; [by apply Hq|].
      apply defaultHTMLTagHandler_quiet. }
    destruct Hh as (Hstart & Hend & _).
    destruct (is_ctor token CTagTk || is_ctor token CSelfclosingTagTk);
      intros [= <- <-]; cbn.
    - split; [|by rewrite <- Hw; unfold push; rewrite length_app; cbn;
                 repeat split; try done; lia].
      intros f Hf. destruct (start _) as [p|] eqn:Ep; [|done].
      by eapply Hstart.
    - split; [|by rewrite Hw].
      intros f Hf. destruct (end_ _) as [p|] eqn:Ep; [|done].
      by eapply Hend. }
  match goal with
  | |- context [if ?c then Some (Some WSP.defaultHTMLTagHandler, state)
                else _] => destruct c
  end.
  { apply (Hsel (Some WSP.defaultHTMLTagHandler) state); [apply quiet_refl|].
    intros h [= <-]. apply defaultHTMLTagHandler_quiet. }
  destruct (WSP.tagHandlers state _) as [handler|] eqn:Eh; cbn.
  2:{ apply (Hsel None state); [apply quiet_refl|done]. }
  pose proof (tagHandlers_quiet _ _ _ Eh) as Hq.
  destruct (make handler) as [mk|] eqn:Emk.
  2:{ apply (Hsel (Some handler) state); [apply quiet_refl|].
      by intros h [= <-]. }
  destruct Hq as (Hq1 & Hq2 & Hq3). rewrite (Hq3 _ Emk).
  destruct (WSP.p_make state token) as [[made s1]|] eqn:Ep; cbn; [|done].
  apply p_make_quiet in Ep as [Hs1 Hmade].
  apply (Hsel (Some (default handler made)) s1); [done|].
  intros h Hh. destruct made as [m|].
  - injection Hh as <-. by apply Hmade.
  - injection Hh as <-. split; [done|]. split; [done|].
    intros mk' Hmk'. rewrite Emk in Hmk'. injection Hmk' as <-.
    by apply Hq3.
Qed.

Lemma callCB_keeps cb chunk info s :
  chunkCB (WSP.callCB cb chunk info s) = chunkCB s
  /\ wteHandlerStack (WSP.callCB cb chunk info s) = wteHandlerStack s
  /\ onNewline (WSP.callCB cb chunk info s) = onNewline s
  /\ (plainCB cb ->
      onStartOfLine (WSP.callCB cb chunk info s) = onStartOfLine s).
Proof.
  revert s. induction cb as [| |cb IH]; intros s; cbn [WSP.callCB].
  - by repeat split.
  - by repeat split.
  - destruct (IH (if JS.truthy (Some chunk)
                  then set_onStartOfLine (JS.ends_nl chunk) s else s))
      as (-> & -> & -> & _).
    split; [by destruct (JS.truthy _)|]. split; [by destruct (JS.truthy _)|].
    split; [by destruct (JS.truthy _)|]. by intros [|].
Qed.

Lemma length_pop {A} (l : list A) : length (pop l) = Nat.pred (length l).
Proof.
  unfold pop. destruct l as [|x l] using rev_ind; [done|].
  rewrite removelast_last, length_app. cbn. lia.
Qed.

Lemma run_handle_quiet (pt : Part) s tok r s' fl :
  (forall f, handle pt = Some f -> quietHandle f) ->
  WSP.run_handle pt s tok = Some (r, s', fl) -> quiet s' s.
Proof.
  unfold WSP.run_handle. intros Hq.
  destruct (handle pt) as [f|] eqn:Hf.
  - by apply Hq.
  - intros [= _ <- _]. apply quiet_refl.
Qed.

(** What the first part of [_serializeToken] does to the state, for
    every kind of token. *)
Lemma dispatch_keeps `{Lib} state token res fl sup st :
  WSP.dispatch state token = Some (res, fl, sup, st) ->
  chunkCB st = chunkCB state
  /\ (delivered state <= delivered st)%nat
  /\ (plainCB (chunkCB state) ->
      onNewline st = onNewline state
      /\ onStartOfLine st = onStartOfLine state)
  /\ length (wteHandlerStack st)
     = depthAfter token (length (wteHandlerStack state)).
Proof.
  unfold WSP.dispatch, depthAfter, delivered.
  destruct token as [n a da|n a da|n a da|text|v| |].
  - (* start tag *)
    destruct (WSP._getTokenHandler state _) as [[pt st1]|] eqn:Eh;
      cbn [mbind option_bind]; [|done].
    apply getTokenHandler_quiet in Eh
      as (Hq & Ho & Hb & Hc & Hn & Hs & Hw).
    cbn [is_ctor constructor] in Hw. cbn in Hw.
    destruct (negb (ignore (flags pt))).
    + destruct (WSP.run_handle pt _ _) as [[[r s2] fl2]|] eqn:Er;
        cbn [mbind option_bind]; [|done].
      apply (run_handle_quiet _ _ _ _ _ _ Hq) in Er
        as (Ho2 & Hb2 & Hc2 & Hn2 & Hs2 & Hw2). cbn in *.
      destruct (WSP.apply_textHandler _ _ _); cbn; [|done].
      intros [= <- <- <- <-]. rewrite Ho2, Hb2, Hc2, Hn2, Hs2, Hw2, Ho, Hb.
      repeat split; try done. rewrite Hw. by destruct (fromTemplateSource _).
    + cbn. intros [= <- <- <- <-]. rewrite Ho, Hb.
      repeat split; try done. rewrite Hw. by destruct (fromTemplateSource _).
  - (* end tag *)
    destruct (WSP._getTokenHandler state _) as [[pt st1]|] eqn:Eh;
      cbn [mbind option_bind]; [|done].
    apply getTokenHandler_quiet in Eh
      as (Hq & Ho & Hb & Hc & Hn & Hs & Hw).
    change (length (wteHandlerStack st1) = length (wteHandlerStack state))
      in Hw.
    destruct (negb (ignore (flags pt))).
    + destruct (WSP.run_handle pt _ _) as [[[r s2] fl2]|] eqn:Er;
        cbn [mbind option_bind]; [|done].
      apply (run_handle_quiet _ _ _ _ _ _ Hq) in Er
        as (Ho2 & Hb2 & Hc2 & Hn2 & Hs2 & Hw2).
      intros [= <- <- <- <-]. rewrite Ho2, Hb2, Hc2, Hn2, Hs2, Hw2.
      destruct (_ && _); cbn; rewrite Ho, Hb, length_pop, Hw;
        by repeat split.
    + intros [= <- <- <- <-]. cbn. rewrite Ho, Hb, length_pop, Hw.
      by repeat split.
  - (* self-closing tag *)
    destruct (WSP._getTokenHandler state _) as [[pt st1]|] eqn:Eh;
      cbn [mbind option_bind]; [|done].
    apply getTokenHandler_quiet in Eh
      as (Hq & Ho & Hb & Hc & Hn & Hs & Hw).
    cbn in Hw.
    destruct (negb (ignore (flags pt))).
    + destruct (WSP.run_handle pt _ _) as [[[r s2] fl2]|] eqn:Er;
        cbn [mbind option_bind]; [|done].
      apply (run_handle_quiet _ _ _ _ _ _ Hq) in Er
        as (Ho2 & Hb2 & Hc2 & Hn2 & Hs2 & Hw2). cbn in *.
      destruct (WSP.apply_textHandler _ _ _); cbn; [|done].
      intros [= <- <- <- <-]. cbn.
      rewrite Ho2, Hb2, Hc2, Hn2, Hs2, length_pop, Hw2, Ho, Hb, Hw.
      repeat split; try done. by destruct (fromTemplateSource _).
    + cbn. intros [= <- <- <- <-]. cbn. rewrite Ho, Hb, length_pop, Hw.
      repeat split; try done. by destruct (fromTemplateSource _).
  - (* text *)
    destruct (if inNoWiki state || inHTMLPre state
              then Some (escapeEntities text, state)
              else WSP.escapeWikiText state (escapeEntities text))
      as [[r st2]|] eqn:E; cbn [mbind option_bind]; [|done].
    assert (Hst2 : out st2 = out state /\ bits st2 = bits state
                   /\ chunkCB st2 = chunkCB state
                   /\ onNewline st2 = onNewline state
                   /\ onStartOfLine st2 = onStartOfLine state
                   /\ length (wteHandlerStack st2)
                      = length (wteHandlerStack state)).
    { destruct (inNoWiki state || inHTMLPre state).
      - by injection E as _ <-.
      - assert (Hlen : length (wteHandlerStack st2)
                       = length (wteHandlerStack state)).
        { destruct (escapeWikiText_top _ _ _ _ E)
            as [->|(h & l & -> & _ & ->)]; [done|].
          by rewrite !length_app. }
        destruct (escapeWikiText_frame _ _ _ _ E) as (stack & cl & ->).
        by repeat split. }
    destruct Hst2 as (Ho & Hb & Hc & Hn & Hs & Hw).
    intros [= <- <- <- <-].
    destruct (JS.blank_then_nl _); cbn; rewrite Ho, Hb; by repeat split.
  - intros [= <- <- <- <-]. by repeat split.
  - intros [= <- <- <- <-]. by repeat split.
  - intros [= <- <- <- <-]. unfold WSP.call_chunkCB.
    destruct (callCB_keeps (chunkCB state) "" None state)
      as (Hc & Hw & Hn & Hs).
    fold (delivered (WSP.callCB (chunkCB state) "" None state)).
    fold (delivered state). rewrite callCB_delivered, Hc, Hw.
    split; [done|]. split; [lia|]. split; [|done].
    intros Hp. split; [done|by apply Hs].
Qed.
Lemma advances_refl s : advances s s.
Proof. by repeat split. Qed.

Lemma advances_trans a b c : advances a b -> advances b c -> advances a c.
Proof.
  intros (Hc1 & Hw1 & Hd1 & Hl1) (Hc2 & Hw2 & Hd2 & Hl2).
  split; [congruence|]. split; [congruence|]. split; [lia|].
  intros Hp Hi. apply Hl2; [by rewrite Hc1|by apply Hl1].
Qed.

Lemma ends_nl_has_nl s : JS.ends_nl s = true -> JS.has_nl s = true.
Proof.
  unfold JS.ends_nl, JS.has_nl, JS.last_is.
  induction s as [|c s IH]; [done|]. cbn [JS.last_char JS.exists_char].
  destruct s as [|d s].
  - cbn. intros ->. done.
  - intros Hl. rewrite (IH Hl). by destruct (JS.ch c JS.LF).
Qed.

Lemma emitSepChunk_advances sep s : advances s (WSP.emitSepChunk sep s).
Proof.
  split; [|split; [|split]].
  - unfold WSP.emitSepChunk, WSP.call_chunkCB. cbn.
    match goal with |- chunkCB (WSP.callCB ?cb ?c ?i ?st) = _ =>
      destruct (callCB_keeps cb c i st) as (-> & _) end.
    by destruct (JS.ends_nl sep), (JS.has_nl sep).
  - unfold WSP.emitSepChunk, WSP.call_chunkCB. cbn.
    match goal with |- wteHandlerStack (WSP.callCB ?cb ?c ?i ?st) = _ =>
      destruct (callCB_keeps cb c i st) as (_ & -> & _) end.
    by destruct (JS.ends_nl sep), (JS.has_nl sep).
  - rewrite emitSepChunk_delivered. lia.
  - intros Hp Hi. unfold line_invariant, WSP.emitSepChunk, WSP.call_chunkCB.
    cbn.
    match goal with |- onNewline (WSP.callCB ?cb ?c ?i ?st) = _ -> _ =>
      destruct (callCB_keeps cb c i st) as (_ & _ & -> & Hs);
      rewrite Hs end.
    + pose proof (ends_nl_has_nl sep) as Hnl.
      destruct (JS.ends_nl sep), (JS.has_nl sep); cbn; try done.
      by discriminate Hnl.
    + by destruct (JS.ends_nl sep), (JS.has_nl sep).
Qed.

Lemma emitNLs_advances nls b s : advances s (WSP.emitNLs nls b s).
Proof.
  unfold WSP.emitNLs. destruct (separatorEmittedFromSrc s);
    [apply advances_refl|].
  destruct (_ && _); [by repeat split|apply emitSepChunk_advances].
Qed.

Lemma startOfLine_advances h sup s : advances s (WSP.startOfLine h sup s).
Proof.
  unfold WSP.startOfLine.
  destruct (_ && _); [apply emitNLs_advances|apply advances_refl].
Qed.

Lemma crlf_empty : JS.ends_crlf "" = false.
Proof. reflexivity. Qed.

Lemma updateLineState_advances h res s :
  advances s (WSP.updateLineState h res s).
Proof.
  unfold WSP.updateLineState.
  destruct (JS.ends_crlf res); [by repeat split|].
  destruct (negb (bool_decide (res = ""))); [|apply advances_refl].
  destruct (negb (solTransparent h)); by repeat split.
Qed.

Lemma emitAfter_advances h s : advances s (WSP.emitAfter h s).
Proof.
  unfold WSP.emitAfter. destruct (emitsNL h); [apply emitNLs_advances|].
  destruct (bufferedSeparator s) as [[|c sep]|];
    [apply advances_refl|apply emitSepChunk_advances|apply advances_refl].
Qed.

Lemma endOfLine_advances h s : advances s (WSP.endOfLine h s).
Proof.
  unfold WSP.endOfLine.
  destruct (_ && _); [apply emitNLs_advances|apply advances_refl].
Qed.

Lemma enterSingleLine_advances h s : advances s (WSP.enterSingleLine h s).
Proof.
  unfold WSP.enterSingleLine. destruct (0 <? _); by repeat split.
Qed.

Lemma call_chunkCB_advances chunk info s :
  advances s (WSP.call_chunkCB chunk info s)
  /\ delivered (WSP.call_chunkCB chunk info s) = S (delivered s).
Proof.
  unfold WSP.call_chunkCB. split; [|apply callCB_delivered].
  destruct (callCB_keeps (chunkCB s) chunk info s) as (Hc & Hw & Hn & Hs).
  split; [done|]. split; [done|].
  split; [rewrite callCB_delivered; lia|].
  intros Hp Hi. unfold line_invariant. rewrite Hn, (Hs Hp). apply Hi.
Qed.

(** The second part of [_serializeToken]: it delivers the chunk of the
    token, and separators around it. *)
Lemma emitToken_advances res h sup s :
  advances s (WSP.emitToken res h sup s)
  /\ (delivered s < delivered (WSP.emitToken res h sup s))%nat.
Proof.
  unfold WSP.emitToken.
  set (s1 := WSP.startOfLine h sup s).
  set (r := WSP.contentProcessing h s1 res).
  set (s2 := WSP.call_chunkCB _ None s1).
  set (s3 := WSP.updateLineState h r s2).
  set (s4 := WSP.emitAfter h s3).
  set (s5 := WSP.endOfLine h s4).
  set (s6 := WSP.enterSingleLine h s5).
  pose proof (startOfLine_advances h sup s) as H1. fold s1 in H1.
  destruct (call_chunkCB_advances (if sup then "" else r) None s1)
    as [H2 Hd]. fold s2 in H2, Hd.
  pose proof (updateLineState_advances h r s2) as H3. fold s3 in H3.
  pose proof (emitAfter_advances h s3) as H4. fold s4 in H4.
  pose proof (endOfLine_advances h s4) as H5. fold s5 in H5.
  pose proof (enterSingleLine_advances h s5) as H6. fold s6 in H6.
  assert (H7 : advances s6 (set_separatorEmittedFromSrc false s6))
    by by repeat split.
  split.
  - repeat (eapply advances_trans; [eassumption|]). apply advances_refl.
  - change (delivered (set_separatorEmittedFromSrc false s6))
      with (delivered s6).
    destruct H1 as (_ & _ & ? & _), H3 as (_ & _ & ? & _),
      H4 as (_ & _ & ? & _), H5 as (_ & _ & ? & _), H6 as (_ & _ & ? & _).
    lia.
Qed.

(** One token: the callback stays, at least one chunk is delivered, the
    escape handler stack has the depth of [depthAfter], and a plain
    callback keeps the invariant of the line flags. *)
Lemma serializeToken_step `{Lib} state token st :
  WSP._serializeToken state token = Some st ->
  chunkCB st = chunkCB state
  /\ (delivered state < delivered st)%nat
  /\ length (wteHandlerStack st)
     = depthAfter token (length (wteHandlerStack state))
  /\ (plainCB (chunkCB state) -> line_invariant state -> line_invariant st).
Proof.
  unfold WSP._serializeToken.
  destruct (WSP.dispatch _ token) as [[[[res fl] sup] s1]|] eqn:Ed;
    cbn [mbind option_bind]; [|done].
  intros [= <-]. apply dispatch_keeps in Ed as (Hc & Hd & Hl & Hw).
  destruct (emitToken_advances (default "" res) fl sup s1)
    as [(Hc2 & Hw2 & _ & Hl2) Hd2].
  unfold delivered in *. cbn in Hc, Hd, Hl, Hw.
  split; [congruence|]. split; [lia|]. split; [by rewrite Hw2|].
  intros Hp Hi. apply Hl2; [by rewrite Hc|].
  destruct (Hl Hp) as [Hn Hs]. unfold line_invariant. rewrite Hn, Hs.
  apply Hi.
Qed.

(** X19.  The token serializer keeps the invariant of the line flags:
    when the chunk callback is the caller's own (it is not wrapped by a
    DOM handler) and [onNewline] implies [onStartOfLine] before the
    loop of [serializeTokens], the same holds after every list of
    tokens that is serialized, and the callback is still the same. *)
Theorem serializeTokens_line_invariant `{Lib} state tokens st :
  plainCB (chunkCB state) -> line_invariant state ->
  WSP.serializeTokens_loop state tokens = Some st ->
  line_invariant st /\ chunkCB st = chunkCB state.
Proof.
  revert state. induction tokens as [|t rest IH]; intros state Hp Hi;
    cbn [WSP.serializeTokens_loop].
  - by intros [= <-].
  - destruct (WSP._serializeToken state t) as [s1|] eqn:E;
      cbn [mbind option_bind]; [|done].
    apply serializeToken_step in E as (Hc & _ & _ & Hl).
    intros Hloop. apply IH in Hloop as [Hi' Hc'].
    + split; [done|congruence].
    + by rewrite Hc.
    + by apply Hl.
Qed.

Lemma serializeTokens_line_invariant_witness :
  line_invariant heading_run /\ chunkCB heading_run = chunkCB WSP.initialState.
Proof.
  apply (@serializeTokens_line_invariant plainLib WSP.initialState
           heading_doc heading_run).
  - by left.
  - intros _. reflexivity.
  - vm_compute. reflexivity.
Defined.

(** X20.  Every token is answered by a call of the chunk callback, also
    a token whose handler is ignored or whose output is suppressed (the
    chunk is then the empty string): after a list of tokens at least as
    many chunks were delivered as there were tokens. *)
Theorem serializeTokens_chunk_per_token `{Lib} state tokens st :
  WSP.serializeTokens_loop state tokens = Some st ->
  (delivered state + length tokens <= delivered st)%nat.
Proof.
  revert state. induction tokens as [|t rest IH]; intros state;
    cbn [WSP.serializeTokens_loop length].
  - intros [= <-]. lia.
  - destruct (WSP._serializeToken state t) as [s1|] eqn:E;
      cbn [mbind option_bind]; [|done].
    apply serializeToken_step in E as (_ & Hd & _).
    intros Hloop. apply IH in Hloop. lia.
Qed.

Lemma serializeTokens_chunk_per_token_witness :
  (delivered WSP.initialState + length heading_doc
   <= delivered heading_run)%nat.
Proof.
  apply (@serializeTokens_chunk_per_token plainLib WSP.initialState
           heading_doc heading_run).
  vm_compute. reflexivity.
Defined.

(** X21.  The depth of the stack of escape handlers after a list of
    tokens: a start tag adds an entry and an end tag removes the last
    one, a self-closing tag leaves the depth, the other tokens do not
    touch the stack.  A start tag served from its template source adds
    no entry, but its end tag removes one all the same. *)
Theorem serializeTokens_handler_depth `{Lib} state tokens st :
  WSP.serializeTokens_loop state tokens = Some st ->
  length (wteHandlerStack st)
  = depthAfterAll tokens (length (wteHandlerStack state)).
Proof.
  unfold depthAfterAll.
  revert state. induction tokens as [|t rest IH]; intros state;
    cbn [WSP.serializeTokens_loop foldl].
  - by intros [= <-].
  - destruct (WSP._serializeToken state t) as [s1|] eqn:E;
      cbn [mbind option_bind]; [|done].
    apply serializeToken_step in E as (_ & _ & Hw & _).
    intros Hloop. apply IH in Hloop. by rewrite Hloop, Hw.
Qed.

Lemma serializeTokens_handler_depth_witness :
  length (wteHandlerStack template_span_run) = 0%nat.
Proof.
  apply (@serializeTokens_handler_depth plainLib
           (set_wteHandlerStack [Some WteLi] WSP.initialState)
           template_span template_span_run).
  vm_compute. reflexivity.
Defined.


(** ** The fields that the tag handlers leave alone *)

Lemma serializeHTMLTag_steady `{Lib} s tok p :
  WSP._serializeHTMLTag s tok = Some p ->
  lastRes p.2 = lastRes s /\ bufferedSeparator p.2 = bufferedSeparator s
  /\ env_page_src p.2 = env_page_src s
  /\ singleLineMode p.2 = singleLineMode s.
Proof.
  unfold WSP._serializeHTMLTag. intros Hs.
  repeat (simplify_option_eq || case_match); by repeat split.
Qed.

Lemma serializeHTMLEndTag_steady `{Lib} s tok :
  lastRes (WSP._serializeHTMLEndTag s tok).2 = lastRes s
  /\ bufferedSeparator (WSP._serializeHTMLEndTag s tok).2
     = bufferedSeparator s
  /\ env_page_src (WSP._serializeHTMLEndTag s tok).2 = env_page_src s
  /\ singleLineMode (WSP._serializeHTMLEndTag s tok).2 = singleLineMode s.
Proof.
  unfold WSP._serializeHTMLEndTag.
  repeat case_match; by repeat split.
Qed.

Ltac steady_goal :=
  repeat match goal with
         | H : WSP._serializeHTMLTag _ _ = Some _ |- _ =>
             apply serializeHTMLTag_steady in H;
             destruct H as (? & ? & ? & ?)
         end;
  try match goal with
      | |- context [WSP._serializeHTMLEndTag ?s ?t] =>
          destruct (serializeHTMLEndTag_steady s t) as (? & ? & ? & ?)
      end;
  unfold calm; cbn in *;
  first [ by repeat split
        | by intros; simplify_eq
        | by intros; repeat split; congruence
        | by intros Hn; rewrite ?Hn in *; cbn in *; congruence ].

Ltac steady_part :=
  let pt := fresh "pt" in
  let f := fresh "f" in
  let Hpt := fresh "Hpt" in
  let Hf := fresh "Hf" in
  let Hr := fresh "Hr" in
  intros pt f Hpt Hf;
  cbv beta iota zeta delta
    [start end_ WSP.part WSP.buildHeadingHandler WSP.buildListHandler
       WSP.buildListItemHandler WSP.table WSP.tbody WSP.th WSP.td WSP.tr
       WSP.caption WSP.p WSP.pre WSP.meta WSP.span WSP.img WSP.hr WSP.quote
       WSP.nodeOnly WSP.defaultHTMLTagHandler ignoredHandler] in Hpt;
  try discriminate; simplify_eq; cbn [handle] in Hf; try discriminate;
  simplify_eq;
  intros this s tok r s' fl Hr;
  cbv beta iota zeta delta
    [WSP.openHeading WSP.closeHeading WSP._listHandler WSP._listEndHandler
       WSP._listItemHandler WSP.cell WSP.meta_handle WSP.meta_set WSP.id]
    in Hr;
  repeat (simplify_option_eq || case_match);
  steady_goal.

Ltac steady_handler :=
  split; [split; [|split]|]; steady_part.

Lemma default_steady `{Lib} :
  calmHandler WSP.defaultHTMLTagHandler
  /\ partOK lostHandle (start WSP.defaultHTMLTagHandler).
Proof. steady_handler. Qed.

Lemma body_steady `{Lib}  :
  calmHandler (mkTagHandler None (WSP.part noFlags (WSP.id "")) None None) /\ partOK lostHandle (start (mkTagHandler None (WSP.part noFlags (WSP.id "")) None None)).
Proof. steady_handler. Qed.

Lemma list_steady `{Lib} b :
  calmHandler (WSP.buildListHandler b) /\ partOK lostHandle (start (WSP.buildListHandler b)).
Proof. steady_handler. Qed.

Lemma listItem_steady `{Lib} b e :
  calmHandler (WSP.buildListItemHandler b e) /\ partOK lostHandle (start (WSP.buildListItemHandler b e)).
Proof. steady_handler. Qed.

Lemma tbody_steady `{Lib}  :
  calmHandler WSP.tbody /\ partOK lostHandle (start WSP.tbody).
Proof. steady_handler. Qed.

Lemma th_steady `{Lib}  :
  calmHandler WSP.th /\ partOK lostHandle (start WSP.th).
Proof. steady_handler. Qed.

Lemma tr_steady `{Lib}  :
  calmHandler WSP.tr /\ partOK lostHandle (start WSP.tr).
Proof. steady_handler. Qed.

Lemma td_steady `{Lib}  :
  calmHandler WSP.td /\ partOK lostHandle (start WSP.td).
Proof. steady_handler. Qed.

Lemma caption_steady `{Lib}  :
  calmHandler WSP.caption /\ partOK lostHandle (start WSP.caption).
Proof. steady_handler. Qed.

Lemma p_steady `{Lib}  :
  calmHandler WSP.p /\ partOK lostHandle (start WSP.p).
Proof. steady_handler. Qed.

Lemma pre_steady `{Lib}  :
  calmHandler WSP.pre /\ partOK lostHandle (start WSP.pre).
Proof. steady_handler. Qed.

Lemma meta_steady `{Lib} state :
  calmHandler (WSP.meta state) /\ partOK lostHandle (start (WSP.meta state)).
Proof. steady_handler. Qed.

Lemma span_steady `{Lib}  :
  calmHandler WSP.span /\ partOK lostHandle (start WSP.span).
Proof. steady_handler. Qed.

Lemma nodeOnly_steady `{Lib}  :
  calmHandler WSP.nodeOnly /\ partOK lostHandle (start WSP.nodeOnly).
Proof. steady_handler. Qed.

Lemma img_steady `{Lib}  :
  calmHandler WSP.img /\ partOK lostHandle (start WSP.img).
Proof. steady_handler. Qed.

Lemma hr_steady `{Lib}  :
  calmHandler WSP.hr /\ partOK lostHandle (start WSP.hr).
Proof. steady_handler. Qed.

Lemma heading_steady `{Lib} w :
  calmHandler (WSP.buildHeadingHandler w) /\ partOK lostHandle (start (WSP.buildHeadingHandler w)).
Proof. steady_handler. Qed.

Lemma br_steady `{Lib}  :
  calmHandler (mkTagHandler (WSP.part noFlags (WSP.id JS.NL)) None None None) /\ partOK lostHandle (start (mkTagHandler (WSP.part noFlags (WSP.id JS.NL)) None None None)).
Proof. steady_handler. Qed.

Lemma quote_steady `{Lib} q :
  calmHandler (WSP.quote q) /\ partOK lostHandle (start (WSP.quote q)).
Proof. steady_handler. Qed.

Lemma ignored_steady `{Lib}  :
  calmHandler ignoredHandler /\ partOK lostHandle (start ignoredHandler).
Proof. steady_handler. Qed.

Lemma table_steady `{Lib} : calmHandler WSP.table.
Proof. (split; [|split]; steady_part). Qed.

Lemma tagHandlers_steady `{Lib} state tname h :
  WSP.tagHandlers state tname = Some h ->
  calmHandler h /\ (tname <> "table" -> partOK lostHandle (start h)).
Proof.
  unfold WSP.tagHandlers. intros Hh.
  repeat (case_bool_decide as Hn;
          [injection Hh as <-;
           first
             [ split; [apply table_steady|intros Hne; by destruct Hne]
             | clear Hn; split; [|intros _];
               first [ apply body_steady | apply list_steady
                     | apply listItem_steady | apply tbody_steady
                     | apply th_steady | apply tr_steady | apply td_steady
                     | apply caption_steady | apply p_steady
                     | apply pre_steady | apply meta_steady
                     | apply span_steady | apply nodeOnly_steady
                     | apply img_steady | apply hr_steady
                     | apply heading_steady | apply br_steady
                     | apply quote_steady ] ]
          |clear Hn]).
  done.
Qed.

Lemma p_make_cases `{Lib} s tok made s' :
  WSP.p_make s tok = Some (made, s') ->
  (s' = s \/ s' = set_ignorePTag (negb (ignorePTag s)) s)
  /\ (made = None \/ made = Some ignoredHandler
      \/ made = Some WSP.defaultHTMLTagHandler).
Proof.
  unfold WSP.p_make, ignoredHandler. intros Hm.
  repeat (simplify_option_eq || case_match); split; auto.
Qed.

(** How [_getTokenHandler] finds the handler of a token and what it
    does to the state. *)
Lemma getTokenHandler_cases `{Lib} state token pt st :
  WSP._getTokenHandler state token = Some (pt, st) ->
  (fromTemplateSource token = true /\ st = state
   /\ handle pt = Some (fun this state tok =>
                          Some (da_src (dataAttribs token), state, this)))
  \/ (fromTemplateSource token = false
      /\ exists h s1,
           picked state token h
           /\ (s1 = state \/ s1 = set_ignorePTag (negb (ignorePTag state)) state)
           /\ if is_ctor token CTagTk || is_ctor token CSelfclosingTagTk
              then pt = default WSP.emptyPart (start h)
                   /\ st = set_wteHandlerStack
                             (push (wtEscapeHandler h) (wteHandlerStack s1))
                             s1
              else pt = default WSP.emptyPart (end_ h) /\ st = s1).
Proof.
  unfold WSP._getTokenHandler. fold (fromTemplateSource token).
  destruct (fromTemplateSource token).
  { intros [= <- <-]. by left. }
  intros Hg. right. split; [done|].
  assert (Hsel : forall (handler : option TagHandler) s1,
    picked state token (default WSP.defaultHTMLTagHandler handler) ->
    (s1 = state \/ s1 = set_ignorePTag (negb (ignorePTag state)) state) ->
    (if is_ctor token CTagTk || is_ctor token CSelfclosingTagTk
     then Some (default WSP.emptyPart
                  (start (default WSP.defaultHTMLTagHandler handler)),
                set_wteHandlerStack
                  (push (wtEscapeHandler
                           (default WSP.defaultHTMLTagHandler handler))
                        (wteHandlerStack s1)) s1)
     else Some (default WSP.emptyPart
                  (end_ (default WSP.defaultHTMLTagHandler handler)), s1))
    = Some (pt, st) ->
    exists h s1,
      picked state token h
      /\ (s1 = state \/ s1 = set_ignorePTag (negb (ignorePTag state)) state)
      /\ if is_ctor token CTagTk || is_ctor token CSelfclosingTagTk
         then pt = default WSP.emptyPart (start h)
              /\ st = set_wteHandlerStack
                        (push (wtEscapeHandler h) (wteHandlerStack s1)) s1
         else pt = default WSP.emptyPart (end_ h) /\ st = s1).
  { intros handler s1 Hp Hs1 Hsome.
    exists (default WSP.defaultHTMLTagHandler handler), s1.
    split; [done|]. split; [done|].
    destruct (is_ctor token CTagTk || is_ctor token CSelfclosingTagTk);
      by injection Hsome as <- <-. }
  revert Hg.
  match goal with
  | |- context [if ?c then Some (Some WSP.defaultHTMLTagHandler, state)
                else _] => destruct c
  end.
  { apply (Hsel (Some WSP.defaultHTMLTagHandler) state); [by left|by left]. }
  destruct (WSP.tagHandlers state _) as [handler|] eqn:Eh; cbn.
  2:{ apply (Hsel None state); [by left|by left]. }
  destruct (make handler) as [mk|] eqn:Emk.
  2:{ apply (Hsel (Some handler) state); [by right; right|by left]. }
  destruct (tagHandlers_quiet _ _ _ Eh) as (_ & _ & Hq3).
  rewrite (Hq3 _ Emk).
  destruct (WSP.p_make state token) as [[made s1]|] eqn:Ep; cbn; [|done].
  apply p_make_cases in Ep as [Hs1 Hmade].
  apply (Hsel (Some (default handler made)) s1); [|done].
  destruct Hmade as [->|[->| ->]]; cbn;
    [by right; right|by right; left|by left].
Qed.

Lemma getTokenHandler_steady `{Lib} state token pt st :
  WSP._getTokenHandler state token = Some (pt, st) ->
  (forall f, handle pt = Some f ->
     calmHandle f /\ (opensTable token = false -> lostHandle f))
  /\ calm st state /\ singleLineMode st = singleLineMode state.
Proof.
  intros Hg. apply getTokenHandler_cases in Hg
    as [(_ & -> & Hpt)|(_ & h & s1 & Hp & Hs1 & Hsel)].
  { split; [|by repeat split]. intros f Hf. rewrite Hpt in Hf.
    injection Hf as <-.
    split; [by intros this s tok r s' fl [= <- <- <-]|].
    by intros _ this s tok r s' fl [= <- <- <-]. }
  assert (Hh : calmHandler h
               /\ (default "" (name token) <> "table" ->
                   partOK lostHandle (start h))).
  { destruct Hp as [->|[->|Hp]].
    - split; [apply default_steady|intros _; apply default_steady].
    - split; [apply ignored_steady|intros _; apply ignored_steady].
    - by apply (tagHandlers_steady state). }
  destruct Hh as [(Hstart & Hend & Hlost) Hopen].
  assert (Hs1' : calm s1 state /\ singleLineMode s1 = singleLineMode state)
    by (destruct Hs1 as [->| ->]; by repeat split).
  unfold opensTable, name_is, str_eq.
  destruct (is_ctor token CTagTk || is_ctor token CSelfclosingTagTk);
    destruct Hsel as [-> ->]; cbn [andb].
  - split; [|by destruct Hs1' as [(? & ? & ?) ?]; repeat split].
    intros f Hf. destruct (start h) as [p0|] eqn:Ep; [|done].
    split; [by eapply Hstart|].
    intros Hn. eapply Hopen; [|done|done].
    intros Ht. apply bool_decide_eq_false in Hn. apply Hn.
    destruct (name token); [by simplify_eq/=|done].
  - split; [|done].
    intros f Hf. destruct (end_ h) as [p0|] eqn:Ep; [|done].
    split; [by eapply Hend|]. intros _. by eapply Hlost.
Qed.

Lemma run_handle_steady (b : bool) (pt : Part) s tok r s' fl :
  (forall f, handle pt = Some f ->
     calmHandle f /\ (b = false -> lostHandle f)) ->
  WSP.run_handle pt s tok = Some (r, s', fl) ->
  calm s' s
  /\ (b = false -> singleLineMode s = None -> singleLineMode s' = None).
Proof.
  unfold WSP.run_handle. intros Hq.
  destruct (handle pt) as [f|] eqn:Hf.
  - destruct (Hq f eq_refl) as [Hc Hl]. intros Hr. split; [by eapply Hc|].
    intros Hb. by eapply Hl.
  - intros [= _ <- _]. by repeat split.
Qed.

Lemma callCB_fields cb chunk info s :
  env_page_src (WSP.callCB cb chunk info s) = env_page_src s
  /\ singleLineMode (WSP.callCB cb chunk info s) = singleLineMode s
  /\ bufferedSeparator (WSP.callCB cb chunk info s) = bufferedSeparator s.
Proof.
  revert s. induction cb as [| |cb IH]; intros s; cbn [WSP.callCB].
  - by repeat split.
  - by repeat split.
  - destruct (IH (if JS.truthy (Some chunk)
                  then set_onStartOfLine (JS.ends_nl chunk) s else s))
      as (-> & -> & ->).
    by destruct (JS.truthy _).
Qed.

Lemma settled_refl s : settled s s.
Proof. by repeat split. Qed.

Lemma settled_trans a b c : settled a b -> settled b c -> settled a c.
Proof.
  intros (He1 & Hm1 & Hb1) (He2 & Hm2 & Hb2).
  split; [congruence|]. split; [by auto|].
  intros Ht Hnone. apply Hb2; [by rewrite He1|by apply Hb1].
Qed.

Lemma emits_refl s : chunkCB s = TopCB -> emits s s.
Proof. intros Hc. split; [done|]. exists []. by rewrite app_nil_r. Qed.

Lemma emits_trans a b c : emits a b -> emits b c -> emits a c.
Proof.
  intros (_ & n1 & Ho1 & Hl1) (Hc & n2 & Ho2 & Hl2).
  split; [done|]. exists (n1 ++ n2).
  split; [by rewrite Ho2, Ho1, app_assoc|].
  unfold slide in *. by rewrite foldl_app, <- Hl1.
Qed.

(** One call of the chunk callback of [serializeTokens]. *)
Lemma call_chunkCB_emits chunk info s :
  chunkCB s = TopCB ->
  emits s (WSP.call_chunkCB chunk info s).
Proof.
  unfold WSP.call_chunkCB. intros Hc. rewrite Hc. cbn. split; [done|].
  eexists [_]. split; reflexivity.
Qed.

Lemma call_chunkCB_settled chunk info s :
  settled s (WSP.call_chunkCB chunk info s).
Proof.
  unfold WSP.call_chunkCB.
  destruct (callCB_fields (chunkCB s) chunk info s) as (He & Hm & Hb).
  split; [done|]. split; [by rewrite Hm|]. by rewrite Hb.
Qed.

Lemma emitSepChunk_settled sep s : settled s (WSP.emitSepChunk sep s).
Proof.
  unfold WSP.emitSepChunk, WSP.call_chunkCB. split; [|split].
  - cbn [env_page_src set_bufferedSeparator].
    match goal with |- env_page_src (WSP.callCB ?cb ?c ?i ?st) = _ =>
      destruct (callCB_fields cb c i st) as (-> & _) end.
    by destruct (JS.ends_nl sep), (JS.has_nl sep).
  - cbn [singleLineMode set_bufferedSeparator].
    match goal with |- _ -> singleLineMode (WSP.callCB ?cb ?c ?i ?st) = _ =>
      destruct (callCB_fields cb c i st) as (_ & -> & _) end.
    by destruct (JS.ends_nl sep), (JS.has_nl sep).
  - done.
Qed.

Lemma emitSepChunk_emits sep s :
  chunkCB s = TopCB -> emits s (WSP.emitSepChunk sep s).
Proof.
  intros Hc. unfold WSP.emitSepChunk.
  set (s1 := if JS.has_nl sep then _ else _).
  assert (H1 : chunkCB s1 = TopCB /\ out s1 = out s /\ lastRes s1 = lastRes s).
  { subst s1. by destruct (JS.ends_nl sep), (JS.has_nl sep). }
  destruct H1 as (Hc1 & Ho1 & Hl1).
  destruct (call_chunkCB_emits sep (Some "separator") s1 Hc1)
    as (Hc2 & new & Ho2 & Hl2).
  split; [done|]. exists new. cbn. by rewrite Ho2, Hl2, Ho1, Hl1.
Qed.

(** A step of the second part of [_serializeToken]. *)
Lemma step_trans a b c :
  (settled a b /\ (chunkCB a = TopCB -> emits a b)) ->
  (settled b c /\ (chunkCB b = TopCB -> emits b c)) ->
  settled a c /\ (chunkCB a = TopCB -> emits a c).
Proof.
  intros [Hs1 He1] [Hs2 He2]. split; [by eapply settled_trans|].
  intros Hc. specialize (He1 Hc). eapply emits_trans; [done|].
  apply He2. by destruct He1.
Qed.

Lemma step_same a b :
  env_page_src b = env_page_src a ->
  (singleLineMode a = None -> singleLineMode b = None) ->
  (JS.truthy (env_page_src a) = false ->
   bufferedSeparator a = None -> bufferedSeparator b = None) ->
  chunkCB b = chunkCB a -> out b = out a -> lastRes b = lastRes a ->
  settled a b /\ (chunkCB a = TopCB -> emits a b).
Proof.
  intros He Hm Hb Hc Ho Hl. split; [done|].
  intros Ht. split; [congruence|]. exists [].
  by rewrite app_nil_r.
Qed.

Lemma step_refl a : settled a a /\ (chunkCB a = TopCB -> emits a a).
Proof. by apply step_same. Qed.

Lemma emitSepChunk_step sep s :
  settled s (WSP.emitSepChunk sep s)
  /\ (chunkCB s = TopCB -> emits s (WSP.emitSepChunk sep s)).
Proof. split; [apply emitSepChunk_settled|apply emitSepChunk_emits]. Qed.

Lemma emitNLs_step nls b s :
  settled s (WSP.emitNLs nls b s)
  /\ (chunkCB s = TopCB -> emits s (WSP.emitNLs nls b s)).
Proof.
  unfold WSP.emitNLs. destruct (separatorEmittedFromSrc s);
    [apply step_refl|].
  destruct (JS.truthy (env_page_src s)) eqn:Et; cbn [andb];
    [|apply emitSepChunk_step].
  destruct (negb b); [|apply emitSepChunk_step].
  apply step_same; try done. intros Hf. congruence.
Qed.

Lemma startOfLine_step h sup s :
  settled s (WSP.startOfLine h sup s)
  /\ (chunkCB s = TopCB -> emits s (WSP.startOfLine h sup s)).
Proof.
  unfold WSP.startOfLine.
  destruct (_ && _); [apply emitNLs_step|apply step_refl].
Qed.

Lemma call_chunkCB_step chunk info s :
  settled s (WSP.call_chunkCB chunk info s)
  /\ (chunkCB s = TopCB -> emits s (WSP.call_chunkCB chunk info s)).
Proof. split; [apply call_chunkCB_settled|apply call_chunkCB_emits]. Qed.

Lemma updateLineState_step h r s :
  settled s (WSP.updateLineState h r s)
  /\ (chunkCB s = TopCB -> emits s (WSP.updateLineState h r s)).
Proof.
  unfold WSP.updateLineState.
  destruct (JS.ends_crlf r); [by apply step_same|].
  destruct (negb (bool_decide (r = ""))); [|apply step_refl].
  destruct (negb (solTransparent h)); by apply step_same.
Qed.

Lemma emitAfter_step h s :
  settled s (WSP.emitAfter h s)
  /\ (chunkCB s = TopCB -> emits s (WSP.emitAfter h s)).
Proof.
  unfold WSP.emitAfter.
  destruct (emitsNL h); [apply emitNLs_step|].
  destruct (bufferedSeparator s) as [[|c sep]|];
    [apply step_refl|apply emitSepChunk_step|apply step_refl].
Qed.

Lemma endOfLine_step h s :
  settled s (WSP.endOfLine h s)
  /\ (chunkCB s = TopCB -> emits s (WSP.endOfLine h s)).
Proof.
  unfold WSP.endOfLine.
  destruct (_ && _); [apply emitNLs_step|apply step_refl].
Qed.

Lemma enterSingleLine_step h s :
  settled s (WSP.enterSingleLine h s)
  /\ (chunkCB s = TopCB -> emits s (WSP.enterSingleLine h s)).
Proof.
  unfold WSP.enterSingleLine.
  destruct (0 <? _); [|apply step_refl].
  apply step_same; try done. cbn. by intros ->.
Qed.

Lemma emitToken_step res h sup s :
  settled s (WSP.emitToken res h sup s)
  /\ (chunkCB s = TopCB -> emits s (WSP.emitToken res h sup s)).
Proof.
  unfold WSP.emitToken.
  eapply step_trans; [apply startOfLine_step|].
  eapply step_trans; [apply call_chunkCB_step|].
  eapply step_trans; [apply updateLineState_step|].
  eapply step_trans; [apply emitAfter_step|].
  eapply step_trans; [apply endOfLine_step|].
  eapply step_trans; [apply enterSingleLine_step|].
  by apply step_same.
Qed.

Lemma truthyZ_none (s : State) (n : Z) (token : Token) :
  let s1 :=
    set_currTagToken (Some token)
      (set_prevTagToken
         (currTagToken (set_wteHandlerStack (pop (wteHandlerStack s)) s))
         (set_wteHandlerStack (pop (wteHandlerStack s)) s)) in
  (if (n <? 0) && WSP.truthyZ (singleLineMode s1)
   then set_singleLineMode (Z.pred <$> singleLineMode s1) s1 else s1) = s1
  \/ (if (n <? 0) && WSP.truthyZ (singleLineMode s1)
      then set_singleLineMode (Z.pred <$> singleLineMode s1) s1 else s1)
     = set_singleLineMode (Z.pred <$> singleLineMode s1) s1.
Proof. intros s1. destruct (_ && _); auto. Qed.

Lemma unchanged_emits (b : bool) state st :
  calm st state ->
  (b = false -> singleLineMode state = None -> singleLineMode st = None) ->
  chunkCB st = chunkCB state -> out st = out state ->
  env_page_src st = env_page_src state
  /\ (b = false -> singleLineMode state = None -> singleLineMode st = None)
  /\ (bufferedSeparator state = None -> bufferedSeparator st = None)
  /\ (chunkCB state = TopCB -> emits state st).
Proof.
  intros (Hl & Hb & He) Hm Hc Ho. split; [done|]. split; [done|].
  split; [by rewrite Hb|]. intros Ht. split; [congruence|].
  exists []. by rewrite app_nil_r.
Qed.

(** What the first part of [_serializeToken] does to the page source,
    to [singleLineMode], to the buffered separator and to the output. *)
Lemma dispatch_steady `{Lib} state token res fl sup st :
  WSP.dispatch state token = Some (res, fl, sup, st) ->
  env_page_src st = env_page_src state
  /\ (opensTable token = false ->
      singleLineMode state = None -> singleLineMode st = None)
  /\ (bufferedSeparator state = None -> bufferedSeparator st = None)
  /\ (chunkCB state = TopCB -> emits state st).
Proof.
  unfold WSP.dispatch.
  destruct token as [n a da|n a da|n a da|text|v| |].
  - (* start tag *)
    destruct (WSP._getTokenHandler state _) as [[pt st1]|] eqn:Eh;
      cbn [mbind option_bind]; [|done].
    pose proof (getTokenHandler_steady _ _ _ _ Eh) as (Hq' & Hcalm & Hmode).
    apply getTokenHandler_quiet in Eh as (Hq & Ho & _ & Hc & _).
    destruct (negb (ignore (flags pt))).
    + destruct (WSP.run_handle pt _ _) as [[[r s2] fl2]|] eqn:Er;
        cbn [mbind option_bind]; [|done].
      pose proof (run_handle_steady _ _ _ _ _ _ _ Hq' Er) as [Hcalm2 Hmode2].
      apply (run_handle_quiet _ _ _ _ _ _ Hq) in Er
        as (Ho2 & _ & Hc2 & _).
      destruct (WSP.apply_textHandler _ _ _); cbn; [|done].
      intros [= <- <- <- <-].
      destruct Hcalm as (? & ? & ?), Hcalm2 as (? & ? & ?). cbn in *.
      apply unchanged_emits; [repeat split; congruence| |congruence..].
      intros Hb Hn. apply Hmode2; [done|congruence].
    + cbn. intros [= <- <- <- <-].
      apply unchanged_emits; [done| |done..]. intros _. congruence.
  - (* end tag *)
    destruct (WSP._getTokenHandler state _) as [[pt st1]|] eqn:Eh;
      cbn [mbind option_bind]; [|done].
    pose proof (getTokenHandler_steady _ _ _ _ Eh) as (Hq' & Hcalm & Hmode).
    apply getTokenHandler_quiet in Eh as (Hq & Ho & _ & Hc & _).
    destruct Hcalm as (? & ? & ?).
    destruct (negb (ignore (flags pt))).
    + destruct (WSP.run_handle pt _ _) as [[[r s2] fl2]|] eqn:Er;
        cbn [mbind option_bind]; [|done].
      pose proof (run_handle_steady _ _ _ _ _ _ _ Hq' Er) as [Hcalm2 Hmode2].
      apply (run_handle_quiet _ _ _ _ _ _ Hq) in Er
        as (Ho2 & _ & Hc2 & _).
      intros [= <- <- <- <-].
      destruct Hcalm2 as (Hl2 & Hb2 & He2).
      destruct (truthyZ_none st1 (singleLine (flags pt)) (EndTagTk n a da))
        as [Heq|Heq]; rewrite Heq in *; cbn in *.
      all: apply unchanged_emits; [repeat split; congruence| |congruence..].
      all: intros Hb Hn; apply Hmode2; [done|cbn; rewrite ?Hmode, ?Hn; done].
    + intros [= <- <- <- <-].
      apply unchanged_emits; [by repeat split| |done..].
      intros _. cbn. congruence.
  - (* self-closing tag *)
    destruct (WSP._getTokenHandler state _) as [[pt st1]|] eqn:Eh;
      cbn [mbind option_bind]; [|done].
    pose proof (getTokenHandler_steady _ _ _ _ Eh) as (Hq' & Hcalm & Hmode).
    apply getTokenHandler_quiet in Eh as (Hq & Ho & _ & Hc & _).
    destruct (negb (ignore (flags pt))).
    + destruct (WSP.run_handle pt _ _) as [[[r s2] fl2]|] eqn:Er;
        cbn [mbind option_bind]; [|done].
      pose proof (run_handle_steady _ _ _ _ _ _ _ Hq' Er) as [Hcalm2 Hmode2].
      apply (run_handle_quiet _ _ _ _ _ _ Hq) in Er
        as (Ho2 & _ & Hc2 & _).
      destruct (WSP.apply_textHandler _ _ _); cbn; [|done].
      intros [= <- <- <- <-].
      destruct Hcalm as (? & ? & ?), Hcalm2 as (? & ? & ?). cbn in * |-.
      apply unchanged_emits; [repeat split; cbn; congruence| |cbn; congruence..].
      intros Hb Hn. cbn. apply Hmode2; [done|congruence].
    + cbn. intros [= <- <- <- <-]. destruct Hcalm as (? & ? & ?).
      apply unchanged_emits; [by repeat split| |done..].
      intros _. cbn. congruence.
  - (* text *)
    destruct (if inNoWiki state || inHTMLPre state
              then Some (escapeEntities text, state)
              else WSP.escapeWikiText state (escapeEntities text))
      as [[r st2]|] eqn:E; cbn [mbind option_bind]; [|done].
    assert (Hst2 : exists stack cl,
               st2 = set_currLine cl (set_wteHandlerStack stack state)).
    { destruct (inNoWiki state || inHTMLPre state).
      - injection E as _ <-.
        exists (wteHandlerStack state), (currLine state).
        by rewrite State_eta.
      - by apply escapeWikiText_frame in E. }
    destruct Hst2 as (stack & cl & ->).
    intros [= <- <- <- <-].
    destruct (JS.blank_then_nl _).
    + split; [done|]. split; [done|]. split; [done|].
      intros Ht. split; [done|]. exists []. cbn. by rewrite app_nil_r.
    + apply (unchanged_emits false); by repeat split.
  - intros [= <- <- <- <-]. apply (unchanged_emits false); by repeat split.
  - intros [= <- <- <- <-]. apply (unchanged_emits false); by repeat split.
  - intros [= <- <- <- <-].
    destruct (call_chunkCB_step "" None state) as [(He & Hm & _) Hem].
    destruct (callCB_fields (chunkCB state) "" None state) as (_ & _ & Hb).
    split; [done|]. split; [by intros _|]. split; [|done].
    unfold WSP.call_chunkCB. by rewrite Hb.
Qed.

Lemma serializeToken_steady `{Lib} state token st :
  WSP._serializeToken state token = Some st ->
  env_page_src st = env_page_src state
  /\ (opensTable token = false ->
      singleLineMode state = None -> singleLineMode st = None)
  /\ (JS.truthy (env_page_src state) = false ->
      bufferedSeparator state = None -> bufferedSeparator st = None)
  /\ (chunkCB state = TopCB -> emits state st).
Proof.
  unfold WSP._serializeToken.
  destruct (WSP.dispatch _ token) as [[[[res fl] sup] s1]|] eqn:Ed;
    cbn [mbind option_bind]; [|done].
  intros [= <-]. apply dispatch_steady in Ed as (He & Hm & Hb & Hem).
  destruct (emitToken_step (default "" res) fl sup s1)
    as [(He2 & Hm2 & Hb2) Hem2].
  cbn in He, Hm, Hb, Hem.
  split; [congruence|]. split; [by auto|].
  split; [intros Ht Hn; apply Hb2; [by rewrite He|by apply Hb]|].
  intros Hc. specialize (Hem Hc). destruct Hem as (Hc1 & new & Ho & Hl).
  cbn in Ho, Hl. eapply emits_trans; [|by apply Hem2].
  split; [done|]. by exists new.
Qed.

(** ** The buffer of the last output *)

Lemma length_append (a b : string) :
  String.length (a +:+ b) = (String.length a + String.length b)%nat.
Proof.
  induction a as [|x a IH]; [reflexivity|].
  change (S (String.length (a +:+ b))
          = S (String.length a + String.length b)). by rewrite IH.
Qed.

Lemma length_drop k : forall s,
  String.length (JS.drop k s) = (String.length s - k)%nat.
Proof. induction k as [|k IH]; intros [|c s]; cbn; try done; lia. Qed.

Lemma drop_drop j : forall k s, JS.drop k (JS.drop j s) = JS.drop (j + k) s.
Proof.
  induction j as [|j IH]; intros k s; [done|].
  destruct s as [|c s]; cbn; [by destruct k|apply IH].
Qed.

Lemma drop_app_le c : forall k a,
  (k <= String.length a)%nat -> JS.drop k (a +:+ c) = JS.drop k a +:+ c.
Proof.
  induction k as [|k IH]; intros a Hk; [done|].
  destruct a as [|x a]; cbn in Hk; [lia|].
  change (JS.drop k (a +:+ c) = JS.drop k a +:+ c). apply IH. lia.
Qed.

Lemma drop_app_ge c : forall k a,
  (String.length a <= k)%nat ->
  JS.drop k (a +:+ c) = JS.drop (k - String.length a) c.
Proof.
  induction k as [|k IH]; intros a Hk.
  - destruct a; [done|cbn in Hk; lia].
  - destruct a as [|x a]; [done|]. cbn in Hk.
    change (JS.drop k (a +:+ c) = JS.drop (k - String.length a) c).
    apply IH. lia.
Qed.

(** The last [n] characters of a text do not depend on what was cut
    off before. *)
Lemma substr_last_app n a c :
  JS.substr_last n (JS.substr_last n a +:+ c) = JS.substr_last n (a +:+ c).
Proof.
  unfold JS.substr_last. rewrite !length_append, length_drop.
  destruct (decide (String.length a <= n)%nat) as [Hle|Hgt].
  { replace (String.length a - n)%nat with 0%nat by lia. cbn [JS.drop].
    by rewrite Nat.sub_0_r. }
  replace (String.length a - (String.length a - n) + String.length c - n)%nat
    with (String.length c) by lia.
  destruct (decide (String.length c <= n)%nat) as [Hc|Hc].
  - rewrite !drop_app_le by (rewrite ?length_drop; lia).
    rewrite drop_drop. f_equal. f_equal. lia.
  - rewrite !drop_app_ge by (rewrite ?length_drop; lia).
    rewrite length_drop. f_equal. lia.
Qed.

Lemma length_substr_last n s : (String.length (JS.substr_last n s) <= n)%nat.
Proof. unfold JS.substr_last. rewrite length_drop. lia. Qed.

Lemma slide_closed chunks : forall last,
  (String.length last <= 100)%nat ->
  slide last chunks = JS.substr_last 100 (last +:+ chunkText chunks).
Proof.
  unfold slide.
  induction chunks as [|c chunks IH]; intros last Hlen; cbn [foldl chunkText foldr].
  - rewrite append_empty. unfold JS.substr_last.
    by replace (String.length last - 100)%nat with 0%nat by lia.
  - rewrite IH by apply length_substr_last.
    by rewrite substr_last_app, append_assoc.
Qed.

Lemma serializeTokens_steady `{Lib} tokens : forall state st,
  WSP.serializeTokens_loop state tokens = Some st ->
  env_page_src st = env_page_src state
  /\ (Forall (fun t => opensTable t = false) tokens ->
      singleLineMode state = None -> singleLineMode st = None)
  /\ (JS.truthy (env_page_src state) = false ->
      bufferedSeparator state = None -> bufferedSeparator st = None)
  /\ (chunkCB state = TopCB -> emits state st).
Proof.
  induction tokens as [|t rest IH]; intros state st;
    cbn [WSP.serializeTokens_loop].
  - intros [= <-]. split; [done|]. split; [done|]. split; [done|].
    apply emits_refl.
  - destruct (WSP._serializeToken state t) as [s1|] eqn:E;
      cbn [mbind option_bind]; [|done].
    apply serializeToken_steady in E as (He & Hm & Hb & Hem).
    intros Hloop. apply IH in Hloop as (He' & Hm' & Hb' & Hem').
    split; [congruence|]. split; [|split].
    + intros Hall Hn. inversion Hall as [|? ? Ht Hrest]; subst.
      apply Hm'; [done|]. by apply Hm.
    + intros Ht Hn. apply Hb'; [by rewrite He|by apply Hb].
    + intros Hc. specialize (Hem Hc). eapply emits_trans; [done|].
      apply Hem'. by destruct Hem.
Qed.

Lemma tagHandlers_table `{Lib} state :
  WSP.tagHandlers state "table" = Some WSP.table.
Proof. reflexivity. Qed.

(** X22.  The end tag of a wikitext table leaves [singleLineMode]
    without a number: the handler restores it from the property
    [singleLineMode] of the frame that the start tag pushed, and the
    start tag stored the mode under the name [singleLine]. *)
Theorem table_end_loses_singleLineMode `{Lib} state token st :
  closesTable state token ->
  WSP._serializeToken state token = Some st ->
  singleLineMode st = None.
Proof.
  intros (Hctor & Hname & Htpl & Hhtml & Hda).
  destruct token as [n a da|n a da|n a da|text|v| |]; try done.
  cbn in Hname. injection Hname as ->.
  unfold WSP._serializeToken.
  destruct (WSP.dispatch _ _) as [[[[res fl] sup] s1]|] eqn:Ed;
    cbn [mbind option_bind]; [|done].
  intros [= <-].
  destruct (emitToken_step (default "" res) fl sup s1) as [(_ & Hm & _) _].
  apply Hm. clear Hm. revert Ed.
  unfold WSP.dispatch, WSP._getTokenHandler.
  fold (fromTemplateSource (EndTagTk "table" a da)). rewrite Htpl, Hhtml.
  assert (Hsel : bool_decide (dataAttribs (EndTagTk "table" a da) = emptyDA)
                 && negb (name_is (EndTagTk "table" a da) "meta")
                 && str_eq (parentSTX state) "html" = false).
  { unfold str_eq. case_bool_decide as Hd; [|done].
    case_bool_decide as Hp; [by destruct (Hda Hd)|].
    by rewrite andb_false_r. }
  cbn [parentSTX set_curToken set_prevToken orb andb is_ctor constructor].
  change (is_ctor (EndTagTk "table" a da) CTagTk) with false.
  change (is_ctor (EndTagTk "table" a da) CEndTagTk) with true.
  change (is_ctor (EndTagTk "table" a da) CSelfclosingTagTk) with false.
  cbn [orb andb]. rewrite Hsel.
  change (default "" (name (EndTagTk "table" a da))) with "table".
  rewrite tagHandlers_table.
  cbn -[WSP.run_handle].
  unfold WSP.run_handle. cbn.
  destruct (last (tableStack state)); cbn; [|done].
  by intros [= _ _ _ <-].
Qed.

Lemma table_end_loses_singleLineMode_witness :
  singleLineMode table_closed = None.
Proof.
  apply (@table_end_loses_singleLineMode plainLib in_table table_end
           table_closed).
  - repeat split; try reflexivity. intros _. discriminate.
  - vm_compute. reflexivity.
Defined.

(** X23.  Once [singleLineMode] is not a number it stays so, over
    every list of tokens without the start tag of a table: the handlers
    of the list items add to it and the end tags test it, and neither
    makes a number of it again.  Single-line mode is then off. *)
Theorem singleLineMode_stays_lost `{Lib} state tokens st :
  Forall (fun t => opensTable t = false) tokens ->
  singleLineMode state = None ->
  WSP.serializeTokens_loop state tokens = Some st ->
  singleLineMode st = None /\ WSP.truthyZ (singleLineMode st) = false.
Proof.
  intros Hall Hn Hloop.
  apply serializeTokens_steady in Hloop as (_ & Hm & _).
  rewrite (Hm Hall Hn). done.
Qed.

Lemma singleLineMode_stays_lost_witness :
  singleLineMode item_run = None
  /\ WSP.truthyZ (singleLineMode item_run) = false.
Proof.
  apply (@singleLineMode_stays_lost plainLib table_closed item_doc item_run).
  - repeat constructor.
  - reflexivity.
  - vm_compute. reflexivity.
Defined.

(** X24.  The buffer [lastRes] that the chunk callback of
    [serializeTokens] keeps holds the last hundred characters of what
    was in it followed by all the text emitted since: the handlers that
    consult it (the quote handlers) see the end of the output. *)
Theorem lastRes_sliding `{Lib} state tokens st :
  chunkCB state = TopCB ->
  (String.length (lastRes state) <= 100)%nat ->
  WSP.serializeTokens_loop state tokens = Some st ->
  exists new,
    out st = out state ++ new
    /\ lastRes st = JS.substr_last 100 (lastRes state +:+ chunkText new).
Proof.
  intros Hc Hlen Hloop.
  apply serializeTokens_steady in Hloop as (_ & _ & _ & Hem).
  destruct (Hem Hc) as (_ & new & Ho & Hl).
  exists new. split; [done|]. by rewrite Hl, slide_closed.
Qed.

Lemma lastRes_sliding_witness :
  exists new,
    out heading_run = out WSP.initialState ++ new
    /\ lastRes heading_run
       = JS.substr_last 100 (lastRes WSP.initialState +:+ chunkText new).
Proof.
  apply (@lastRes_sliding plainLib WSP.initialState heading_doc heading_run).
  - reflexivity.
  - cbn. lia.
  - vm_compute. reflexivity.
Defined.

(** X25.  Without original source no separator is held back: when
    [env.page.src] is absent or empty and no separator is buffered
    before a list of tokens, none is buffered after it, and the page
    source is as it was. *)
Theorem no_source_no_buffer `{Lib} state tokens st :
  JS.truthy (env_page_src state) = false ->
  bufferedSeparator state = None ->
  WSP.serializeTokens_loop state tokens = Some st ->
  bufferedSeparator st = None /\ env_page_src st = env_page_src state.
Proof.
  intros Ht Hn Hloop.
  apply serializeTokens_steady in Hloop as (He & _ & Hb & _).
  split; [by apply Hb|done].
Qed.

Lemma no_source_no_buffer_witness :
  bufferedSeparator heading_run = None
  /\ env_page_src heading_run = env_page_src WSP.initialState.
Proof.
  apply (@no_source_no_buffer plainLib WSP.initialState heading_doc
           heading_run).
  - reflexivity.
  - reflexivity.
  - vm_compute. reflexivity.
Defined.


(** ** Tokens served from their template source *)

Lemma emitToken_template res s :
  chunkCB s = TopCB ->
  out (WSP.emitToken res
         (mkFlags false false false false false true 0) false s)
  = out s ++ (res, selser_serializeInfo s) :: bufferedChunk s.
Proof.
  intros Hcb. unfold WSP.emitToken, WSP.startOfLine, WSP.contentProcessing.
  cbn [startsLine isTemplateSrc andb negb emitsNL endsLine singleLine].
  rewrite andb_false_r.
  unfold WSP.endOfLine, WSP.enterSingleLine, WSP.emitAfter.
  cbn [startsLine isTemplateSrc andb negb emitsNL endsLine singleLine
       Z.ltb Z.compare].
  change (out (set_separatorEmittedFromSrc false ?x)) with (out x).
  set (s2 := WSP.call_chunkCB res None s).
  assert (H2 : chunkCB s2 = TopCB
               /\ out s2 = out s ++ [(res, selser_serializeInfo s)]
               /\ bufferedSeparator s2 = bufferedSeparator s).
  { subst s2. unfold WSP.call_chunkCB. rewrite Hcb. by cbn. }
  clearbody s2. destruct H2 as (Hc2 & Ho2 & Hb2).
  set (s3 := WSP.updateLineState _ res s2).
  assert (H3 : chunkCB s3 = TopCB /\ out s3 = out s2
               /\ bufferedSeparator s3 = bufferedSeparator s2).
  { subst s3. unfold WSP.updateLineState.
    destruct (JS.ends_crlf res); [done|].
    destruct (negb (bool_decide (res = ""))); [|done]. by cbn. }
  clearbody s3. destruct H3 as (Hc3 & Ho3 & Hb3).
  unfold bufferedChunk. rewrite <- Hb2, <- Hb3.
  destruct (bufferedSeparator s3) as [[|c sep]|].
  - by rewrite Ho3, Ho2.
  - unfold WSP.emitSepChunk, WSP.call_chunkCB.
    change (out (set_bufferedSeparator None ?x)) with (out x).
    set (s4 := if JS.has_nl _ then _ else _).
    assert (H4 : chunkCB s4 = TopCB /\ out s4 = out s3).
    { subst s4.
      by destruct (JS.has_nl (String c sep)), (JS.ends_nl (String c sep)). }
    destruct H4 as [-> H4]. cbn. rewrite H4, Ho3, Ho2.
    by rewrite <- app_assoc.
  - by rewrite Ho3, Ho2.
Qed.

(** X26.  A tag token that carries its template source
    ([dataAttribs.src] with [typeof] [mw:TemplateSource]) is serialized
    as this source, as it stands: it is not escaped, no line start is
    forced before it, and its line breaks stay also in single-line
    mode.  After it comes the buffered separator, if there is one, and
    nothing else. *)
Theorem template_source_verbatim `{Lib} state token src st :
  fromTemplateSource token = true ->
  da_src (dataAttribs token) = Some src ->
  transformed state token = false -> autoInserted token = false ->
  chunkCB state = TopCB ->
  WSP._serializeToken state token = Some st ->
  out st
  = out state ++ (src, selser_serializeInfo state) :: bufferedChunk state.
Proof.
  intros Htpl Hsrc Htr Hauto Hcb.
  unfold WSP._serializeToken, WSP.dispatch, WSP._getTokenHandler.
  destruct token as [n a da|n a da|n a da|text|v| |]; try done.
  all: fold (fromTemplateSource (TagTk n a da));
    fold (fromTemplateSource (EndTagTk n a da));
    fold (fromTemplateSource (SelfclosingTagTk n a da));
    rewrite Htpl; cbn in Hsrc, Hauto; unfold transformed in Htr;
    cbn in Htr; rewrite ?andb_true_r, ?andb_false_r in Htr.
  all: unfold WSP.run_handle, WSP.apply_textHandler; cbn; rewrite Hsrc.
  all: rewrite ?Htr, ?Hauto; cbn; intros [= <-].
  all: by rewrite emitToken_template.
Qed.

Lemma template_source_verbatim_witness :
  out template_call_run
  = out single_line_state
    ++ (two_lines, selser_serializeInfo single_line_state)
       :: bufferedChunk single_line_state.
Proof.
  apply (@template_source_verbatim plainLib single_line_state template_call).
  - reflexivity.
  - reflexivity.
  - reflexivity.
  - reflexivity.
  - reflexivity.
  - vm_compute. reflexivity.
Defined.
